(** * armavita-quo-mcp: the request-translation layer of [server.mjs]

    A shallow embedding of [server.mjs]: the start-up guards, the secret
    redactor, the error-detail extractor, the HTTP gateway [quoFetch] and
    the tool handlers and their registry, together
    with the parts of the JavaScript platform they call (strings, JSON
    serialisation, URLSearchParams, timers and fetch).

    Conventions of the embedding.
    - A JavaScript string is a [string]: a sequence of code units, here the
      code units below 256.  Strings of 16-bit code units are modelled
      apart ([Wide]), for what [URLSearchParams] makes of a surrogate.
    - A JavaScript number is a [Z]: the integer-valued numbers that print as
      plain decimal digits (page sizes, status codes, millisecond counts).
    - An object is an association list in property-enumeration order.
    - [async] code is a program over the effects it awaits ([prog]); an
      interpreter ([run]) threads the clock, the abort timer and the log of
      outbound requests. *)

From Stdlib Require Import ZArith List Bool Ascii String Lia.
From Stdlib Require Import Numbers.DecimalString Numbers.DecimalPos Numbers.DecimalZ.
Import ListNotations.

Local Open Scope string_scope.
Local Open Scope Z_scope.

Set Implicit Arguments.
Local Set Warnings "-register-all".

(** ** Strings *)

Module Str.

(** The characters that cannot be written inside a literal here. *)
Definition dq : string := String (ascii_of_nat 34) EmptyString.
Definition nl : string := String (ascii_of_nat 10) EmptyString.

Definition code (c : ascii) : nat := nat_of_ascii c.

(** [s.startsWith(p)] *)
Fixpoint startsWith (p s : string) : bool :=
  match p, s with
  | EmptyString, _ => true
  | String a p', String b s' => Ascii.eqb a b && startsWith p' s'
  | String _ _, EmptyString => false
  end.

(** [s.slice(n)] *)
Fixpoint drop (n : nat) (s : string) : string :=
  match n, s with
  | O, _ => s
  | S n', String _ s' => drop n' s'
  | S _, EmptyString => EmptyString
  end.

(** [s.slice(0, n)] *)
Fixpoint take (n : nat) (s : string) : string :=
  match n, s with
  | O, _ => EmptyString
  | S n', String c s' => String c (take n' s')
  | S _, EmptyString => EmptyString
  end.

(** [s.includes(p)] *)
Fixpoint includes (p s : string) : bool :=
  if startsWith p s then true
  else match s with
       | EmptyString => false
       | String _ s' => includes p s'
       end.

(** [s.replace(p, r)] for a string pattern [p] and a replacement [r]
    without [$]: only the first occurrence of [p] is replaced. *)
Fixpoint replace (p r s : string) : string :=
  if startsWith p s then r ++ drop (String.length p) s
  else match s with
       | EmptyString => EmptyString
       | String c s' => String c (replace p r s')
       end.

(** White space and line terminators, the code units [\s] matches and
    [trim] removes: TAB, LF, VT, FF, CR, SP and NBSP. *)
Definition is_space (c : ascii) : bool :=
  let n := code c in
  ((9 <=? n) && (n <=? 13) || (n =? 32) || (n =? 160))%nat.

Fixpoint all_space (s : string) : bool :=
  match s with
  | EmptyString => true
  | String c s' => is_space c && all_space s'
  end.

(** [s.trim()] is used by the code only for its truthiness: the trimmed
    string is non-empty exactly when some character is not white space. *)
Definition trim_nonempty (s : string) : bool := negb (all_space s).

Definition lower (c : ascii) : ascii :=
  let n := code c in
  if ((65 <=? n) && (n <=? 90))%nat then ascii_of_nat (n + 32) else c.

(** Comparison of characters under the [i] flag (without [u]): only the
    ASCII letters have a second case that is an ASCII letter. *)
Definition eq_ci (a b : ascii) : bool := Ascii.eqb (lower a) (lower b).

(** [l.join(sep)] *)
Fixpoint join (sep : string) (l : list string) : string :=
  match l with
  | [] => EmptyString
  | [s] => s
  | s :: l' => s ++ sep ++ join sep l'
  end.

(** No character of [s] is [c]. *)
Fixpoint lacks (c : ascii) (s : string) : bool :=
  match s with
  | EmptyString => true
  | String d s' => negb (Ascii.eqb d c) && lacks c s'
  end.

(** Decimal digits of an integer: [String(n)] for the numbers of the model. *)
Definition of_Z (n : Z) : string := NilZero.string_of_int (Z.to_int n).

End Str.

(** ** Values *)

(** The JavaScript values the server handles: what [JSON.parse] produces,
    what the validated tool arguments hold, and [undefined]. *)
Inductive value : Type :=
| JUndefined
| JNull
| JBool (b : bool)
| JNum (n : Z)
| JStr (s : string)
| JArr (items : list value)
| JObj (fields : list (string * value)).

Definition object := list (string * value).

Module Js.

(** Own property [k] of an object: [undefined] when absent. *)
Fixpoint lookup (fields : object) (k : string) : value :=
  match fields with
  | [] => JUndefined
  | (k', v) :: rest => if String.eqb k' k then v else lookup rest k
  end.

Definition nullish (v : value) : bool :=
  match v with
  | JUndefined | JNull => true
  | _ => false
  end.

(** [v?.k] for a property name [k] that no prototype defines
    ([message], [error], [data]): only an object can have it. *)
Definition get_opt (v : value) (k : string) : value :=
  match v with
  | JObj fields => lookup fields k
  | _ => JUndefined
  end.

(** Destructuring [{ k }] of the argument object of a handler. *)
Definition arg (args : value) (k : string) : value := get_opt args k.

(** [Array.isArray(v)] *)
Definition isArray (v : value) : bool :=
  match v with
  | JArr _ => true
  | _ => false
  end.

(** Truthiness, as tested by [cond ? a : b], [!v] and [&&]. *)
Definition truthy (v : value) : bool :=
  match v with
  | JUndefined | JNull => false
  | JBool b => b
  | JNum n => negb (n =? 0)
  | JStr s => negb (String.eqb s EmptyString)
  | JArr _ | JObj _ => true
  end.

(** [String(v)], also the conversion of a template literal [${v}] and of
    an argument of [URLSearchParams.append]. *)
Fixpoint String_ (v : value) : string :=
  match v with
  | JUndefined => "undefined"
  | JNull => "null"
  | JBool true => "true"
  | JBool false => "false"
  | JNum n => Str.of_Z n
  | JStr s => s
  | JArr items =>
      Str.join ","
        (map (fun x => if nullish x then EmptyString else String_ x) items)
  | JObj _ => "[object Object]"
  end.

(** An object literal [{ ...a, ...b }] built from spread parts. *)
Definition spread (parts : list object) : object := List.concat parts.

(** [...(cond ? { k: v } : {})] *)
Definition spread_if (cond : value) (k : string) (v : value) : object :=
  if truthy cond then [(k, v)] else [].

End Js.

(** ** JSON.stringify *)

Module JSON.

Definition hex_digit (n : nat) : ascii :=
  ascii_of_nat (if (n <? 10)%nat then 48 + n else 87 + n).

(** One code unit inside a quoted JSON string. *)
Definition quote_char (c : ascii) : string :=
  let n := Str.code c in
  if (n =? 34)%nat then "\" ++ Str.dq
  else if (n =? 92)%nat then "\\"
  else if (n =? 8)%nat then "\b"
  else if (n =? 12)%nat then "\f"
  else if (n =? 10)%nat then "\n"
  else if (n =? 13)%nat then "\r"
  else if (n =? 9)%nat then "\t"
  else if (n <? 32)%nat then
    "\u00" ++ String (hex_digit (n / 16)) (String (hex_digit (n mod 16)) EmptyString)
  else String c EmptyString.

Fixpoint quote_body (s : string) : string :=
  match s with
  | EmptyString => EmptyString
  | String c s' => quote_char c ++ quote_body s'
  end.

(** QuoteJSONString *)
Definition quote (s : string) : string := Str.dq ++ quote_body s ++ Str.dq.

(** The brackets around the serialised members of an array or object. *)
Definition wrap (open close gap stepback indent : string)
           (partial : list string) : string :=
  match partial with
  | [] => open ++ close
  | _ =>
      if String.eqb gap EmptyString
      then open ++ Str.join "," partial ++ close
      else open ++ Str.nl ++ indent
                ++ Str.join ("," ++ Str.nl ++ indent) partial
                ++ Str.nl ++ stepback ++ close
  end.

(** SerializeJSONProperty: [None] is [undefined]. *)
Fixpoint serialize (gap indent : string) (v : value) : option string :=
  match v with
  | JUndefined => None
  | JNull => Some "null"
  | JBool true => Some "true"
  | JBool false => Some "false"
  | JNum n => Some (Str.of_Z n)
  | JStr s => Some (quote s)
  | JArr items =>
      let inner := indent ++ gap in
      let partial :=
        map (fun x => match serialize gap inner x with
                      | Some t => t
                      | None => "null"
                      end) items in
      Some (wrap "[" "]" gap indent inner partial)
  | JObj fields =>
      let inner := indent ++ gap in
      let colon := if String.eqb gap EmptyString then ":" else ": " in
      let partial :=
        (fix members (fs : list (string * value)) : list string :=
           match fs with
           | [] => []
           | (k, x) :: fs' =>
               match serialize gap inner x with
               | Some t => (quote k ++ colon ++ t) :: members fs'
               | None => members fs'
               end
           end) fields in
      Some (wrap "{" "}" gap indent inner partial)
  end.

(** [JSON.stringify(v)] *)
Definition stringify (v : value) : option string :=
  serialize EmptyString EmptyString v.

(** [JSON.stringify(v, null, 2)] *)
Definition stringify_2 (v : value) : option string :=
  serialize "  " EmptyString v.

End JSON.

(** ** The platform: errors, URLs, fetch and timers *)

(** A thrown [Error] object, as far as the code reads it. *)
Record js_error : Type := { name : string; message : string }.

(** [new Error(msg)] *)
Definition new_Error (msg : string) : js_error :=
  {| name := "Error"; message := msg |}.

(** What [fetch] rejects with once its signal has been aborted. *)
Definition AbortError : js_error :=
  {| name := "AbortError"; message := "This operation was aborted" |}.

(** Reading a property of [null] or [undefined]. *)
Definition TypeError_read (of_ : value) (k : string) : js_error :=
  {| name := "TypeError";
     message := "Cannot read properties of " ++ Js.String_ of_
                ++ " (reading '" ++ k ++ "')" |}.

(** [JSON.parse] either returns a value or throws a [SyntaxError] with a
    text of the engine's choosing. *)
Inductive parse_result : Type :=
| Parsed (v : value)
| SyntaxError (msg : string).

Definition query := list (string * string).

Module URLSearchParams.

Definition has (q : query) (k : string) : bool :=
  existsb (fun kv => String.eqb (fst kv) k) q.

(** [q.append(k, v)] *)
Definition append (q : query) (k v : string) : query := (q ++ [(k, v)])%list.

Definition without (q : query) (k : string) : query :=
  filter (fun kv => negb (String.eqb (fst kv) k)) q.

Fixpoint set_first (q : query) (k v : string) : query :=
  match q with
  | [] => []
  | (k', v') :: rest =>
      if String.eqb k' k then (k, v) :: without rest k
      else (k', v') :: set_first rest k v
  end.

(** [q.set(k, v)]: the first entry named [k] takes the value and the
    others are removed; with no such entry the pair is appended. *)
Definition set (q : query) (k v : string) : query :=
  if has q k then set_first q k v else append q k v.

(** [q.getAll(k)] *)
Definition getAll (q : query) (k : string) : list string :=
  map snd (filter (fun kv => String.eqb (fst kv) k) q).

End URLSearchParams.

(** The serialisation of a query in a URL, [application/x-www-form-urlencoded]:
    what [url.toString()] writes after the question mark and what a server
    reads back. *)
Module Form.

(** The characters written as they are: letters, digits and [* - . _]. *)
Definition unreserved (c : ascii) : bool :=
  let n := Str.code c in
  ((48 <=? n) && (n <=? 57) || (65 <=? n) && (n <=? 90)
   || (97 <=? n) && (n <=? 122)
   || (n =? 42) || (n =? 45) || (n =? 46) || (n =? 95))%nat.

Definition hex_upper (n : nat) : ascii :=
  ascii_of_nat (if (n <? 10)%nat then 48 + n else 55 + n).

(** One byte: a space becomes a plus sign, any other reserved byte a
    percent sign and two hexadecimal digits. *)
Definition encode_byte (b : ascii) : string :=
  if (Str.code b =? 32)%nat then "+"
  else if unreserved b then String b EmptyString
  else String "%" (String (hex_upper (Str.code b / 16))
                          (String (hex_upper (Str.code b mod 16)) EmptyString)).

(** The UTF-8 bytes of a code unit: one byte below 128, two for the
    others. *)
Definition utf8_char (c : ascii) : string :=
  let n := Str.code c in
  if (n <? 128)%nat then String c EmptyString
  else String (ascii_of_nat (192 + n / 64))
              (String (ascii_of_nat (128 + n mod 64)) EmptyString).

Fixpoint utf8_encode (s : string) : string :=
  match s with
  | EmptyString => EmptyString
  | String c s' => utf8_char c ++ utf8_encode s'
  end.

Fixpoint percent_encode (bytes : string) : string :=
  match bytes with
  | EmptyString => EmptyString
  | String b bytes' => encode_byte b ++ percent_encode bytes'
  end.

Definition encode (s : string) : string := percent_encode (utf8_encode s).

(** One entry: the encoded name, an equals sign, the encoded value. *)
Definition pair_text (kv : string * string) : string :=
  encode (fst kv) ++ "=" ++ encode (snd kv).

(** The serialiser: the entries joined by ampersands. *)
Definition serialize (q : query) : string :=
  Str.join "&" (map pair_text q).

Definition hex_value (c : ascii) : option nat :=
  let n := Str.code c in
  if ((48 <=? n) && (n <=? 57))%nat then Some (n - 48)%nat
  else if ((65 <=? n) && (n <=? 70))%nat then Some (n - 55)%nat
  else if ((97 <=? n) && (n <=? 102))%nat then Some (n - 87)%nat
  else None.

(** A plus sign is a space, a percent sign with two hexadecimal digits is
    the byte they write, anything else stands for itself. *)
Fixpoint percent_decode (s : string) : string :=
  match s with
  | EmptyString => EmptyString
  | String c s' =>
      if (Str.code c =? 43)%nat then String " " (percent_decode s')
      else if (Str.code c =? 37)%nat then
        match s' with
        | String h1 (String h2 rest) =>
            match hex_value h1, hex_value h2 with
            | Some a, Some b =>
                String (ascii_of_nat (16 * a + b)) (percent_decode rest)
            | _, _ => String c (percent_decode s')
            end
        | _ => String c (percent_decode s')
        end
      else String c (percent_decode s')
  end.

(** UTF-8 decoding of the sequences [utf8_encode] writes; any other byte
    is kept as it is. *)
Fixpoint utf8_decode (bytes : string) : string :=
  match bytes with
  | EmptyString => EmptyString
  | String b bytes' =>
      let n := Str.code b in
      if ((194 <=? n) && (n <=? 195))%nat then
        match bytes' with
        | String b2 rest =>
            let m := Str.code b2 in
            if ((128 <=? m) && (m <=? 191))%nat
            then String (ascii_of_nat (64 * (n - 192) + (m - 128)))
                        (utf8_decode rest)
            else String b (utf8_decode bytes')
        | EmptyString => String b EmptyString
        end
      else String b (utf8_decode bytes')
  end.

Definition decode (s : string) : string := utf8_decode (percent_decode s).

(** [s.split(sep)] for a one-character separator. *)
Fixpoint split (sep : ascii) (s : string) : list string :=
  match s with
  | EmptyString => [EmptyString]
  | String c s' =>
      if Ascii.eqb c sep then EmptyString :: split sep s'
      else match split sep s' with
           | piece :: pieces => String c piece :: pieces
           | [] => [String c EmptyString]
           end
  end.

(** The part of [s] before the first [sep], and the part after it when
    there is one. *)
Fixpoint cut (sep : ascii) (s : string) : string * option string :=
  match s with
  | EmptyString => (EmptyString, None)
  | String c s' =>
      if Ascii.eqb c sep then (EmptyString, Some s')
      else let (before, rest) := cut sep s' in (String c before, rest)
  end.

(** The parser: the pieces between [&], empty ones skipped, each cut at
    its first [=]. *)
Definition parse (s : string) : query :=
  flat_map
    (fun piece =>
       match piece with
       | EmptyString => []
       | _ =>
           let (n, v) := cut "=" piece in
           [(decode n,
             match v with
             | Some v' => decode v'
             | None => EmptyString
             end)]
       end)
    (split "&" s).

End Form.

(** ** Strings with code units above 255

    A JavaScript string is a sequence of 16-bit code units, of which the
    embedding keeps those below 256.  [URLSearchParams] takes its arguments
    as USVStrings: a surrogate code unit that is not part of a pair is
    replaced by U+FFFD before the entry is stored, and the serialiser
    writes the UTF-8 bytes of the scalar values.  The functions below are
    [url.searchParams.set(k, String(v))] on a query without entries and
    [url.toString()] after the question mark, on strings of 16-bit code
    units. *)
Module Wide.

Definition wstring := list Z.

Definition of_string (s : string) : wstring :=
  map (fun c => Z.of_nat (Str.code c)) (list_ascii_of_string s).

(** The surrogate code units: U+D800 to U+DBFF lead a pair, U+DC00 to
    U+DFFF trail one. *)
Definition is_lead (u : Z) : bool := (55296 <=? u) && (u <=? 56319).
Definition is_trail (u : Z) : bool := (56320 <=? u) && (u <=? 57343).

(** The scalar values of a string taken as a USVString: a pair of
    surrogates is one scalar value, a surrogate outside a pair is U+FFFD
    (65533). *)
Fixpoint scalar_values (s : wstring) : list Z :=
  match s with
  | [] => []
  | u :: s' =>
      if is_lead u then
        match s' with
        | t :: s'' =>
            if is_trail t
            then (65536 + (u - 55296) * 1024 + (t - 56320)) :: scalar_values s''
            else 65533 :: scalar_values s'
        | [] => [65533]
        end
      else if is_trail u then 65533 :: scalar_values s'
      else u :: scalar_values s'
  end.

Definition byte (n : Z) : ascii := ascii_of_nat (Z.to_nat n).

(** The UTF-8 bytes of a scalar value. *)
Definition utf8_scalar (c : Z) : string :=
  if c <? 128 then String (byte c) EmptyString
  else if c <? 2048 then
    String (byte (192 + c / 64)) (String (byte (128 + c mod 64)) EmptyString)
  else if c <? 65536 then
    String (byte (224 + c / 4096))
      (String (byte (128 + (c / 64) mod 64))
         (String (byte (128 + c mod 64)) EmptyString))
  else
    String (byte (240 + c / 262144))
      (String (byte (128 + (c / 4096) mod 64))
         (String (byte (128 + (c / 64) mod 64))
            (String (byte (128 + c mod 64)) EmptyString))).

Fixpoint utf8_encode (l : list Z) : string :=
  match l with
  | [] => EmptyString
  | c :: l' => utf8_scalar c ++ utf8_encode l'
  end.

Definition encode (l : list Z) : string := Form.percent_encode (utf8_encode l).

(** [q.set(k, v)] on a query without entries: the one entry, its name and
    value converted to scalar values. *)
Definition set (k v : wstring) : list (list Z * list Z) :=
  [(scalar_values k, scalar_values v)].

Definition pair_text (kv : list Z * list Z) : string :=
  encode (fst kv) ++ "=" ++ encode (snd kv).

Definition serialize (q : list (list Z * list Z)) : string :=
  Str.join "&" (map pair_text q).

End Wide.

(** A [URL] object: the address before the query, kept as written, and its
    [searchParams]. *)
Record URL : Type := { href : string; searchParams : query }.

(** [new URL(s)]: the fragment after [#] is dropped (it is never sent), and
    what follows the first [?] is the query.  The path itself is kept as
    written. *)
Definition new_URL (s : string) : URL :=
  let (address, query_) := Form.cut "?" (fst (Form.cut "#" s)) in
  {| href := address;
     searchParams := match query_ with
                     | Some text_ => Form.parse text_
                     | None => []
                     end |}.

(** [url.toString()] *)
Definition URL_toString (url : URL) : string :=
  match searchParams url with
  | [] => href url
  | q => href url ++ "?" ++ Form.serialize q
  end.

(** The argument of one [fetch] call. *)
Record request : Type := {
  rq_url : string;
  rq_method : string;
  rq_headers : list (string * string);
  rq_body : option string
}.

(** The query a server reads off the URL of a request. *)
Definition query_of (rq : request) : query := searchParams (new_URL (rq_url rq)).

(** A [Response]: [fetch] resolves with it once the status line and the
    headers are in; the body is read afterwards ([text()], [json()]) and
    needs [body_ms] more milliseconds.  The reading gives [body_text], or,
    when the connection breaks before the end of the body, rejects with
    [body_failure]. *)
Record response : Type := {
  status : Z;
  statusText : string;
  body_ms : Z;
  body_text : string;
  body_failure : option js_error
}.

(** [res.ok] *)
Definition ok (res : response) : bool :=
  (200 <=? status res) && (status res <=? 299).

(** What the remote side does with one request: after [fetch_ms]
    milliseconds the call to [fetch] either rejects (a transport failure) or
    resolves with a response. *)
Record exchange : Type := {
  fetch_ms : Z;
  fetch_outcome : js_error + response
}.

Definition remote := request -> exchange.

(** The operations a handler waits for. *)
Inductive effect : Type -> Type :=
| SetAbortTimer (ms : Z) : effect unit
    (* const controller = new AbortController();
       setTimeout(() => controller.abort(), ms) *)
| ClearAbortTimer : effect unit
    (* clearTimeout(timeoutHandle) *)
| FetchE (rq : request) : effect (js_error + response)
    (* fetch(url, { ..., signal: controller.signal }) *)
| TextE (res : response) : effect (js_error + string)
    (* res.text() *)
| JsonE (res : response) : effect (js_error + value).
    (* res.json() *)

(** An [async] function body: it returns, throws, or waits for an
    operation and goes on with its outcome. *)
Inductive prog (A : Type) : Type :=
| Ret (a : A)
| Throw (e : js_error)
| Vis (X : Type) (e : effect X) (k : X -> prog A).

Arguments Ret {A} a.
Arguments Throw {A} e.
Arguments Vis {A X} e k.

Fixpoint bind {A B : Type} (m : prog A) (f : A -> prog B) : prog B :=
  match m with
  | Ret a => f a
  | Throw e => Throw e
  | Vis e k => Vis e (fun x => bind (k x) f)
  end.

Declare Scope prog_scope.
Delimit Scope prog_scope with prog.
Notation "x <- m ;; k" := (bind m (fun x => k))
  (at level 61, m at next level, right associativity) : prog_scope.
Notation "m ;;; k" := (bind m (fun _ => k))
  (at level 61, right associativity) : prog_scope.
Local Open Scope prog_scope.

(** A chain of builder calls, read left to right as in the source. *)
Notation "x |> f" := (f x) (at level 45, left associativity, only parsing).

(** [await p] for an operation that may reject. *)
Definition await {A : Type} (e : effect (js_error + A)) : prog A :=
  Vis e (fun r => match r with
                  | inl err => Throw err
                  | inr a => Ret a
                  end).

Definition perform (e : effect unit) : prog unit := Vis e (fun _ => Ret tt).

(** [try { m } catch (error) { h error }] *)
Fixpoint try_catch {A : Type} (m : prog A) (h : js_error -> prog A) : prog A :=
  match m with
  | Ret a => Ret a
  | Throw e => h e
  | Vis e k => Vis e (fun x => try_catch (k x) h)
  end.

(** [try { m } finally { f }] *)
Fixpoint try_finally {A : Type} (m : prog A) (f : prog unit) : prog A :=
  match m with
  | Ret a => f ;;; Ret a
  | Throw e => f ;;; Throw e
  | Vis e k => Vis e (fun x => try_finally (k x) f)
  end.

(** [v.k], which throws when [v] is [null] or [undefined]. *)
Definition get (v : value) (k : string) : prog value :=
  if Js.nullish v then Throw (TypeError_read v k) else Ret (Js.get_opt v k).

(** The state of the event loop around one tool call: the time, the
    deadline of the abort timer when one is armed, and the requests sent. *)
Record runtime : Type := {
  clock : Z;
  abort_at : option Z;
  outbound : list request
}.

Definition boot : runtime :=
  {| clock := 0; abort_at := None; outbound := [] |}.

(** The largest delay of a timer, [2 ** 31 - 1]. *)
Definition TIMEOUT_MAX : Z := 2147483647.

(** The delay [setTimeout(f, ms)] sets: a delay below 1 or above
    [TIMEOUT_MAX] is set to 1. *)
Definition setTimeout_delay (ms : Z) : Z :=
  if (1 <=? ms) && (ms <=? TIMEOUT_MAX) then ms else 1.

(** The timer fires before an operation finishing at [finish] does. *)
Definition fires (s : runtime) (finish : Z) : bool :=
  match abort_at s with
  | Some deadline => deadline <? finish
  | None => false
  end.

Definition deadline_of (s : runtime) : Z :=
  match abort_at s with
  | Some deadline => deadline
  | None => clock s
  end.

Definition at_time (s : runtime) (t : Z) : runtime :=
  {| clock := t; abort_at := abort_at s; outbound := outbound s |}.

(** ** Tool results *)

Record content_block : Type := {
  type : string;
  text : option string   (* [None]: the property holds [undefined] *)
}.

(** [{ content: [...], isError?: true }]; an absent [isError] is [false]. *)
Record ToolResult : Type := {
  content : list content_block;
  isError : bool
}.

(** ** Parameter schemas *)

(** The constraint descriptors the tools declare with the validation
    library's builders ([z.string()], [.min(1)], [.optional()], ...);
    [.describe(...)] only attaches documentation and is left out. *)
Inductive schema : Type :=
| z_string_ (min max : option nat)
| z_number_ (min max : option Z)
| z_boolean
| z_enum (options : list string)
| z_array (item : schema)
| z_object (shape : list (string * schema))
| z_default (d : value) (inner : schema)
| z_optional (inner : schema).

Module z.

Definition string : schema := z_string_ None None.
Definition number : schema := z_number_ None None.
Definition boolean : schema := z_boolean.
Definition enum (options : list String.string) : schema := z_enum options.
Definition array (item : schema) : schema := z_array item.
Definition object (shape : list (String.string * schema)) : schema :=
  z_object shape.

(** [s.min(n)] *)
Definition min (n : Z) (s : schema) : schema :=
  match s with
  | z_string_ _ mx => z_string_ (Some (Z.to_nat n)) mx
  | z_number_ _ mx => z_number_ (Some n) mx
  | _ => s
  end.

(** [s.max(n)] *)
Definition max (n : Z) (s : schema) : schema :=
  match s with
  | z_string_ mn _ => z_string_ mn (Some (Z.to_nat n))
  | z_number_ mn _ => z_number_ mn (Some n)
  | _ => s
  end.

(** [s.default(d)] *)
Definition default (d : value) (s : schema) : schema := z_default d s.

(** [s.optional()] *)
Definition optional (s : schema) : schema := z_optional s.

End z.

Definition above {A : Type} (leb : A -> A -> bool) (bound : option A) (x : A) : bool :=
  match bound with
  | Some b => leb b x
  | None => true
  end.

Definition below {A : Type} (leb : A -> A -> bool) (bound : option A) (x : A) : bool :=
  match bound with
  | Some b => leb x b
  | None => true
  end.

Fixpoint all_some {A : Type} (l : list (option A)) : option (list A) :=
  match l with
  | [] => Some []
  | Some a :: l' => option_map (cons a) (all_some l')
  | None :: _ => None
  end.

(** Modelled from the spec: the validation of an object, part of [validate]
    below.  The declared parameters are validated one by one with [val]; a
    parameter whose validated value is [undefined] is left out of the
    result, and an undeclared one is never copied (section 4.3: only
    declared parameters are forwarded). *)
Definition validate_members (val : schema -> value -> option value)
           (fields : object) : list (string * schema) -> option object :=
  fix members (sh : list (string * schema)) : option object :=
    match sh with
    | [] => Some []
    | (k, sk) :: sh' =>
        match val sk (Js.lookup fields k), members sh' with
        | Some JUndefined, Some rest => Some rest
        | Some x, Some rest => Some ((k, x) :: rest)
        | _, _ => None
        end
    end.

(** Modelled from the spec: the routine of the validation library that
    interprets a constraint descriptor (the library is a dependency and not
    part of the sources).  Section 4.3: a parameter is checked against its
    kind and bounds; an optional parameter may be left out; a parameter
    with a default takes the default when it is left out; only declared
    parameters are forwarded.  [None] is a rejection. *)
Fixpoint validate (s : schema) (v : value) : option value :=
  match s with
  | z_string_ mn mx =>
      match v with
      | JStr t =>
          if above Nat.leb mn (String.length t) && below Nat.leb mx (String.length t)
          then Some v else None
      | _ => None
      end
  | z_number_ mn mx =>
      match v with
      | JNum n => if above Z.leb mn n && below Z.leb mx n then Some v else None
      | _ => None
      end
  | z_boolean =>
      match v with
      | JBool _ => Some v
      | _ => None
      end
  | z_enum options =>
      match v with
      | JStr t => if existsb (String.eqb t) options then Some v else None
      | _ => None
      end
  | z_array item =>
      match v with
      | JArr items => option_map JArr (all_some (map (validate item) items))
      | _ => None
      end
  | z_object shape =>
      match v with
      | JObj fields =>
          option_map JObj (validate_members validate fields shape)
      | _ => None
      end
  | z_default d inner =>
      match v with
      | JUndefined => Some d
      | _ => validate inner v
      end
  | z_optional inner =>
      match v with
      | JUndefined =>
          match validate inner JUndefined with
          | Some d => Some d
          | None => Some JUndefined
          end
      | _ => validate inner v
      end
  end.

(** ** The Authorization pattern of the redactor *)

Module AuthPattern.

(** The class of the two quote characters, double and single. *)
Definition is_quote (c : ascii) : bool :=
  ((Str.code c =? 34) || (Str.code c =? 39))%nat.

(** The negated class of the value: any character but a quote, a comma,
    white space and a closing brace. *)
Definition is_value_char (c : ascii) : bool :=
  negb (is_quote c || (Str.code c =? 44)%nat || Str.is_space c
        || (Str.code c =? 125)%nat).

Fixpoint startsWith_ci (p s : string) : bool :=
  match p, s with
  | EmptyString, _ => true
  | String a p', String b s' => Str.eq_ci a b && startsWith_ci p' s'
  | String _ _, EmptyString => false
  end.

(** Length of the longest prefix of [s] made of characters in [f]: a
    greedy [f*]. *)
Fixpoint span (f : ascii -> bool) (s : string) : nat :=
  match s with
  | EmptyString => O
  | String c s' => if f c then S (span f s') else O
  end.

(** A greedy optional quote. *)
Definition opt_quote (s : string) : nat :=
  match s with
  | String c _ => if is_quote c then 1%nat else 0%nat
  | EmptyString => 0%nat
  end.

(** A match of the pattern anchored at the start of [s]: group 1 is
    Authorization in any case, an optional quote, white space, a colon,
    white space and an optional quote; the value is one or more value
    characters.  The result holds the lengths of group 1 and of the value.
    No quantifier of the pattern can give back a character to a later
    part (a quote is neither white space nor a colon, white space is not
    a value character), so the greedy choice is the only match. *)
Definition match_at (s : string) : option (nat * nat) :=
  if startsWith_ci "authorization" s then
    let s1 := Str.drop 13 s in
    let q1 := opt_quote s1 in
    let s2 := Str.drop q1 s1 in
    let w1 := span Str.is_space s2 in
    match Str.drop w1 s2 with
    | String c s4 =>
        if (Str.code c =? 58)%nat then
          let w2 := span Str.is_space s4 in
          let s5 := Str.drop w2 s4 in
          let q2 := opt_quote s5 in
          let n := span is_value_char (Str.drop q2 s5) in
          if (n =? 0)%nat then None
          else Some ((13 + q1 + w1 + 1 + w2 + q2)%nat, n)
        else None
    | EmptyString => None
    end
  else None.

(** The replacement under the flags [g] and [i], each match becoming
    group 1 followed by the placeholder: the matches are taken left
    to right without overlap; [skip] counts the characters of the last
    match still to be passed over. *)
Fixpoint replace_from (skip : nat) (s : string) : string :=
  match s with
  | EmptyString => EmptyString
  | String c s' =>
      match skip with
      | S k => replace_from k s'
      | O =>
          match match_at s with
          | Some (g, n) =>
              Str.take g s ++ "***REDACTED***" ++ replace_from (g + n - 1) s'
          | None => String c (replace_from 0 s')
          end
      end
  end.

Definition replace (s : string) : string := replace_from 0 s.

(** The pattern matches somewhere in [s]. *)
Fixpoint has_match (s : string) : bool :=
  match match_at s with
  | Some _ => true
  | None =>
      match s with
      | EmptyString => false
      | String _ s' => has_match s'
      end
  end.

(** The word Authorization occurs in [s], in any case. *)
Fixpoint mentions (s : string) : bool :=
  if startsWith_ci "authorization" s then true
  else match s with
       | EmptyString => false
       | String _ s' => mentions s'
       end.

End AuthPattern.

(** ** A reference JSON parser

    [JSON.parse] belongs to the engine and is a parameter of the server
    below.  This parser instantiates it on concrete bodies: it reads the
    JSON texts whose numbers are integers written without fraction or
    exponent and whose escapes stay below code unit 256, and reports
    anything else as a syntax error. *)

Module RefJSON.

Definition is_ws (c : ascii) : bool :=
  let n := Str.code c in
  ((n =? 9) || (n =? 10) || (n =? 13) || (n =? 32))%nat.

Fixpoint skip_ws (s : string) : string :=
  match s with
  | EmptyString => EmptyString
  | String c s' => if is_ws c then skip_ws s' else s
  end.

Definition is_digit (c : ascii) : bool :=
  ((48 <=? Str.code c) && (Str.code c <=? 57))%nat.

Definition hex_value (c : ascii) : option nat :=
  let n := Str.code c in
  if ((48 <=? n) && (n <=? 57))%nat then Some (n - 48)%nat
  else if ((97 <=? n) && (n <=? 102))%nat then Some (n - 87)%nat
  else if ((65 <=? n) && (n <=? 70))%nat then Some (n - 55)%nat
  else None.

Fixpoint digits (acc : Z) (s : string) : Z * string :=
  match s with
  | EmptyString => (acc, s)
  | String c s' =>
      if is_digit c then digits (10 * acc + Z.of_nat (Str.code c - 48)) s'
      else (acc, s)
  end.

(** An integer literal: an optional minus sign, then 0 or a non-zero
    digit followed by digits. *)
Definition integer (s : string) : option (Z * string) :=
  let (neg, s0) :=
    match s with
    | String c s' => if (Str.code c =? 45)%nat then (true, s') else (false, s)
    | EmptyString => (false, s)
    end in
  match s0 with
  | String c s' =>
      if is_digit c then
        let (n, rest) :=
          if (Str.code c =? 48)%nat then (0, s') else digits 0 s0 in
        match rest with
        | String d _ =>
            if is_digit d || (Str.code d =? 46)%nat
               || (Str.code d =? 101)%nat || (Str.code d =? 69)%nat
            then None
            else Some (if neg then - n else n, rest)
        | EmptyString => Some (if neg then - n else n, rest)
        end
      else None
  | EmptyString => None
  end.

(** The characters of a string literal after its opening quote. *)
Fixpoint chars (s : string) : option (string * string) :=
  match s with
  | EmptyString => None
  | String c s' =>
      let n := Str.code c in
      if (n =? 34)%nat then Some (EmptyString, s')
      else if (n <? 32)%nat then None
      else if (n =? 92)%nat then
        match s' with
        | String e s2 =>
            let m := Str.code e in
            let simple (x : nat) :=
              match chars s2 with
              | Some (t, rest) => Some (String (ascii_of_nat x) t, rest)
              | None => None
              end in
            if (m =? 34)%nat then simple 34%nat
            else if (m =? 92)%nat then simple 92%nat
            else if (m =? 47)%nat then simple 47%nat
            else if (m =? 98)%nat then simple 8%nat
            else if (m =? 102)%nat then simple 12%nat
            else if (m =? 110)%nat then simple 10%nat
            else if (m =? 114)%nat then simple 13%nat
            else if (m =? 116)%nat then simple 9%nat
            else if (m =? 117)%nat then
              match s2 with
              | String h1 (String h2 (String h3 (String h4 s3))) =>
                  match hex_value h1, hex_value h2, hex_value h3, hex_value h4,
                        chars s3 with
                  | Some O, Some O, Some a, Some b, Some (t, rest) =>
                      Some (String (ascii_of_nat (16 * a + b)) t, rest)
                  | _, _, _, _, _ => None
                  end
              | _ => None
              end
            else None
        | EmptyString => None
        end
      else
        match chars s' with
        | Some (t, rest) => Some (String c t, rest)
        | None => None
        end
  end.

(** A later member with the same name replaces the value in place. *)
Fixpoint put (fields : object) (k : string) (v : value) : object :=
  match fields with
  | [] => [(k, v)]
  | (k', v') :: rest =>
      if String.eqb k' k then (k, v) :: rest else (k', v') :: put rest k v
  end.

Definition expect (c : nat) (s : string) : option string :=
  match s with
  | String d s' => if (Str.code d =? c)%nat then Some s' else None
  | EmptyString => None
  end.

Fixpoint element (fuel : nat) (s : string) : option (value * string) :=
  match fuel with
  | O => None
  | S fuel' =>
      if Str.startsWith "null" s then Some (JNull, Str.drop 4 s)
      else if Str.startsWith "true" s then Some (JBool true, Str.drop 4 s)
      else if Str.startsWith "false" s then Some (JBool false, Str.drop 5 s)
      else
        match s with
        | EmptyString => None
        | String c s' =>
            let n := Str.code c in
            if (n =? 34)%nat then
              match chars s' with
              | Some (t, rest) => Some (JStr t, rest)
              | None => None
              end
            else if (n =? 91)%nat then
              match skip_ws s' with
              | String d rest =>
                  if (Str.code d =? 93)%nat then Some (JArr [], rest)
                  else
                    match elements fuel' (skip_ws s') with
                    | Some (items, rest') => Some (JArr items, rest')
                    | None => None
                    end
              | EmptyString => None
              end
            else if (n =? 123)%nat then
              match skip_ws s' with
              | String d rest =>
                  if (Str.code d =? 125)%nat then Some (JObj [], rest)
                  else
                    match members fuel' [] (skip_ws s') with
                    | Some (fields, rest') => Some (JObj fields, rest')
                    | None => None
                    end
              | EmptyString => None
              end
            else
              match integer s with
              | Some (z, rest) => Some (JNum z, rest)
              | None => None
              end
        end
  end

with elements (fuel : nat) (s : string) : option (list value * string) :=
  match fuel with
  | O => None
  | S fuel' =>
      match element fuel' s with
      | Some (v, rest) =>
          match skip_ws rest with
          | String d rest' =>
              if (Str.code d =? 93)%nat then Some ([v], rest')
              else if (Str.code d =? 44)%nat then
                match elements fuel' (skip_ws rest') with
                | Some (vs, rest2) => Some (v :: vs, rest2)
                | None => None
                end
              else None
          | EmptyString => None
          end
      | None => None
      end
  end

with members (fuel : nat) (acc : object) (s : string)
  : option (object * string) :=
  match fuel with
  | O => None
  | S fuel' =>
      match expect 34 s with
      | Some s1 =>
          match chars s1 with
          | Some (k, s2) =>
              match expect 58 (skip_ws s2) with
              | Some s3 =>
                  match element fuel' (skip_ws s3) with
                  | Some (v, rest) =>
                      match skip_ws rest with
                      | String d rest' =>
                          if (Str.code d =? 125)%nat
                          then Some (put acc k v, rest')
                          else if (Str.code d =? 44)%nat
                          then members fuel' (put acc k v) (skip_ws rest')
                          else None
                      | EmptyString => None
                      end
                  | None => None
                  end
              | None => None
              end
          | None => None
          end
      | None => None
      end
  end.

Definition parse (s : string) : parse_result :=
  match element (S (2 * String.length s)) (skip_ws s) with
  | Some (v, rest) =>
      match skip_ws rest with
      | EmptyString => Parsed v
      | String _ _ => SyntaxError "Unexpected non-whitespace character after JSON"
      end
  | None => SyntaxError "Unexpected token in JSON"
  end.

End RefJSON.

(** ** Start-up

    The configuration is read from the environment before anything else; a
    variable that is not set is [None]. *)

Module Startup.

Definition is_digit (c : ascii) : bool :=
  ((48 <=? Str.code c) && (Str.code c <=? 57))%nat.

(** [s.trimStart()] *)
Fixpoint trimStart (s : string) : string :=
  match s with
  | EmptyString => EmptyString
  | String c s' => if Str.is_space c then trimStart s' else s
  end.

(** The sign [parseInt] reads, and the text after it. *)
Definition sign (s : string) : Z * string :=
  match s with
  | String c s' =>
      if (Str.code c =? 45)%nat then (-1, s')
      else if (Str.code c =? 43)%nat then (1, s')
      else (1, s)
  | EmptyString => (1, s)
  end.

(** The number value of a natural number [m]: the double nearest to it, a
    tie going to the even significand, or [None] when that is an infinity.
    Below 2^53 every integer is a double; from there on the doubles are the
    multiples of a power of two with a significand of 53 bits, and the
    largest is below 2^1024. *)
Definition to_double (m : Z) : option Z :=
  if m <? 2 ^ 53 then Some m
  else
    let e := Z.log2 m - 52 in
    let q := m / 2 ^ e in
    let r := m mod 2 ^ e in
    let half := 2 ^ (e - 1) in
    let q' := if (half <? r) || ((r =? half) && Z.odd q) then q + 1 else q in
    if q' * 2 ^ e <? 2 ^ 1024 then Some (q' * 2 ^ e) else None.

(** [Number.parseInt(s, 10)]: leading white space is skipped, a sign is
    read, and the longest run of decimal digits that follows is the value,
    as a double; whatever comes after the digits is ignored.  Without a
    digit the result is [NaN], and digits beyond the range of the doubles
    give an infinity: the code tests the result with [Number.isFinite]
    only, and both are [None] here. *)
Definition parseInt (s : string) : option Z :=
  let (sg, s1) := sign (trimStart s) in
  let digits := Str.take (AuthPattern.span is_digit s1) s1 in
  match digits with
  | EmptyString => None
  | _ =>
      match NilEmpty.uint_of_string digits with
      | Some d =>
          match to_double (Z.of_uint d) with
          | Some x => Some (sg * x)
          | None => None
          end
      | None => None
      end
  end.

(** The outcome of the first lines of the module: [process.exit(1)] after
    a diagnostic on the error stream, or the two constants. *)
Inductive outcome : Type :=
| Exit (diagnostic : string)
| Configured (API_KEY : string) (HTTP_TIMEOUT_MS : Z).

(** [const API_KEY = process.env.QUO_API_KEY], [const HTTP_TIMEOUT_MS =
    Number.parseInt(process.env.QUO_HTTP_TIMEOUT_MS ?? "30000", 10)] and
    the two guards that follow, in their order. *)
Definition startup (QUO_API_KEY QUO_HTTP_TIMEOUT_MS : option string) : outcome :=
  let HTTP_TIMEOUT_MS :=
    parseInt (match QUO_HTTP_TIMEOUT_MS with
              | Some s => s
              | None => "30000"
              end) in
  match QUO_API_KEY with
  | None => Exit "QUO_API_KEY environment variable is required"
  | Some API_KEY =>
      if String.eqb API_KEY EmptyString
      then Exit "QUO_API_KEY environment variable is required"
      else
        match HTTP_TIMEOUT_MS with
        | None => Exit "QUO_HTTP_TIMEOUT_MS must be a number >= 1000"
        | Some ms =>
            if ms <? 1000
            then Exit "QUO_HTTP_TIMEOUT_MS must be a number >= 1000"
            else Configured API_KEY ms
        end
  end.

End Startup.

(** ** An example configuration

    A key, a timeout and remote sides on which the properties below are
    instantiated. *)

Definition example_key : string := "sk_live_123".

Definition example_timeout : Z := 30000.

(** The remote side that answers every request with [res] after [ms]
    milliseconds. *)
Definition responding (ms : Z) (res : response) : remote :=
  fun _ => {| fetch_ms := ms; fetch_outcome := inr res |}.

(** The remote side on which every call to [fetch] rejects with [err] after
    [ms] milliseconds. *)
Definition rejecting (ms : Z) (err : js_error) : remote :=
  fun _ => {| fetch_ms := ms; fetch_outcome := inl err |}.

(** A JSON object text with string members, written without quote
    characters in the literals. *)
Definition member (k v : string) : string :=
  Str.dq ++ k ++ Str.dq ++ ":" ++ Str.dq ++ v ++ Str.dq.

Definition braces (members : list string) : string :=
  "{" ++ Str.join "," members ++ "}".

(** ** The server *)

Definition BASE_URL : string := "https://api.openphone.com/v1".

(** The options of [quoFetch(path, { method = "GET", body, params } = {})]. *)
Record options : Type := {
  method : string;
  body : value;
  params : value
}.

Definition GET : options :=
  {| method := "GET"; body := JUndefined; params := JUndefined |}.

(** [Object.entries(params)] of an object built by a literal. *)
Definition entries (params : value) : object :=
  match params with
  | JObj fields => fields
  | _ => []
  end.

(** One turn of the loop over [Object.entries(params)]. *)
Definition add_param (q : query) (entry : string * value) : query :=
  let (k, v) := entry in
  if negb (Js.nullish v) then
    match v with
    | JArr items =>
        fold_left (fun q' item => URLSearchParams.append q' k (Js.String_ item))
                  items q
    | _ => URLSearchParams.set q k (Js.String_ v)
    end
  else q.

(** The URL [quoFetch] builds from its path and [params]. *)
Definition build_url (path : string) (params : value) : URL :=
  let url := new_URL (BASE_URL ++ path) in
  if Js.truthy params
  then {| href := href url;
          searchParams := fold_left add_param (entries params) (searchParams url) |}
  else url.

Definition text_block (t : option string) : content_block :=
  {| type := "text"; text := t |}.

Definition jsonToolResponse (payload : value) (isError_ : bool) : ToolResult :=
  {| content := [text_block (JSON.stringify_2 payload)];
     isError := isError_ |}.

(** The string a property holds when it is a string that [trim] does not
    empty: [typeof v === "string" && v.trim()]. *)
Definition nonblank (v : value) : option string :=
  match v with
  | JStr s => if Str.trim_nonempty s then Some s else None
  | _ => None
  end.

Section Server.

(** The configuration read at start-up, and the engine's [JSON.parse].
    The process exits unless the key is non-empty and the timeout is at
    least 1000. *)
Variable API_KEY : string.
Variable HTTP_TIMEOUT_MS : Z.
Variable JSON_parse : string -> parse_result.

(** The two [replace] calls of [redactSecrets]: the key, given as a string
    pattern, then the Authorization pattern with the flags [g] and [i]. *)
Definition redact_text (text_ : string) : string :=
  AuthPattern.replace (Str.replace API_KEY "***REDACTED_API_KEY***" text_).

(** [undefined] and [null] are returned as they are; a string is redacted;
    any other value is redacted in its compact JSON text.  [JSON.stringify]
    neither throws nor returns [undefined] on the values of this model, so
    the fallback to [String(value)] of the [catch] clause is never taken. *)
Definition redactSecrets (v : value) : value :=
  match v with
  | JUndefined | JNull => v
  | JStr s => JStr (redact_text s)
  | _ =>
      match JSON.stringify v with
      | Some t => JStr (redact_text t)
      | None => JStr (redact_text (Js.String_ v))
      end
  end.

(** [!rawBody] holds for the empty string only; a [SyntaxError] of
    [JSON.parse] is caught and gives the raw body. *)
Definition extractErrorMessage (rawBody : string) : string :=
  if String.eqb rawBody EmptyString then "No response body"
  else
    match JSON_parse rawBody with
    | Parsed parsed =>
        match nonblank (Js.get_opt parsed "message") with
        | Some m => m
        | None =>
            match nonblank (Js.get_opt (Js.get_opt parsed "error") "message") with
            | Some m => m
            | None =>
                match nonblank (Js.get_opt parsed "error") with
                | Some m => m
                | None => rawBody
                end
            end
        end
    | SyntaxError _ => rawBody
    end.

(** *** The runtime *)

(** One operation.  Arming the timer sets its deadline, after the delay
    [setTimeout] makes of the argument; a call to [fetch] is logged, and it
    or the reading of a body that would finish after the deadline of an
    armed timer is aborted at the deadline and rejects with an
    [AbortError]; otherwise the time passes and the operation settles with
    what the remote side sent: the reading of a body rejects with the
    failure of the connection when there is one, and [json()] rejects with
    the [SyntaxError] of [JSON.parse] when the text does not parse. *)
Definition step {X : Type} (w : remote) (e : effect X) (s : runtime)
  : runtime * X :=
  match e in effect T return runtime * T with
  | SetAbortTimer ms =>
      ({| clock := clock s; abort_at := Some (clock s + setTimeout_delay ms);
          outbound := outbound s |}, tt)
  | ClearAbortTimer =>
      ({| clock := clock s; abort_at := None; outbound := outbound s |}, tt)
  | FetchE rq =>
      let s1 := {| clock := clock s; abort_at := abort_at s;
                   outbound := (outbound s ++ [rq])%list |} in
      let finish := clock s + fetch_ms (w rq) in
      if fires s finish then (at_time s1 (deadline_of s), inl AbortError)
      else (at_time s1 finish, fetch_outcome (w rq))
  | TextE res =>
      let finish := clock s + body_ms res in
      if fires s finish then (at_time s (deadline_of s), inl AbortError)
      else (at_time s finish,
            match body_failure res with
            | Some failure => inl failure
            | None => inr (body_text res)
            end)
  | JsonE res =>
      let finish := clock s + body_ms res in
      if fires s finish then (at_time s (deadline_of s), inl AbortError)
      else (at_time s finish,
            match body_failure res with
            | Some failure => inl failure
            | None =>
                match JSON_parse (body_text res) with
                | Parsed v => inr v
                | SyntaxError msg =>
                    inl {| name := "SyntaxError"; message := msg |}
                end
            end)
  end.

(** Running a program to its end against a remote side. *)
Fixpoint run {A : Type} (w : remote) (m : prog A) (s : runtime)
  : runtime * (js_error + A) :=
  match m with
  | Ret a => (s, inr a)
  | Throw e => (s, inl e)
  | Vis e k => let (s', x) := step w e s in run w (k x) s'
  end.

(** *** The HTTP gateway *)

Definition timeout_message : string :=
  "Quo API request timed out after " ++ Js.String_ (JNum HTTP_TIMEOUT_MS) ++ "ms".

(** The [catch (error)] clause of [quoFetch]. *)
Definition quoFetch_catch (error : js_error) : prog (value + response) :=
  if String.eqb (name error) "AbortError"
  then Throw (new_Error timeout_message)
  else Throw (new_Error (Js.String_ (redactSecrets (JStr (message error))))).

(** The [try] block of [quoFetch].  Its last statement returns the promise
    [res.json()] without awaiting it: the block is left with the promise
    ([inr res]), which settles outside the [try] statement. *)
Definition quoFetch_try (rq : request) : prog (value + response) :=
  res <- await (FetchE rq) ;;
  if negb (ok res) then
    text_ <- await (TextE res) ;;
    let detail := redactSecrets (JStr (extractErrorMessage text_)) in
    Throw (new_Error ("Quo API " ++ Js.String_ (JNum (status res)) ++ " "
                        ++ statusText res ++ ": " ++ Js.String_ detail))
  else if status res =? 204 then Ret (inl (JObj [("success", JBool true)]))
  else Ret (inr res).

(** The arguments [quoFetch] passes to [fetch]: the URL built from the
    path and [params], the method, the two headers and, for a truthy
    [body], its JSON text. *)
Definition request_of (path : string) (o : options) : request :=
  let url := build_url path (params o) in
  {| rq_url := URL_toString url;
     rq_method := method o;
     rq_headers := [("Authorization", API_KEY);
                    ("Content-Type", "application/json")];
     rq_body := if Js.truthy (body o) then JSON.stringify (body o)
                else None |}.

Definition quoFetch (path : string) (o : options) : prog value :=
  perform (SetAbortTimer HTTP_TIMEOUT_MS) ;;;
  returned <-
    try_finally
      (try_catch (quoFetch_try (request_of path o)) quoFetch_catch)
      (perform ClearAbortTimer) ;;
  match returned with
  | inl v => Ret v
  | inr res => await (JsonE res)
  end.

(** *** The tool handlers *)

(** [{ content: [{ type: "text", text }] }] *)
Definition success (t : option string) : ToolResult :=
  {| content := [text_block t]; isError := false |}.

Definition send_text (args : value) : prog ToolResult :=
  let to := Js.arg args "to" in
  let setInboxStatus := Js.arg args "setInboxStatus" in
  result <- quoFetch "/messages"
    {| method := "POST";
       body := JObj (Js.spread
                 [[("from", Js.arg args "from"); ("to", JArr [to]);
                   ("content", Js.arg args "content")];
                  Js.spread_if setInboxStatus "setInboxStatus" setInboxStatus]);
       params := JUndefined |} ;;
  data <- get result "data" ;;
  Ret (success (JSON.stringify_2 data)).

Definition list_messages (args : value) : prog ToolResult :=
  result <- quoFetch "/messages"
    {| method := "GET"; body := JUndefined;
       params := JObj [("phoneNumberId", Js.arg args "phoneNumberId");
                       ("participants", Js.arg args "participants");
                       ("maxResults", Js.arg args "maxResults");
                       ("createdAfter", Js.arg args "createdAfter");
                       ("createdBefore", Js.arg args "createdBefore");
                       ("pageToken", Js.arg args "pageToken")] |} ;;
  Ret (success (JSON.stringify_2 result)).

(** The handlers that fetch one resource by an identifier and return its
    [data]: [get_message], [get_contact], [get_call] and their siblings differ
    in the path and in the name of the identifier only. *)
Definition get_by (prefix id : string) (args : value) : prog ToolResult :=
  result <- quoFetch (prefix ++ Js.String_ (Js.arg args id)) GET ;;
  data <- get result "data" ;;
  Ret (success (JSON.stringify_2 data)).

Definition get_message := get_by "/messages/" "id".

Definition list_conversations (args : value) : prog ToolResult :=
  result <- quoFetch "/conversations"
    {| method := "GET"; body := JUndefined;
       params := JObj [("phoneNumbers", Js.arg args "phoneNumbers");
                       ("userId", Js.arg args "userId");
                       ("createdAfter", Js.arg args "createdAfter");
                       ("createdBefore", Js.arg args "createdBefore");
                       ("updatedAfter", Js.arg args "updatedAfter");
                       ("updatedBefore", Js.arg args "updatedBefore");
                       ("excludeInactive", Js.arg args "excludeInactive");
                       ("maxResults", Js.arg args "maxResults");
                       ("pageToken", Js.arg args "pageToken")] |} ;;
  Ret (success (JSON.stringify_2 result)).

Definition create_contact (args : value) : prog ToolResult :=
  let lastName := Js.arg args "lastName" in
  let company := Js.arg args "company" in
  let role := Js.arg args "role" in
  let phoneNumbers := Js.arg args "phoneNumbers" in
  let emails := Js.arg args "emails" in
  result <- quoFetch "/contacts"
    {| method := "POST";
       body := JObj [("defaultFields", JObj (Js.spread
                 [[("firstName", Js.arg args "firstName")];
                  Js.spread_if lastName "lastName" lastName;
                  Js.spread_if company "company" company;
                  Js.spread_if role "role" role;
                  Js.spread_if phoneNumbers "phoneNumbers" phoneNumbers;
                  Js.spread_if emails "emails" emails]))];
       params := JUndefined |} ;;
  data <- get result "data" ;;
  Ret (success (JSON.stringify_2 data)).

Definition list_contacts (args : value) : prog ToolResult :=
  result <- quoFetch "/contacts"
    {| method := "GET"; body := JUndefined;
       params := JObj [("maxResults", Js.arg args "maxResults");
                       ("pageToken", Js.arg args "pageToken");
                       ("externalIds", Js.arg args "externalIds")] |} ;;
  Ret (success (JSON.stringify_2 result)).

Definition get_contact := get_by "/contacts/" "id".

(** [if (v !== undefined) o.k = v] on an object that has no [k] yet. *)
Definition assign_defined (o : object) (k : string) (v : value) : object :=
  match v with
  | JUndefined => o
  | _ => (o ++ [(k, v)])%list
  end.

Definition update_contact_defaultFields (args : value) : object :=
  let defaultFields := [] in
  let defaultFields := assign_defined defaultFields "firstName" (Js.arg args "firstName") in
  let defaultFields := assign_defined defaultFields "lastName" (Js.arg args "lastName") in
  let defaultFields := assign_defined defaultFields "company" (Js.arg args "company") in
  let defaultFields := assign_defined defaultFields "role" (Js.arg args "role") in
  let defaultFields := assign_defined defaultFields "phoneNumbers" (Js.arg args "phoneNumbers") in
  assign_defined defaultFields "emails" (Js.arg args "emails").

Definition update_contact_no_fields : value :=
  JObj [("error", JObj
    [("message", JStr "No fields provided for update_contact");
     ("details", JStr "Pass at least one of: firstName, lastName, company, role, phoneNumbers, emails.")])].

Definition update_contact (args : value) : prog ToolResult :=
  let defaultFields := update_contact_defaultFields args in
  if (List.length defaultFields =? 0)%nat
  then Ret (jsonToolResponse update_contact_no_fields true)
  else
    result <- quoFetch ("/contacts/" ++ Js.String_ (Js.arg args "id"))
      {| method := "PATCH";
         body := JObj [("defaultFields", JObj defaultFields)];
         params := JUndefined |} ;;
    data <- get result "data" ;;
    Ret (success (JSON.stringify_2 data)).

Definition delete_contact (args : value) : prog ToolResult :=
  let id := Js.arg args "id" in
  quoFetch ("/contacts/" ++ Js.String_ id)
    {| method := "DELETE"; body := JUndefined; params := JUndefined |} ;;;
  Ret (success (Some ("Contact " ++ Js.String_ id ++ " deleted."))).

Definition list_calls (args : value) : prog ToolResult :=
  result <- quoFetch "/calls"
    {| method := "GET"; body := JUndefined;
       params := JObj [("phoneNumberId", Js.arg args "phoneNumberId");
                       ("participants", Js.arg args "participants");
                       ("maxResults", Js.arg args "maxResults");
                       ("createdAfter", Js.arg args "createdAfter");
                       ("createdBefore", Js.arg args "createdBefore");
                       ("pageToken", Js.arg args "pageToken")] |} ;;
  Ret (success (JSON.stringify_2 result)).

Definition get_call := get_by "/calls/" "callId".
Definition get_call_recordings := get_by "/call-recordings/" "callId".
Definition get_call_summary := get_by "/call-summaries/" "callId".
Definition get_call_transcription := get_by "/call-transcripts/" "callId".
Definition get_voicemail := get_by "/call-voicemails/" "callId".

Definition list_phone_numbers (args : value) : prog ToolResult :=
  let userId := Js.arg args "userId" in
  result <- quoFetch "/phone-numbers"
    {| method := "GET"; body := JUndefined;
       params := if Js.truthy userId then JObj [("userId", userId)]
                 else JObj [] |} ;;
  data <- get result "data" ;;
  Ret (success (JSON.stringify_2 data)).

Definition get_phone_number := get_by "/phone-numbers/" "phoneNumberId".

Definition list_users (args : value) : prog ToolResult :=
  result <- quoFetch "/users" GET ;;
  data <- get result "data" ;;
  Ret (success (JSON.stringify_2 data)).

Definition get_user := get_by "/users/" "userId".

Definition get_contact_custom_fields (args : value) : prog ToolResult :=
  result <- quoFetch "/contact-custom-fields" GET ;;
  data <- get result "data" ;;
  Ret (success (JSON.stringify_2 data)).

Definition list_webhooks (args : value) : prog ToolResult :=
  result <- quoFetch "/webhooks" GET ;;
  data <- get result "data" ;;
  Ret (success (JSON.stringify_2 data)).

(** *** The tool registry *)

Record tool : Type := {
  tool_name : string;
  inputSchema : list (string * schema);
  handler : value -> prog ToolResult
}.

Definition contact_entry_new : schema :=
  z.object [("name", z.string |> z.default (JStr "primary"));
            ("value", z.string)].

Definition contact_entry : schema :=
  z.object [("name", z.string); ("value", z.string);
            ("id", z.string |> z.optional)].

(** The calls of [server.tool(name, description, schema, handler)], in
    the order of the source. *)
Definition tools : list tool :=
  [ {| tool_name := "send_text";
       inputSchema :=
         [("from", z.string); ("to", z.string);
          ("content", z.string |> z.min 1 |> z.max 1600);
          ("setInboxStatus", z.enum ["done"] |> z.optional)];
       handler := send_text |};
    {| tool_name := "list_messages";
       inputSchema :=
         [("phoneNumberId", z.string);
          ("participants", z.array z.string);
          ("maxResults",
            z.number |> z.min 1 |> z.max 100 |> z.default (JNum 20) |> z.optional);
          ("createdAfter", z.string |> z.optional);
          ("createdBefore", z.string |> z.optional);
          ("pageToken", z.string |> z.optional)];
       handler := list_messages |};
    {| tool_name := "get_message";
       inputSchema := [("id", z.string)];
       handler := get_message |};
    {| tool_name := "list_conversations";
       inputSchema :=
         [("phoneNumbers", z.array z.string |> z.optional);
          ("userId", z.string |> z.optional);
          ("createdAfter", z.string |> z.optional);
          ("createdBefore", z.string |> z.optional);
          ("updatedAfter", z.string |> z.optional);
          ("updatedBefore", z.string |> z.optional);
          ("excludeInactive", z.boolean |> z.optional);
          ("maxResults",
            z.number |> z.min 1 |> z.max 100 |> z.default (JNum 20) |> z.optional);
          ("pageToken", z.string |> z.optional)];
       handler := list_conversations |};
    {| tool_name := "create_contact";
       inputSchema :=
         [("firstName", z.string);
          ("lastName", z.string |> z.optional);
          ("company", z.string |> z.optional);
          ("role", z.string |> z.optional);
          ("phoneNumbers", z.array contact_entry_new |> z.optional);
          ("emails", z.array contact_entry_new |> z.optional)];
       handler := create_contact |};
    {| tool_name := "list_contacts";
       inputSchema :=
         [("maxResults",
            z.number |> z.min 1 |> z.max 50 |> z.default (JNum 20) |> z.optional);
          ("pageToken", z.string |> z.optional);
          ("externalIds", z.array z.string |> z.optional)];
       handler := list_contacts |};
    {| tool_name := "get_contact";
       inputSchema := [("id", z.string)];
       handler := get_contact |};
    {| tool_name := "update_contact";
       inputSchema :=
         [("id", z.string);
          ("firstName", z.string |> z.optional);
          ("lastName", z.string |> z.optional);
          ("company", z.string |> z.optional);
          ("role", z.string |> z.optional);
          ("phoneNumbers", z.array contact_entry |> z.optional);
          ("emails", z.array contact_entry |> z.optional)];
       handler := update_contact |};
    {| tool_name := "delete_contact";
       inputSchema := [("id", z.string)];
       handler := delete_contact |};
    {| tool_name := "list_calls";
       inputSchema :=
         [("phoneNumberId", z.string);
          ("participants", z.array z.string);
          ("maxResults",
            z.number |> z.min 1 |> z.max 100 |> z.default (JNum 20) |> z.optional);
          ("createdAfter", z.string |> z.optional);
          ("createdBefore", z.string |> z.optional);
          ("pageToken", z.string |> z.optional)];
       handler := list_calls |};
    {| tool_name := "get_call";
       inputSchema := [("callId", z.string)];
       handler := get_call |};
    {| tool_name := "get_call_recordings";
       inputSchema := [("callId", z.string)];
       handler := get_call_recordings |};
    {| tool_name := "get_call_summary";
       inputSchema := [("callId", z.string)];
       handler := get_call_summary |};
    {| tool_name := "get_call_transcription";
       inputSchema := [("callId", z.string)];
       handler := get_call_transcription |};
    {| tool_name := "get_voicemail";
       inputSchema := [("callId", z.string)];
       handler := get_voicemail |};
    {| tool_name := "list_phone_numbers";
       inputSchema := [("userId", z.string |> z.optional)];
       handler := list_phone_numbers |};
    {| tool_name := "get_phone_number";
       inputSchema := [("phoneNumberId", z.string)];
       handler := get_phone_number |};
    {| tool_name := "list_users";
       inputSchema := [];
       handler := list_users |};
    {| tool_name := "get_user";
       inputSchema := [("userId", z.string)];
       handler := get_user |};
    {| tool_name := "get_contact_custom_fields";
       inputSchema := [];
       handler := get_contact_custom_fields |};
    {| tool_name := "list_webhooks";
       inputSchema := [];
       handler := list_webhooks |} ].

Definition find_tool (name_ : string) : option tool :=
  find (fun t => String.eqb (tool_name t) name_) tools.

(** The registered tool of a given name. *)
Definition tool_named (name_ : string) : tool :=
  match find_tool name_ with
  | Some t => t
  | None => {| tool_name := EmptyString; inputSchema := [];
               handler := fun _ => Throw AbortError |}
  end.

(** A failure reported as data: one text block and the error flag. *)
Definition error_result (msg : string) : ToolResult :=
  {| content := [text_block (Some msg)]; isError := true |}.

(** Modelled from the spec: the dispatch boundary of the protocol
    library, which is a dependency and not part of the sources.
    Section 4.4: an unknown name fails; the raw parameters are validated
    against the schema of the tool and a violation is returned as an
    error result without running the handler; a failure of the handler is
    caught and returned as an error result carrying its message. *)
Definition dispatch (name_ : string) (rawParams : value) : prog ToolResult :=
  match find_tool name_ with
  | None =>
      Throw {| name := "NotFoundError";
               message := "Tool " ++ name_ ++ " not found" |}
  | Some t =>
      match validate (z.object (inputSchema t)) rawParams with
      | None => Ret (error_result ("Invalid arguments for tool " ++ name_))
      | Some args =>
          try_catch (handler t args)
                    (fun error => Ret (error_result (message error)))
      end
  end.

(** *** Vocabulary of the properties *)

(** The schema of tool [t] declares a parameter named [k]. *)
Definition declares (t : tool) (k : string) : bool :=
  existsb (fun p => String.eqb (fst p) k) (inputSchema t).

(** The query entries one entry of [params] stands for. *)
Definition entry_pairs (entry : string * value) : query :=
  let (k, v) := entry in
  if Js.nullish v then []
  else match v with
       | JArr items => map (fun item => (k, Js.String_ item)) items
       | _ => [(k, Js.String_ v)]
       end.

(** The remote side answers every request with the response [res],
    [t] milliseconds after the call to [fetch]. *)
Definition answers (w : remote) (t : Z) (res : response) : Prop :=
  forall rq, w rq = {| fetch_ms := t; fetch_outcome := inr res |}.

(** What the promise of [res.json()] settles with, once the timer has
    been cleared: the failure of the reading, the parsed value, or the
    [SyntaxError] of the parser. *)
Definition json_outcome (res : response) : js_error + value :=
  match body_failure res with
  | Some failure => inl failure
  | None =>
      match JSON_parse (body_text res) with
      | Parsed v => inr v
      | SyntaxError msg => inl {| name := "SyntaxError"; message := msg |}
      end
  end.

(** The state in which [quoFetch] leaves the event loop at time [t]: the
    timer is cleared and the request is logged. *)
Definition after (s : runtime) (t : Z) (rq : request) : runtime :=
  {| clock := t; abort_at := None; outbound := (outbound s ++ [rq])%list |}.

Definition string_field (v : value) : option string :=
  match v with
  | JStr s => Some s
  | _ => None
  end.

(** The detail of an HTTP failure in the words of the specification: the
    top-level [message] string field, else the [error.message] string
    field, else the [error] string field, else the raw body text, and
    [No response body] for an empty body. *)
Definition claimed_detail (rawBody : string) : string :=
  if String.eqb rawBody EmptyString then "No response body"
  else
    match JSON_parse rawBody with
    | Parsed parsed =>
        match string_field (Js.get_opt parsed "message") with
        | Some m => m
        | None =>
            match string_field (Js.get_opt (Js.get_opt parsed "error") "message") with
            | Some m => m
            | None =>
                match string_field (Js.get_opt parsed "error") with
                | Some m => m
                | None => rawBody
                end
            end
        end
    | SyntaxError _ => rawBody
    end.

(** The message of an HTTP failure in the words of the specification:
    the status line, then the redacted detail. *)
Definition claimed_http_message (res : response) : string :=
  "Quo API " ++ Str.of_Z (status res) ++ " " ++ statusText res ++ ": "
    ++ redact_text (claimed_detail (body_text res)).

(** The largest page size of a tool, in the words of the specification:
    50 for contacts, 100 for messages, calls and conversations. *)
Definition page_size_bound (name_ : string) : Z :=
  if String.eqb name_ "list_contacts" then 50 else 100.

(** The tools the specification calls list tools. *)
Definition list_tools : list string :=
  ["list_messages"; "list_conversations"; "list_contacts"; "list_calls";
   "list_phone_numbers"; "list_users"; "list_webhooks"].

(** The tools whose handler returns [result.data]. *)
Definition unwrapping_tools : list string :=
  ["send_text"; "get_message"; "create_contact"; "get_contact";
   "update_contact"; "get_call"; "get_call_recordings"; "get_call_summary";
   "get_call_transcription"; "get_voicemail"; "list_phone_numbers";
   "get_phone_number"; "list_users"; "get_user";
   "get_contact_custom_fields"; "list_webhooks"].

(** ** Properties *)

Unset Implicit Arguments.

(** *** Running programs *)

Lemma run_bind (A B : Type) (w : remote) (m : prog A) (f : A -> prog B) (s : runtime) :
  run w (bind m f) s =
  match run w m s with
  | (s', inr a) => run w (f a) s'
  | (s', inl e) => (s', inl e)
  end.
Proof.
  revert s.
  induction m as [a | e | X e k IH]; intro s; simpl.
  - reflexivity.
  - reflexivity.
  - destruct (step w e s) as [s' x]. apply IH.
Qed.

Lemma ltb_shift (c a b : Z) : (c + a <? c + b) = (a <? b).
Proof.
  destruct (Z.ltb_spec a b); [apply Z.ltb_lt | apply Z.ltb_ge]; lia.
Qed.

(** On a timeout the start-up accepts and a timer can hold, the delay of
    the timer is the timeout; it is never longer than a timeout of 1 ms or
    more. *)
Lemma setTimeout_delay_in_range (ms : Z) :
  1 <= ms <= TIMEOUT_MAX -> setTimeout_delay ms = ms.
Proof.
  intros [Hlo Hhi]. unfold setTimeout_delay.
  apply Z.leb_le in Hlo. apply Z.leb_le in Hhi. rewrite Hlo, Hhi. reflexivity.
Qed.

Lemma setTimeout_delay_le (ms : Z) : 1 <= ms -> setTimeout_delay ms <= ms.
Proof.
  intro Hlo. unfold setTimeout_delay.
  destruct ((1 <=? ms) && (ms <=? TIMEOUT_MAX)); lia.
Qed.

Lemma setTimeout_delay_positive (ms : Z) : 1 <= setTimeout_delay ms.
Proof.
  unfold setTimeout_delay.
  destruct (Z.leb_spec 1 ms); cbn [andb]; [| lia].
  destruct (ms <=? TIMEOUT_MAX); lia.
Qed.

(** The call to [fetch] does not settle before the timer fires. *)
Lemma quoFetch_fetch_aborted (w : remote) (path : string) (o : options) (s : runtime) :
  setTimeout_delay HTTP_TIMEOUT_MS < fetch_ms (w (request_of path o)) ->
  run w (quoFetch path o) s =
  (after s (clock s + setTimeout_delay HTTP_TIMEOUT_MS) (request_of path o),
   inl (new_Error timeout_message)).
Proof.
  intro Hslow.
  unfold quoFetch. simpl.
  unfold fires. simpl. rewrite ltb_shift.
  apply Z.ltb_lt in Hslow. rewrite Hslow. simpl.
  reflexivity.
Qed.

(** The call to [fetch] rejects before the timer fires. *)
Lemma quoFetch_rejected (w : remote) (path : string) (o : options) (s : runtime)
      (err : js_error) :
  fetch_ms (w (request_of path o)) <= setTimeout_delay HTTP_TIMEOUT_MS ->
  fetch_outcome (w (request_of path o)) = inl err ->
  run w (quoFetch path o) s =
  (after s (clock s + fetch_ms (w (request_of path o))) (request_of path o),
   inl (new_Error
          (if String.eqb (name err) "AbortError" then timeout_message
           else redact_text (message err)))).
Proof.
  intros Hfast Hout.
  unfold quoFetch. simpl.
  unfold fires. simpl. rewrite ltb_shift.
  apply Z.ltb_ge in Hfast. rewrite Hfast. simpl.
  rewrite Hout. simpl.
  unfold quoFetch_catch.
  destruct (String.eqb (name err) "AbortError"); reflexivity.
Qed.

(** A response with a status outside 200-299 whose body is read before
    the timer fires. *)
Lemma quoFetch_not_ok (w : remote) (path : string) (o : options) (s : runtime)
      (res : response) :
  let t := fetch_ms (w (request_of path o)) in
  t <= setTimeout_delay HTTP_TIMEOUT_MS ->
  fetch_outcome (w (request_of path o)) = inr res ->
  ok res = false ->
  t + body_ms res <= setTimeout_delay HTTP_TIMEOUT_MS ->
  body_failure res = None ->
  run w (quoFetch path o) s =
  (after s (clock s + t + body_ms res) (request_of path o),
   inl (new_Error
          (redact_text
             ("Quo API " ++ Str.of_Z (status res) ++ " " ++ statusText res
                ++ ": " ++ redact_text (extractErrorMessage (body_text res)))))).
Proof.
  intros t Hfast Hout Hok Hbody Hread. subst t.
  unfold quoFetch. simpl.
  unfold fires. simpl. rewrite ltb_shift.
  apply Z.ltb_ge in Hfast. rewrite Hfast. simpl.
  rewrite Hout. simpl. rewrite Hok. simpl.
  unfold fires. simpl.
  rewrite <- Z.add_assoc, ltb_shift.
  apply Z.ltb_ge in Hbody. rewrite Hbody. simpl.
  rewrite Hread. simpl.
  reflexivity.
Qed.

(** A response with a status outside 200-299 whose body cannot be read to
    its end: the failure of the reading takes the way of a failure of
    [fetch]. *)
Lemma quoFetch_not_ok_failed (w : remote) (path : string) (o : options)
      (s : runtime) (res : response) (failure : js_error) :
  let t := fetch_ms (w (request_of path o)) in
  t <= setTimeout_delay HTTP_TIMEOUT_MS ->
  fetch_outcome (w (request_of path o)) = inr res ->
  ok res = false ->
  t + body_ms res <= setTimeout_delay HTTP_TIMEOUT_MS ->
  body_failure res = Some failure ->
  run w (quoFetch path o) s =
  (after s (clock s + t + body_ms res) (request_of path o),
   inl (new_Error
          (if String.eqb (name failure) "AbortError" then timeout_message
           else redact_text (message failure)))).
Proof.
  intros t Hfast Hout Hok Hbody Hread. subst t.
  unfold quoFetch. simpl.
  unfold fires. simpl. rewrite ltb_shift.
  apply Z.ltb_ge in Hfast. rewrite Hfast. simpl.
  rewrite Hout. simpl. rewrite Hok. simpl.
  unfold fires. simpl.
  rewrite <- Z.add_assoc, ltb_shift.
  apply Z.ltb_ge in Hbody. rewrite Hbody. simpl.
  rewrite Hread. simpl.
  unfold quoFetch_catch.
  destruct (String.eqb (name failure) "AbortError"); reflexivity.
Qed.

(** A response with a status outside 200-299 whose body is still being
    read when the timer fires. *)
Lemma quoFetch_not_ok_aborted (w : remote) (path : string) (o : options)
      (s : runtime) (res : response) :
  let t := fetch_ms (w (request_of path o)) in
  t <= setTimeout_delay HTTP_TIMEOUT_MS ->
  fetch_outcome (w (request_of path o)) = inr res ->
  ok res = false ->
  setTimeout_delay HTTP_TIMEOUT_MS < t + body_ms res ->
  run w (quoFetch path o) s =
  (after s (clock s + setTimeout_delay HTTP_TIMEOUT_MS) (request_of path o),
   inl (new_Error timeout_message)).
Proof.
  intros t Hfast Hout Hok Hbody. subst t.
  unfold quoFetch. simpl.
  unfold fires. simpl. rewrite ltb_shift.
  apply Z.ltb_ge in Hfast. rewrite Hfast. simpl.
  rewrite Hout. simpl. rewrite Hok. simpl.
  unfold fires. simpl.
  rewrite <- Z.add_assoc, ltb_shift.
  apply Z.ltb_lt in Hbody. rewrite Hbody. simpl.
  reflexivity.
Qed.

(** A response with status 204. *)
Lemma quoFetch_no_content (w : remote) (path : string) (o : options)
      (s : runtime) (res : response) :
  let t := fetch_ms (w (request_of path o)) in
  t <= setTimeout_delay HTTP_TIMEOUT_MS ->
  fetch_outcome (w (request_of path o)) = inr res ->
  status res = 204 ->
  run w (quoFetch path o) s =
  (after s (clock s + t) (request_of path o),
   inr (JObj [("success", JBool true)])).
Proof.
  intros t Hfast Hout Hst. subst t.
  unfold quoFetch. simpl.
  unfold fires. simpl. rewrite ltb_shift.
  apply Z.ltb_ge in Hfast. rewrite Hfast. simpl.
  rewrite Hout. simpl.
  unfold ok. rewrite Hst. simpl.
  reflexivity.
Qed.

(** Any other response with a status in 200-299: the body is read and
    parsed after the timer has been cleared, however long it takes. *)
Lemma quoFetch_json (w : remote) (path : string) (o : options)
      (s : runtime) (res : response) :
  let t := fetch_ms (w (request_of path o)) in
  t <= setTimeout_delay HTTP_TIMEOUT_MS ->
  fetch_outcome (w (request_of path o)) = inr res ->
  ok res = true ->
  status res <> 204 ->
  run w (quoFetch path o) s =
  (after s (clock s + t + body_ms res) (request_of path o), json_outcome res).
Proof.
  intros t Hfast Hout Hok Hst. subst t.
  unfold quoFetch, json_outcome. simpl.
  unfold fires. simpl. rewrite ltb_shift.
  apply Z.ltb_ge in Hfast. rewrite Hfast. simpl.
  rewrite Hout. simpl. rewrite Hok. simpl.
  apply Z.eqb_neq in Hst. rewrite Hst. simpl.
  destruct (body_failure res); [reflexivity |].
  destruct (JSON_parse (body_text res)); reflexivity.
Qed.

(** *** String search and replacement *)

Lemma replace_absent (p r s : string) :
  Str.includes p s = false -> Str.replace p r s = s.
Proof.
  induction s as [| c s IH]; simpl.
  - destruct (Str.startsWith p EmptyString); [discriminate | reflexivity].
  - destruct (Str.startsWith p (String c s)); [discriminate |].
    intro H. rewrite (IH H). reflexivity.
Qed.

Lemma match_at_needs_word (s : string) :
  AuthPattern.startsWith_ci "authorization" s = false ->
  AuthPattern.match_at s = None.
Proof.
  intro H. unfold AuthPattern.match_at. rewrite H. reflexivity.
Qed.

Lemma auth_replace_absent (s : string) :
  AuthPattern.mentions s = false -> AuthPattern.replace s = s.
Proof.
  unfold AuthPattern.replace.
  induction s as [| c s IH]; intro H.
  - reflexivity.
  - cbn [AuthPattern.mentions] in H.
    destruct (AuthPattern.startsWith_ci "authorization" (String c s)) eqn:E;
      [discriminate |].
    cbn [AuthPattern.replace_from].
    rewrite match_at_needs_word by exact E. rewrite IH by exact H. reflexivity.
Qed.

(** A text that holds neither the key nor the word Authorization passes
    the redactor unchanged. *)
Lemma redact_text_clean (s : string) :
  Str.includes API_KEY s = false ->
  AuthPattern.mentions s = false ->
  redact_text s = s.
Proof.
  intros Hkey Hauth. unfold redact_text.
  rewrite replace_absent by exact Hkey. apply auth_replace_absent, Hauth.
Qed.

Lemma auth_replace_unmatched (s : string) :
  AuthPattern.has_match s = false -> AuthPattern.replace s = s.
Proof.
  unfold AuthPattern.replace.
  induction s as [| c s IH]; intro H.
  - reflexivity.
  - cbn [AuthPattern.has_match] in H. cbn [AuthPattern.replace_from].
    destruct (AuthPattern.match_at (String c s)); [discriminate |].
    rewrite (IH H). reflexivity.
Qed.

(** A text that holds neither the key nor a match of the Authorization
    pattern passes the redactor unchanged. *)
Lemma redact_text_unmatched (s : string) :
  Str.includes API_KEY s = false ->
  AuthPattern.has_match s = false ->
  redact_text s = s.
Proof.
  intros Hkey Hauth. unfold redact_text.
  rewrite replace_absent by exact Hkey. apply auth_replace_unmatched, Hauth.
Qed.

(** *** The query string *)

Lemma has_app (q1 q2 : query) (k : string) :
  URLSearchParams.has (q1 ++ q2)%list k
  = URLSearchParams.has q1 k || URLSearchParams.has q2 k.
Proof. apply existsb_app. Qed.

Lemma getAll_app (q1 q2 : query) (k : string) :
  URLSearchParams.getAll (q1 ++ q2)%list k
  = (URLSearchParams.getAll q1 k ++ URLSearchParams.getAll q2 k)%list.
Proof.
  unfold URLSearchParams.getAll. rewrite filter_app, map_app. reflexivity.
Qed.

Lemma has_false_getAll (q : query) (k : string) :
  URLSearchParams.has q k = false -> URLSearchParams.getAll q k = [].
Proof.
  unfold URLSearchParams.has, URLSearchParams.getAll.
  induction q as [| [k' v'] q IH]; simpl; [reflexivity |].
  destruct (String.eqb k' k); simpl; [discriminate | exact IH].
Qed.

Lemma set_fresh (q : query) (k v : string) :
  URLSearchParams.has q k = false ->
  URLSearchParams.set q k v = (q ++ [(k, v)])%list.
Proof.
  intro H. unfold URLSearchParams.set. rewrite H. reflexivity.
Qed.

Lemma append_each (k : string) (items : list value) (q : query) :
  fold_left (fun q' item => URLSearchParams.append q' k (Js.String_ item)) items q
  = (q ++ map (fun item => (k, Js.String_ item)) items)%list.
Proof.
  revert q. induction items as [| item items IH]; intro q; simpl.
  - symmetry. apply app_nil_r.
  - rewrite IH. unfold URLSearchParams.append.
    rewrite <- app_assoc. reflexivity.
Qed.

(** One turn of the loop on a query that has no entry of that name yet. *)
Lemma add_param_fresh (q : query) (k : string) (v : value) :
  URLSearchParams.has q k = false ->
  add_param q (k, v) = (q ++ entry_pairs (k, v))%list.
Proof.
  intro H. unfold add_param, entry_pairs.
  destruct v; simpl;
    try (symmetry; apply app_nil_r);
    try (apply set_fresh; exact H);
    try apply append_each.
Qed.

Lemma entry_pairs_has_other (k k' : string) (v : value) :
  k <> k' -> URLSearchParams.has (entry_pairs (k, v)) k' = false.
Proof.
  intro Hne. apply String.eqb_neq in Hne.
  unfold entry_pairs, URLSearchParams.has.
  destruct v as [| | b | n | s | items | fs]; simpl;
    try reflexivity; try (rewrite Hne; reflexivity).
  induction items as [| item items IH]; simpl; [reflexivity |].
  rewrite Hne. exact IH.
Qed.

Lemma entry_pairs_getAll (k : string) (v : value) :
  URLSearchParams.getAll (entry_pairs (k, v)) k = map snd (entry_pairs (k, v)).
Proof.
  unfold entry_pairs, URLSearchParams.getAll.
  destruct v as [| | b | n | s | items | fs]; simpl;
    try reflexivity; try (rewrite String.eqb_refl; reflexivity).
  induction items as [| item items IH]; simpl; [reflexivity |].
  rewrite String.eqb_refl. simpl. f_equal. exact IH.
Qed.

(** The loop of [quoFetch] over the entries of an object. *)
Lemma fold_add_param (fields : object) (q : query) :
  NoDup (map fst fields) ->
  (forall k, In k (map fst fields) -> URLSearchParams.has q k = false) ->
  fold_left add_param fields q = (q ++ flat_map entry_pairs fields)%list.
Proof.
  revert q.
  induction fields as [| [k v] fields IH]; intros q Hnd Hfresh;
    cbn [fold_left flat_map map fst] in *.
  - symmetry. apply app_nil_r.
  - inversion Hnd as [| ? ? Hnotin Hnd']; subst.
    rewrite add_param_fresh by (apply Hfresh; left; reflexivity).
    rewrite IH.
    + rewrite <- app_assoc. reflexivity.
    + exact Hnd'.
    + intros k' Hin. rewrite has_app.
      rewrite Hfresh by (right; exact Hin).
      rewrite entry_pairs_has_other; [reflexivity |].
      intro Heq. subst k'. apply Hnotin. exact Hin.
Qed.

Lemma flat_map_getAll (fields : object) (k : string) (v : value) :
  NoDup (map fst fields) ->
  In (k, v) fields ->
  URLSearchParams.getAll (flat_map entry_pairs fields) k
  = map snd (entry_pairs (k, v)).
Proof.
  induction fields as [| [k' v'] fields IH]; intros Hnd Hin;
    cbn [flat_map map fst] in *.
  - destruct Hin.
  - inversion Hnd as [| ? ? Hnotin Hnd']; subst.
    rewrite getAll_app.
    destruct Hin as [Heq | Hin].
    + inversion Heq; subst.
      rewrite entry_pairs_getAll.
      rewrite (has_false_getAll (flat_map entry_pairs fields) k).
      * apply app_nil_r.
      * clear IH Hnd Hnd'.
        induction fields as [| [k2 v2] fields IH2]; cbn [flat_map map fst] in *.
        { reflexivity. }
        { rewrite has_app. rewrite entry_pairs_has_other.
          - apply IH2. intro H. apply Hnotin. right. exact H.
          - intro H. apply Hnotin. left. exact H. }
    + rewrite has_false_getAll.
      * apply IH; assumption.
      * apply entry_pairs_has_other. intro Heq. subst k'.
        apply Hnotin. apply (in_map fst) in Hin. exact Hin.
Qed.

Lemma flat_map_has_absent (fields : object) (k : string) :
  (forall v, In (k, v) fields -> Js.nullish v = true) ->
  URLSearchParams.has (flat_map entry_pairs fields) k = false.
Proof.
  induction fields as [| [k' v'] fields IH]; intro H; cbn [flat_map].
  - reflexivity.
  - rewrite has_app, IH by (intros v Hin; apply H; right; exact Hin).
    rewrite orb_false_r.
    destruct (String.eqb_spec k' k) as [-> | Hne].
    + unfold entry_pairs. rewrite (H v') by (left; reflexivity). reflexivity.
    + apply entry_pairs_has_other. exact Hne.
Qed.

(** *** The query on the wire *)

Lemma lacks_app (c : ascii) (a b : string) :
  Str.lacks c (a ++ b) = Str.lacks c a && Str.lacks c b.
Proof.
  induction a as [| d a IH]; cbn [String.append Str.lacks].
  - reflexivity.
  - rewrite IH. apply andb_assoc.
Qed.

Lemma percent_decode_encode_byte (b : ascii) (rest : string) :
  Form.percent_decode (Form.encode_byte b ++ rest)
  = String b (Form.percent_decode rest).
Proof.
  destruct b as [[] [] [] [] [] [] [] []]; reflexivity.
Qed.

Lemma percent_decode_encode (bytes : string) :
  Form.percent_decode (Form.percent_encode bytes) = bytes.
Proof.
  induction bytes as [| b bytes IH]; cbn [Form.percent_encode].
  - reflexivity.
  - rewrite percent_decode_encode_byte, IH. reflexivity.
Qed.

Lemma utf8_decode_char (c : ascii) (rest : string) :
  Form.utf8_decode (Form.utf8_char c ++ rest) = String c (Form.utf8_decode rest).
Proof.
  destruct c as [[] [] [] [] [] [] [] []]; reflexivity.
Qed.

Lemma utf8_decode_encode (s : string) :
  Form.utf8_decode (Form.utf8_encode s) = s.
Proof.
  induction s as [| c s IH]; cbn [Form.utf8_encode].
  - reflexivity.
  - rewrite utf8_decode_char, IH. reflexivity.
Qed.

(** Decoding undoes encoding. *)
Lemma decode_encode (s : string) : Form.decode (Form.encode s) = s.
Proof.
  unfold Form.decode, Form.encode.
  rewrite percent_decode_encode. apply utf8_decode_encode.
Qed.

(** An encoded string holds none of the separators of a URL: the
    ampersand, the equals sign, the hash and the question mark. *)
Lemma encode_byte_lacks (c b : ascii) :
  In c ["&"; "="; "#"; "?"]%char ->
  Str.lacks c (Form.encode_byte b) = true.
Proof.
  intro Hc. cbn [In] in Hc.
  destruct Hc as [<- | [<- | [<- | [<- | []]]]];
    destruct b as [[] [] [] [] [] [] [] []]; reflexivity.
Qed.

Lemma encode_lacks (c : ascii) (s : string) :
  In c ["&"; "="; "#"; "?"]%char ->
  Str.lacks c (Form.encode s) = true.
Proof.
  intro Hc. unfold Form.encode.
  induction (Form.utf8_encode s) as [| b bytes IH]; cbn [Form.percent_encode].
  - reflexivity.
  - rewrite lacks_app, IH, (encode_byte_lacks c b Hc). reflexivity.
Qed.

Lemma cut_lacks (c : ascii) (a : string) :
  Str.lacks c a = true -> Form.cut c a = (a, None).
Proof.
  induction a as [| d a IH]; cbn [Str.lacks Form.cut]; intro H.
  - reflexivity.
  - apply andb_prop in H. destruct H as [Hd Ha].
    apply negb_true_iff in Hd. rewrite Hd, (IH Ha). reflexivity.
Qed.

Lemma cut_at (c : ascii) (a b : string) :
  Str.lacks c a = true ->
  Form.cut c (a ++ String c b) = (a, Some b).
Proof.
  induction a as [| d a IH]; cbn [Str.lacks Form.cut String.append]; intro H.
  - rewrite Ascii.eqb_refl. reflexivity.
  - apply andb_prop in H. destruct H as [Hd Ha].
    apply negb_true_iff in Hd. rewrite Hd, (IH Ha). reflexivity.
Qed.

Lemma split_lacks (c : ascii) (a : string) :
  Str.lacks c a = true -> Form.split c a = [a].
Proof.
  induction a as [| d a IH]; cbn [Str.lacks Form.split]; intro H.
  - reflexivity.
  - apply andb_prop in H. destruct H as [Hd Ha].
    apply negb_true_iff in Hd. rewrite Hd, (IH Ha). reflexivity.
Qed.

Lemma split_at (c : ascii) (a b : string) :
  Str.lacks c a = true ->
  Form.split c (a ++ String c b) = a :: Form.split c b.
Proof.
  induction a as [| d a IH]; cbn [Str.lacks Form.split String.append]; intro H.
  - rewrite Ascii.eqb_refl. reflexivity.
  - apply andb_prop in H. destruct H as [Hd Ha].
    apply negb_true_iff in Hd. rewrite Hd, (IH Ha). reflexivity.
Qed.

Lemma pair_text_lacks (kv : string * string) :
  Str.lacks "&" (Form.pair_text kv) = true.
Proof.
  unfold Form.pair_text. rewrite !lacks_app.
  rewrite !encode_lacks by (cbn [In]; auto). reflexivity.
Qed.

Lemma parse_piece (kv : string * string) :
  match Form.pair_text kv with
  | EmptyString => []
  | _ =>
      let (n, v) := Form.cut "=" (Form.pair_text kv) in
      [(Form.decode n,
        match v with
        | Some v' => Form.decode v'
        | None => EmptyString
        end)]
  end = [kv].
Proof.
  destruct kv as [k v].
  assert (Hcut : Form.cut "=" (Form.pair_text (k, v))
                 = (Form.encode k, Some (Form.encode v))).
  { unfold Form.pair_text. cbn [fst snd].
    change ("=" ++ Form.encode v) with (String "=" (Form.encode v)).
    apply cut_at. apply encode_lacks. cbn [In]. auto. }
  rewrite Hcut, !decode_encode.
  unfold Form.pair_text. cbn [fst snd].
  destruct (Form.encode k); reflexivity.
Qed.

(** Parsing undoes serialising: a server reads back the very entries. *)
Lemma parse_serialize (q : query) : Form.parse (Form.serialize q) = q.
Proof.
  unfold Form.parse, Form.serialize.
  induction q as [| kv q IH].
  - reflexivity.
  - destruct q as [| kv' q'].
    + cbn [map Str.join].
      rewrite (split_lacks "&" _ (pair_text_lacks kv)).
      cbn [flat_map]. rewrite parse_piece. reflexivity.
    + cbn [map Str.join] in *.
      change ("&" ++ ?x) with (String "&" x).
      rewrite (split_at "&" _ _ (pair_text_lacks kv)).
      cbn [flat_map]. rewrite parse_piece, IH. reflexivity.
Qed.

Lemma serialize_lacks (c : ascii) (q : query) :
  In c ["#"; "?"]%char -> Str.lacks c (Form.serialize q) = true.
Proof.
  intro Hc. unfold Form.serialize.
  assert (Hsep : In c ["&"; "="; "#"; "?"]%char
                 /\ negb (Ascii.eqb "=" c) = true
                 /\ negb (Ascii.eqb "&" c) = true).
  { cbn [In] in Hc. destruct Hc as [<- | [<- | []]]; cbn [In]; auto 10. }
  destruct Hsep as (Hin & Heq & Hamp).
  assert (Hpair : forall kv, Str.lacks c (Form.pair_text kv) = true).
  { intro kv. unfold Form.pair_text.
    rewrite !lacks_app, !(encode_lacks c _ Hin).
    cbn [Str.lacks]. rewrite Heq. reflexivity. }
  induction q as [| kv q IH].
  - reflexivity.
  - destruct q as [| kv' q'].
    + cbn [map Str.join]. apply Hpair.
    + cbn [map Str.join] in IH |- *. rewrite !lacks_app, Hpair, IH.
      cbn [Str.lacks]. rewrite Hamp. reflexivity.
Qed.

(** A URL written by [toString] reads back as the same address and the
    same entries. *)
Lemma new_URL_toString (h : string) (q : query) :
  Str.lacks "?" h = true ->
  Str.lacks "#" h = true ->
  new_URL (URL_toString {| href := h; searchParams := q |})
  = {| href := h; searchParams := q |}.
Proof.
  intros Hq Hh. unfold URL_toString, new_URL. cbn [href searchParams].
  destruct q as [| kv q].
  - rewrite (cut_lacks "#" h Hh). cbn [fst].
    rewrite (cut_lacks "?" h Hq). reflexivity.
  - rewrite (cut_lacks "#").
    + cbn [fst]. change ("?" ++ ?x) with (String "?" x).
      rewrite (cut_at "?" h _ Hq), parse_serialize. reflexivity.
    + rewrite !lacks_app, Hh, serialize_lacks by (cbn [In]; auto). reflexivity.
Qed.

Lemma new_URL_plain (h : string) :
  Str.lacks "?" h = true ->
  Str.lacks "#" h = true ->
  new_URL h = {| href := h; searchParams := [] |}.
Proof.
  intros Hq Hh. unfold new_URL.
  rewrite (cut_lacks "#" h Hh). cbn [fst].
  rewrite (cut_lacks "?" h Hq). reflexivity.
Qed.

Lemma NoDup_fst_In (fields : object) (k : string) (v v' : value) :
  NoDup (map fst fields) -> In (k, v) fields -> In (k, v') fields -> v = v'.
Proof.
  induction fields as [| [k0 v0] fields IH]; intros Hnd H1 H2;
    cbn [map fst] in *.
  - destruct H1.
  - inversion Hnd as [| ? ? Hnotin Hnd']; subst.
    destruct H1 as [E1 | H1], H2 as [E2 | H2].
    + congruence.
    + inversion E1; subst. exfalso. apply Hnotin.
      apply (in_map fst) in H2. exact H2.
    + inversion E2; subst. exfalso. apply Hnotin.
      apply (in_map fst) in H1. exact H1.
    + apply IH; assumption.
Qed.

(** The URL [quoFetch] hands to [fetch] for a [params] object, and the
    entries a server reads off it. *)
Lemma request_query (path : string) (o : options) (fields : object) :
  Str.lacks "?" path = true ->
  Str.lacks "#" path = true ->
  params o = JObj fields ->
  NoDup (map fst fields) ->
  rq_url (request_of path o)
  = URL_toString {| href := BASE_URL ++ path;
                    searchParams := flat_map entry_pairs fields |}
  /\ query_of (request_of path o) = flat_map entry_pairs fields.
Proof.
  intros Hpq Hph Hparams Hnd.
  assert (Hbase : Str.lacks "?" (BASE_URL ++ path) = true
                  /\ Str.lacks "#" (BASE_URL ++ path) = true).
  { rewrite !lacks_app, Hpq, Hph. split; reflexivity. }
  destruct Hbase as [Hbq Hbh].
  assert (Hurl : rq_url (request_of path o)
                 = URL_toString {| href := BASE_URL ++ path;
                                   searchParams := flat_map entry_pairs fields |}).
  { unfold request_of, build_url. cbn [rq_url]. rewrite Hparams.
    cbn [Js.truthy entries].
    rewrite (new_URL_plain _ Hbq Hbh). cbn [href searchParams].
    rewrite fold_add_param; [reflexivity | exact Hnd | reflexivity]. }
  split; [exact Hurl |].
  unfold query_of. rewrite Hurl, (new_URL_toString _ _ Hbq Hbh). reflexivity.
Qed.

(** C7.  The query of the request [quoFetch] sends for a [params] object,
    as a server reads it off the URL (the path having no query or fragment
    of its own): the entries are taken in the order of the object; an
    array-valued entry yields one entry of its name per element, in the
    order of the array; any other value that is neither [null] nor
    [undefined] yields exactly one entry; a [null] or [undefined] entry,
    and a name the object does not have, yield no entry of that name at
    all.  The URL itself is the address followed by the serialised
    entries. *)
Theorem query_string_of_params (path : string) (o : options) (fields : object) :
  Str.lacks "?" path = true ->
  Str.lacks "#" path = true ->
  params o = JObj fields ->
  NoDup (map fst fields) ->
  let q := query_of (request_of path o) in
  q = flat_map entry_pairs fields
  /\ (forall k items,
         In (k, JArr items) fields ->
         URLSearchParams.getAll q k = map Js.String_ items)
  /\ (forall k v,
         In (k, v) fields -> Js.nullish v = false -> Js.isArray v = false ->
         URLSearchParams.getAll q k = [Js.String_ v])
  /\ (forall k v,
         In (k, v) fields -> Js.nullish v = true ->
         URLSearchParams.has q k = false)
  /\ (forall k,
         ~ In k (map fst fields) -> URLSearchParams.has q k = false)
  /\ rq_url (request_of path o)
     = URL_toString {| href := BASE_URL ++ path;
                       searchParams := flat_map entry_pairs fields |}.
Proof.
  intros Hpq Hph Hparams Hnd q.
  destruct (request_query path o fields Hpq Hph Hparams Hnd) as [Hurl Hq].
  fold q in Hq.
  split; [exact Hq |]. rewrite Hq. clear Hq q.
  repeat split.
  - intros k items Hin.
    rewrite (flat_map_getAll _ _ _ Hnd Hin). cbn [entry_pairs Js.nullish].
    rewrite map_map. reflexivity.
  - intros k v Hin Hnn Harr.
    rewrite (flat_map_getAll _ _ _ Hnd Hin). unfold entry_pairs. rewrite Hnn.
    destruct v; try reflexivity; discriminate.
  - intros k v Hin Hnull. apply flat_map_has_absent.
    intros v' Hin'. rewrite <- (NoDup_fst_In _ _ _ _ Hnd Hin Hin'). exact Hnull.
  - intros k Hnotin. apply flat_map_has_absent.
    intros v Hin. exfalso. apply Hnotin.
    apply (in_map fst) in Hin. exact Hin.
  - exact Hurl.
Qed.

(** *** Handlers as runs of the gateway *)

Ltac case_fires :=
  match goal with
  | |- context [fires ?s ?t] => destruct (fires s t)
  end.

(** Whatever the remote side does, [quoFetch] sends exactly one request,
    the one built from its arguments. *)
Lemma quoFetch_outbound (w : remote) (path : string) (o : options) (s : runtime) :
  outbound (fst (run w (quoFetch path o) s))
  = (outbound s ++ [request_of path o])%list.
Proof.
  unfold quoFetch. simpl.
  case_fires; simpl; [reflexivity |].
  destruct (fetch_outcome (w (request_of path o))) as [err | res]; simpl.
  - unfold quoFetch_catch.
    destruct (String.eqb (name err) "AbortError"); reflexivity.
  - destruct (ok res); simpl.
    + destruct (status res =? 204); simpl; [reflexivity |].
      destruct (body_failure res); [reflexivity |].
      destruct (JSON_parse (body_text res)); reflexivity.
    + case_fires; [reflexivity |].
      destruct (body_failure res) as [failure |]; simpl; [| reflexivity].
      unfold quoFetch_catch.
      destruct (String.eqb (name failure) "AbortError"); reflexivity.
Qed.

(** A handler that returns a result made from what the gateway returns. *)
Lemma run_then_ret (A B : Type) (w : remote) (m : prog A) (f : A -> B) (s : runtime) :
  run w (x <- m ;; Ret (f x)) s =
  (fst (run w m s),
   match snd (run w m s) with
   | inl e => inl e
   | inr a => inr (f a)
   end).
Proof.
  rewrite run_bind. destruct (run w m s) as [s' [e | a]]; reflexivity.
Qed.

(** A handler that returns a result made from the [data] of what the
    gateway returns. *)
Lemma run_then_data (B : Type) (w : remote) (m : prog value) (f : value -> B)
      (s : runtime) :
  run w (result <- m ;; data <- get result "data" ;; Ret (f data)) s =
  (fst (run w m s),
   match snd (run w m s) with
   | inl e => inl e
   | inr result =>
       if Js.nullish result then inl (TypeError_read result "data")
       else inr (f (Js.get_opt result "data"))
   end).
Proof.
  rewrite run_bind. destruct (run w m s) as [s' [e | result]]; simpl.
  - reflexivity.
  - unfold get. destruct (Js.nullish result); reflexivity.
Qed.

(** *** Validation of an argument object *)

Lemma validate_members_absent (fields : object) (shape : list (string * schema))
      (out : object) (k : string) :
  validate_members validate fields shape = Some out ->
  ~ In k (map fst shape) ->
  Js.lookup out k = JUndefined.
Proof.
  revert out.
  induction shape as [| [k0 sk0] shape IH]; intros out Hval Hnotin;
    cbn [validate_members map fst] in *.
  - inversion Hval. reflexivity.
  - destruct (validate sk0 (Js.lookup fields k0)) as [x0 |]; [| discriminate].
    destruct (validate_members validate fields shape) as [rest |];
      [| destruct x0; discriminate].
    assert (Hrest : Js.lookup rest k = JUndefined).
    { apply IH; [reflexivity |]. intro H. apply Hnotin. right. exact H. }
    assert (Hne : String.eqb k0 k = false).
    { apply String.eqb_neq. intro H. apply Hnotin. left. exact H. }
    destruct x0; inversion Hval; subst; cbn [Js.lookup];
      try rewrite Hne; exact Hrest.
Qed.

(** A declared parameter reaches the handler as the validation of what
    the caller passed under its name. *)
Lemma validate_members_lookup (fields : object) (shape : list (string * schema))
      (out : object) (k : string) (sk : schema) :
  validate_members validate fields shape = Some out ->
  NoDup (map fst shape) ->
  In (k, sk) shape ->
  validate sk (Js.lookup fields k) = Some (Js.lookup out k).
Proof.
  revert out.
  induction shape as [| [k0 sk0] shape IH]; intros out Hval Hnd Hin;
    cbn [validate_members map fst] in *.
  - destruct Hin.
  - inversion Hnd as [| ? ? Hnotin Hnd']; subst.
    destruct (validate sk0 (Js.lookup fields k0)) as [x0 |] eqn:Hx0;
      [| discriminate].
    destruct (validate_members validate fields shape) as [rest |] eqn:Hrest;
      [| destruct x0; discriminate].
    destruct Hin as [Heq | Hin].
    + inversion Heq; subst. rewrite Hx0. f_equal.
      pose proof (validate_members_absent _ _ _ _ Hrest Hnotin) as Habs.
      destruct x0; inversion Hval; subst; cbn [Js.lookup];
        try rewrite String.eqb_refl; try reflexivity.
      symmetry. exact Habs.
    + assert (Hne : String.eqb k0 k = false).
      { apply String.eqb_neq. intro H. subst k0. apply Hnotin.
        apply (in_map fst) in Hin. exact Hin. }
      rewrite (IH rest eq_refl Hnd' Hin).
      destruct x0; inversion Hval; subst; cbn [Js.lookup];
        try rewrite Hne; reflexivity.
Qed.

Lemma validate_object (shape : list (string * schema)) (fields : object)
      (args : value) (k : string) (sk : schema) :
  validate (z.object shape) (JObj fields) = Some args ->
  NoDup (map fst shape) ->
  In (k, sk) shape ->
  validate sk (Js.lookup fields k) = Some (Js.arg args k).
Proof.
  intros Hval Hnd Hin. unfold z.object in Hval. cbn [validate] in Hval.
  destruct (validate_members validate fields shape) as [out |] eqn:Hout;
    [| discriminate].
  inversion Hval; subst. cbn [Js.arg Js.get_opt].
  apply (validate_members_lookup _ _ _ _ _ Hout Hnd Hin).
Qed.

(** *** The handlers *)

(** C4.  When the six optional fields of [update_contact] are all
    [undefined], the handler returns at once, without any operation of the
    gateway: the result carries the error flag and its text names the
    missing fields; running it against any remote side sends no request. *)
Theorem update_contact_without_fields (args : value) (w : remote) (s : runtime) :
  Js.arg args "firstName" = JUndefined ->
  Js.arg args "lastName" = JUndefined ->
  Js.arg args "company" = JUndefined ->
  Js.arg args "role" = JUndefined ->
  Js.arg args "phoneNumbers" = JUndefined ->
  Js.arg args "emails" = JUndefined ->
  exists r : ToolResult,
    update_contact args = Ret r
    /\ run w (update_contact args) s = (s, inr r)
    /\ isError r = true
    /\ exists t : string,
         content r = [text_block (Some t)]
         /\ Str.includes "No fields provided for update_contact" t = true
         /\ Str.includes "Pass at least one of: firstName, lastName, company, role, phoneNumbers, emails." t = true.
Proof.
  intros H1 H2 H3 H4 H5 H6.
  exists (jsonToolResponse update_contact_no_fields true).
  assert (Hprog : update_contact args
                  = Ret (jsonToolResponse update_contact_no_fields true)).
  { unfold update_contact, update_contact_defaultFields.
    rewrite H1, H2, H3, H4, H5, H6. reflexivity. }
  split; [exact Hprog |].
  split; [rewrite Hprog; reflexivity |].
  split; [reflexivity |].
  eexists. split; [reflexivity |].
  split; vm_compute; reflexivity.
Qed.

(** C9.  A response with status 204 that [fetch] delivers before the timer
    fires makes [quoFetch] return the marker object with the one property
    [success: true] as soon as the status line is in: the body is not read,
    so it does not matter what it holds, whether it can be read to its end
    or what [JSON.parse] would make of it.  On such a response
    [delete_contact], which sends one DELETE request without a body to the
    address of the contact, returns a result without the error flag whose
    text is the sentence naming the contact; and whatever the remote side
    does, a failure of that call of the gateway is the failure of the
    handler. *)
Theorem no_content_is_success (w : remote) (ms : Z) (res : response)
        (path : string) (o : options) (args : value) (s : runtime) :
  answers w ms res ->
  ms <= setTimeout_delay HTTP_TIMEOUT_MS ->
  status res = 204 ->
  let id := Js.String_ (Js.arg args "id") in
  let DELETE := {| method := "DELETE"; body := JUndefined; params := JUndefined |} in
  run w (quoFetch path o) s
  = (after s (clock s + ms) (request_of path o),
     inr (JObj [("success", JBool true)]))
  /\ run w (delete_contact args) s
     = (after s (clock s + ms) (request_of ("/contacts/" ++ id) DELETE),
        inr {| content := [text_block (Some ("Contact " ++ id ++ " deleted."))];
               isError := false |})
  /\ rq_method (request_of ("/contacts/" ++ id) DELETE) = "DELETE"
  /\ rq_body (request_of ("/contacts/" ++ id) DELETE) = None
  /\ (forall (w' : remote) (s' : runtime) (e : js_error),
        snd (run w' (quoFetch ("/contacts/" ++ id) DELETE) s') = inl e ->
        snd (run w' (delete_contact args) s') = inl e).
Proof.
  intros Hw Hms Hst id DELETE.
  assert (Hq : forall p o', run w (quoFetch p o') s
                            = (after s (clock s + ms) (request_of p o'),
                               inr (JObj [("success", JBool true)]))).
  { intros p o'. rewrite (quoFetch_no_content w p o' s res).
    - rewrite Hw. reflexivity.
    - rewrite Hw. exact Hms.
    - rewrite Hw. reflexivity.
    - exact Hst. }
  split; [apply Hq |].
  split.
  { unfold delete_contact. fold id. fold DELETE.
    rewrite run_then_ret, Hq. reflexivity. }
  split; [reflexivity |].
  split; [reflexivity |].
  intros w' s' e He.
  unfold delete_contact. fold id. fold DELETE.
  rewrite run_then_ret. cbn [snd]. rewrite He. reflexivity.
Qed.

(** *** Pagination parameters *)

Ltac each_tool H :=
  unfold tools in H; cbn [In] in H;
  repeat (destruct H as [H | H]; [subst |]); [.. | destruct H].

Ltac distinct_names :=
  cbn [map fst inputSchema];
  repeat constructor; cbn [In]; intuition discriminate.

(** The request a list handler sends, whatever the remote side does. *)
Lemma list_handler_outbound (w : remote) (path : string) (o : options)
      (f : value -> ToolResult) :
  outbound (fst (run w (result <- quoFetch path o ;; Ret (f result)) boot))
  = [request_of path o].
Proof.
  rewrite run_then_ret. cbn [fst]. apply quoFetch_outbound.
Qed.

(** The entries of a given name in the query of a list handler: those of
    the scalar the handler passes under that name. *)
Lemma scalar_param (path : string) (o : options) (fields : object)
      (k : string) (v : value) :
  Str.lacks "?" path = true ->
  Str.lacks "#" path = true ->
  params o = JObj fields ->
  NoDup (map fst fields) ->
  In (k, v) fields ->
  Js.nullish v = false ->
  Js.isArray v = false ->
  URLSearchParams.getAll (query_of (request_of path o)) k = [Js.String_ v].
Proof.
  intros Hpq Hph Hp Hnd Hin Hnn Harr.
  destruct (request_query path o fields Hpq Hph Hp Hnd) as [_ Hq].
  rewrite Hq, (flat_map_getAll _ _ _ Hnd Hin). unfold entry_pairs. rewrite Hnn.
  destruct v; try reflexivity; discriminate.
Qed.


(** *** Strings with code units above 255 *)

Lemma wide_code_is_plain (c : ascii) :
  Wide.is_lead (Z.of_nat (Str.code c)) = false
  /\ Wide.is_trail (Z.of_nat (Str.code c)) = false
  /\ Wide.utf8_scalar (Z.of_nat (Str.code c)) = Form.utf8_char c.
Proof.
  destruct c as [[] [] [] [] [] [] [] []]; repeat split; vm_compute; reflexivity.
Qed.

Lemma wide_scalar_values_of_string (s : string) :
  Wide.scalar_values (Wide.of_string s) = Wide.of_string s.
Proof.
  unfold Wide.of_string.
  induction s as [| c s IH]; cbn [list_ascii_of_string map Wide.scalar_values].
  - reflexivity.
  - destruct (wide_code_is_plain c) as (Hl & Ht & _).
    rewrite Hl, Ht, IH. reflexivity.
Qed.

Lemma wide_encode_of_string (s : string) :
  Wide.encode (Wide.of_string s) = Form.encode s.
Proof.
  unfold Wide.encode, Form.encode, Wide.of_string. f_equal.
  induction s as [| c s IH];
    cbn [list_ascii_of_string map Wide.utf8_encode Form.utf8_encode].
  - reflexivity.
  - destruct (wide_code_is_plain c) as (_ & _ & Hu).
    rewrite Hu, IH. reflexivity.
Qed.

(** On strings of code units below 256 the entry stored and the text
    written are those of the embedding: no such code unit is a
    surrogate. *)
Lemma wide_set_of_string (k v : string) :
  Wide.set (Wide.of_string k) (Wide.of_string v)
  = [(Wide.of_string k, Wide.of_string v)]
  /\ Wide.serialize (Wide.set (Wide.of_string k) (Wide.of_string v))
     = Form.serialize (URLSearchParams.set [] k v).
Proof.
  unfold Wide.set. rewrite !wide_scalar_values_of_string.
  split; [reflexivity |].
  unfold Wide.serialize, Form.serialize, URLSearchParams.set.
  cbn [URLSearchParams.has existsb URLSearchParams.append app map Str.join].
  unfold Wide.pair_text, Form.pair_text. cbn [fst snd].
  rewrite !wide_encode_of_string. reflexivity.
Qed.

Lemma page_size_schema (bound n : Z) :
  validate (z.number |> z.min 1 |> z.max bound |> z.default (JNum 20) |> z.optional)
           (JNum n)
  = if (1 <=? n) && (n <=? bound) then Some (JNum n) else None.
Proof. reflexivity. Qed.

(** C3.  For every tool that declares [maxResults], with the validation
    routine modelled from the specification: when the caller leaves the
    parameter out, the validated arguments hold 20, the handler sends one
    request and its query holds [maxResults=20]; when the caller passes a
    number outside 1..100 (1..50 for contacts) validation rejects, and a
    number that passes validation lies in that range and reaches the
    handler unchanged. *)
Theorem page_size_default_and_bounds (t : tool) (fields : object) (w : remote) :
  In t tools ->
  declares t "maxResults" = true ->
  (Js.lookup fields "maxResults" = JUndefined ->
   forall args : value,
     validate (z.object (inputSchema t)) (JObj fields) = Some args ->
     Js.arg args "maxResults" = JNum 20
     /\ exists rq : request,
          outbound (fst (run w (handler t args) boot)) = [rq]
          /\ URLSearchParams.getAll (query_of rq) "maxResults" = ["20"])
  /\ (forall n : Z,
        Js.lookup fields "maxResults" = JNum n ->
        (n < 1 \/ page_size_bound (tool_name t) < n ->
         validate (z.object (inputSchema t)) (JObj fields) = None)
        /\ (forall args : value,
              validate (z.object (inputSchema t)) (JObj fields) = Some args ->
              1 <= n <= page_size_bound (tool_name t)
              /\ Js.arg args "maxResults" = JNum n))
  /\ (forall (sk : schema) (n : Z),
        In ("maxResults", sk) (inputSchema t) ->
        validate sk (JNum n)
        = if (1 <=? n) && (n <=? page_size_bound (tool_name t))
          then Some (JNum n) else None).
Proof.
  intros Hin Hdecl.
  assert (Hparam :
    exists sk : schema,
      (forall sk', In ("maxResults", sk') (inputSchema t) -> sk' = sk)
      /\ NoDup (map fst (inputSchema t))
      /\ In ("maxResults", sk) (inputSchema t)
      /\ sk = (z.number |> z.min 1 |> z.max (page_size_bound (tool_name t))
                        |> z.default (JNum 20) |> z.optional)).
  { each_tool Hin; cbn in Hdecl; try discriminate;
      (eexists; split; [| split; [distinct_names | split; [| reflexivity]]];
       [ cbn [inputSchema In]; intros sk' H;
         repeat (destruct H as [H | H]; [inversion H; try reflexivity |]);
         destruct H
       | cbn [inputSchema In]; intuition ]). }
  destruct Hparam as (sk & Honly & Hnd & Hsk & Hdef).
  assert (Hreq : forall args, Js.arg args "maxResults" = JNum 20 ->
            exists rq : request,
              outbound (fst (run w (handler t args) boot)) = [rq]
              /\ URLSearchParams.getAll (query_of rq) "maxResults"
                 = ["20"]).
  { intros args Harg. clear Honly Hnd Hsk Hdef sk.
    each_tool Hin; cbn in Hdecl; try discriminate; cbn [handler].
    - unfold list_messages. eexists. split; [apply list_handler_outbound |].
      replace ["20"] with [Js.String_ (Js.arg args "maxResults")]
        by (rewrite Harg; reflexivity).
      eapply scalar_param; [reflexivity | reflexivity
                         | reflexivity | distinct_names | cbn [In]; intuition
                           | rewrite Harg; reflexivity | rewrite Harg; reflexivity].
    - unfold list_conversations. eexists. split; [apply list_handler_outbound |].
      replace ["20"] with [Js.String_ (Js.arg args "maxResults")]
        by (rewrite Harg; reflexivity).
      eapply scalar_param; [reflexivity | reflexivity
                         | reflexivity | distinct_names | cbn [In]; intuition
                           | rewrite Harg; reflexivity | rewrite Harg; reflexivity].
    - unfold list_contacts. eexists. split; [apply list_handler_outbound |].
      replace ["20"] with [Js.String_ (Js.arg args "maxResults")]
        by (rewrite Harg; reflexivity).
      eapply scalar_param; [reflexivity | reflexivity
                         | reflexivity | distinct_names | cbn [In]; intuition
                           | rewrite Harg; reflexivity | rewrite Harg; reflexivity].
    - unfold list_calls. eexists. split; [apply list_handler_outbound |].
      replace ["20"] with [Js.String_ (Js.arg args "maxResults")]
        by (rewrite Harg; reflexivity).
      eapply scalar_param; [reflexivity | reflexivity
                         | reflexivity | distinct_names | cbn [In]; intuition
                           | rewrite Harg; reflexivity | rewrite Harg; reflexivity]. }
  split; [| split].
  - intros Hom args Hval.
    pose proof (validate_object _ _ _ _ _ Hval Hnd Hsk) as Hv.
    rewrite Hom, Hdef in Hv. cbn in Hv.
    assert (Harg : Js.arg args "maxResults" = JNum 20) by congruence.
    split; [exact Harg | apply Hreq, Harg].
  - intros n Hn.
    assert (Hacc : forall args,
              validate (z.object (inputSchema t)) (JObj fields) = Some args ->
              1 <= n <= page_size_bound (tool_name t)
              /\ Js.arg args "maxResults" = JNum n).
    { intros args Hval.
      pose proof (validate_object _ _ _ _ _ Hval Hnd Hsk) as Hv.
      rewrite Hn, Hdef, page_size_schema in Hv.
      destruct (Z.leb_spec 1 n); destruct (Z.leb_spec n (page_size_bound (tool_name t)));
        cbn in Hv; try discriminate.
      split; [lia | congruence]. }
    split; [| exact Hacc].
    intros Hout.
    destruct (validate (z.object (inputSchema t)) (JObj fields)) as [args |] eqn:Hval;
      [| reflexivity].
    destruct (Hacc args eq_refl) as [Hrange _]. lia.
  - intros sk' n Hin'. rewrite (Honly sk' Hin'), Hdef. apply page_size_schema.
Qed.

(** *** What the handlers return *)

(** A response with a status in 200-299 that [fetch] delivers before the
    timer fires: what [quoFetch] returns. *)
Lemma quoFetch_ok (w : remote) (ms : Z) (res : response) (path : string)
      (o : options) (s : runtime) :
  answers w ms res ->
  ms <= setTimeout_delay HTTP_TIMEOUT_MS ->
  ok res = true ->
  snd (run w (quoFetch path o) s)
  = if status res =? 204 then inr (JObj [("success", JBool true)])
    else json_outcome res.
Proof.
  intros Hw Hms Hok.
  destruct (Z.eqb_spec (status res) 204) as [Hst | Hst].
  - rewrite (quoFetch_no_content w path o s res); rewrite ?Hw; auto.
  - rewrite (quoFetch_json w path o s res); rewrite ?Hw; auto.
Qed.

(** The same for a body that is read to its end and parses. *)
Lemma quoFetch_parsed (w : remote) (ms : Z) (res : response) (v : value)
      (path : string) (o : options) (s : runtime) :
  answers w ms res ->
  ms <= setTimeout_delay HTTP_TIMEOUT_MS ->
  ok res = true ->
  status res <> 204 ->
  body_failure res = None ->
  JSON_parse (body_text res) = Parsed v ->
  snd (run w (quoFetch path o) s) = inr v.
Proof.
  intros Hw Hms Hok Hst Hread Hp.
  rewrite (quoFetch_ok w ms res path o s Hw Hms Hok).
  apply Z.eqb_neq in Hst. rewrite Hst.
  unfold json_outcome. rewrite Hread, Hp. reflexivity.
Qed.

(** C10, as amended.  For every tool whose handler returns [result.data]:
    when the handler has sent its request and the remote side answers,
    before the timer of the gateway fires, with a status in 200-299, either
    204 or a JSON body that is read to its end and whose value is neither
    [null] nor has a [data] property, the handler returns a result without
    the error flag whose one text block holds [undefined], the value of
    [JSON.stringify(undefined, null, 2)].  When the value of the body is
    [null], reading [result.data] throws and the handler fails with the
    TypeError instead. *)
Theorem unwrapping_without_data (t : tool) (args : value) (w : remote)
        (ms : Z) (res : response) :
  In t tools ->
  In (tool_name t) unwrapping_tools ->
  answers w ms res ->
  ms <= setTimeout_delay HTTP_TIMEOUT_MS ->
  ok res = true ->
  outbound (fst (run w (handler t args) boot)) <> [] ->
  ((status res = 204
    \/ exists v : value,
         body_failure res = None
         /\ JSON_parse (body_text res) = Parsed v
         /\ Js.nullish v = false
         /\ Js.get_opt v "data" = JUndefined) ->
   snd (run w (handler t args) boot)
   = inr {| content := [{| type := "text"; text := None |}]; isError := false |})
  /\ (status res <> 204 ->
      body_failure res = None ->
      JSON_parse (body_text res) = Parsed JNull ->
      snd (run w (handler t args) boot) = inl (TypeError_read JNull "data")).
Proof.
  intros Hin Hname Hw Hms Hok Hsent.
  assert (Hshape :
            exists p o,
              handler t args
              = (result <- quoFetch p o ;;
                 data <- get result "data" ;;
                 Ret (success (JSON.stringify_2 data)))).
  { each_tool Hin; cbn [tool_name] in Hname; cbn [handler] in *;
      try (exfalso; cbn [unwrapping_tools In] in Hname;
           intuition discriminate);
      clear Hname;
      lazymatch goal with
      | |- context [update_contact args] =>
          unfold update_contact in *;
          destruct (List.length (update_contact_defaultFields args) =? 0)%nat;
          [ exfalso; apply Hsent; reflexivity | eexists; eexists; reflexivity ]
      | |- _ =>
          unfold send_text, get_message, create_contact, get_contact, get_call,
            get_call_recordings, get_call_summary, get_call_transcription,
            get_voicemail, list_phone_numbers, get_phone_number, list_users,
            get_user, get_contact_custom_fields, list_webhooks, get_by;
          eexists; eexists; reflexivity
      end. }
  destruct Hshape as (p & o & Hh). rewrite Hh, run_then_data. cbn [snd].
  rewrite (quoFetch_ok w ms res p o boot Hw Hms Hok).
  split.
  - intros [Hst | (v & Hread & Hv & Hnn & Hdata)].
    + rewrite Hst. reflexivity.
    + destruct (status res =? 204); [reflexivity |].
      unfold json_outcome. rewrite Hread, Hv, Hnn, Hdata. reflexivity.
  - intros Hst Hread Hv. apply Z.eqb_neq in Hst. rewrite Hst.
    unfold json_outcome. rewrite Hread, Hv. reflexivity.
Qed.

(** C2, as amended.  Of the seven list tools, [list_messages],
    [list_conversations], [list_contacts] and [list_calls] declare both
    [maxResults] and [pageToken] and return the pretty-printed text of the
    whole value of the response body; [list_phone_numbers], [list_users]
    and [list_webhooks] declare neither parameter and return the text of
    the [data] property of that value only.  The response is one with a
    status in 200-299 other than 204 that [fetch] delivers before the timer
    of the gateway fires and whose body is read to its end and parses. *)
Theorem list_tools_pagination (t : tool) :
  In t tools ->
  In (tool_name t) list_tools ->
  (In (tool_name t)
      ["list_messages"; "list_conversations"; "list_contacts"; "list_calls"]
   /\ declares t "maxResults" = true
   /\ declares t "pageToken" = true
   /\ forall (args : value) (w : remote) (ms : Z) (res : response) (v : value),
        answers w ms res -> ms <= setTimeout_delay HTTP_TIMEOUT_MS ->
        ok res = true -> status res <> 204 ->
        body_failure res = None ->
        JSON_parse (body_text res) = Parsed v ->
        snd (run w (handler t args) boot)
        = inr {| content := [text_block (JSON.stringify_2 v)];
                 isError := false |})
  \/
  (In (tool_name t) ["list_phone_numbers"; "list_users"; "list_webhooks"]
   /\ declares t "maxResults" = false
   /\ declares t "pageToken" = false
   /\ forall (args : value) (w : remote) (ms : Z) (res : response) (v : value),
        answers w ms res -> ms <= setTimeout_delay HTTP_TIMEOUT_MS ->
        ok res = true -> status res <> 204 ->
        body_failure res = None ->
        JSON_parse (body_text res) = Parsed v ->
        Js.nullish v = false ->
        snd (run w (handler t args) boot)
        = inr {| content := [text_block (JSON.stringify_2 (Js.get_opt v "data"))];
                 isError := false |}).
Proof.
  intros Hin Hname.
  each_tool Hin; cbn [tool_name] in Hname;
    try (exfalso; cbn [list_tools In] in Hname; intuition discriminate);
    cbn [handler tool_name].
  1-4: left; split; [cbn [In]; intuition | split; [reflexivity | split; [reflexivity |]]];
    intros args w ms res v Hw Hms Hok Hst Hread Hv;
    match goal with
    | |- snd (run _ ?h _) = _ => unfold list_messages, list_conversations,
                                  list_contacts, list_calls
    end;
    rewrite run_then_ret; cbn [snd];
    rewrite (quoFetch_parsed w ms res v _ _ boot Hw Hms Hok Hst Hread Hv);
    reflexivity.
  all: right; split; [cbn [In]; intuition | split; [reflexivity | split; [reflexivity |]]];
    intros args w ms res v Hw Hms Hok Hst Hread Hv Hnn;
    unfold list_phone_numbers, list_users, list_webhooks;
    rewrite run_then_data; cbn [snd];
    rewrite (quoFetch_parsed w ms res v _ _ boot Hw Hms Hok Hst Hread Hv), Hnn;
    reflexivity.
Qed.

(** *** Failures of the gateway *)

Lemma includes_app_r (p a b : string) :
  Str.includes p b = true -> Str.includes p (a ++ b) = true.
Proof.
  intro H. induction a as [| c a IH]; cbn [String.append Str.includes].
  - exact H.
  - rewrite IH. destruct (Str.startsWith p (String c (a ++ b))); reflexivity.
Qed.

Lemma run_try_catch (A : Type) (w : remote) (m : prog A)
      (h : js_error -> prog A) (s : runtime) :
  run w (try_catch m h) s =
  match run w m s with
  | (s', inl e) => run w (h e) s'
  | (s', inr a) => (s', inr a)
  end.
Proof.
  revert s.
  induction m as [a | e | X e k IH]; intro s; simpl.
  - reflexivity.
  - reflexivity.
  - destruct (step w e s) as [s' x]. apply IH.
Qed.

Lemma dispatch_get_contact (id : string) :
  dispatch "get_contact" (JObj [("id", JStr id)])
  = try_catch (get_contact (JObj [("id", JStr id)]))
              (fun error => Ret (error_result (message error))).
Proof. reflexivity. Qed.

(** C5, as amended.  For a response with a status outside 200-299 whose
    body is read to its end before the timer of the gateway fires,
    [quoFetch] fails with an error whose message is the redaction of the
    status line followed by the redacted detail.  The detail is
    [No response body] for an empty body; the raw body when it does not
    parse; otherwise, in this order, the [message], [error.message] or
    [error] property of the parsed value when it is a string with a
    character that is not white space, and the raw body when none is.
    When the status line with the redacted detail holds neither the key
    nor a match of the Authorization pattern the message is that text
    itself; so a 404 with the body of the example makes [get_contact] an
    error result whose text holds 404 and Contact not found. *)
Theorem http_failure_message (w : remote) (ms : Z) (res : response)
        (path : string) (o : options) (s : runtime) :
  answers w ms res ->
  ms <= setTimeout_delay HTTP_TIMEOUT_MS ->
  ms + body_ms res <= setTimeout_delay HTTP_TIMEOUT_MS ->
  body_failure res = None ->
  ok res = false ->
  let detail := extractErrorMessage (body_text res) in
  let line := "Quo API " ++ Str.of_Z (status res) ++ " " ++ statusText res
                ++ ": " ++ redact_text detail in
  snd (run w (quoFetch path o) s) = inl (new_Error (redact_text line))
  /\ (body_text res = EmptyString -> detail = "No response body")
  /\ (forall msg : string,
        body_text res <> EmptyString ->
        JSON_parse (body_text res) = SyntaxError msg ->
        detail = body_text res)
  /\ (forall parsed : value,
        body_text res <> EmptyString ->
        JSON_parse (body_text res) = Parsed parsed ->
        detail =
        match nonblank (Js.get_opt parsed "message"),
              nonblank (Js.get_opt (Js.get_opt parsed "error") "message"),
              nonblank (Js.get_opt parsed "error") with
        | Some m, _, _ => m
        | None, Some m, _ => m
        | None, None, Some m => m
        | None, None, None => body_text res
        end)
  /\ (Str.includes API_KEY line = false ->
      AuthPattern.has_match line = false ->
      snd (run w (quoFetch path o) s) = inl (new_Error line))
  /\ (forall id : string,
        status res = 404 ->
        JSON_parse (body_text res)
        = Parsed (JObj [("message", JStr "Contact not found")]) ->
        body_text res <> EmptyString ->
        Str.includes API_KEY line = false ->
        AuthPattern.has_match line = false ->
        Str.includes API_KEY "Contact not found" = false ->
        exists t : string,
          snd (run w (dispatch "get_contact" (JObj [("id", JStr id)])) boot)
          = inr {| content := [text_block (Some t)]; isError := true |}
          /\ Str.includes "404" t = true
          /\ Str.includes "Contact not found" t = true).
Proof.
  intros Hw Hms Hbody Hread Hok detail line.
  assert (Hrun : forall p o' s',
             snd (run w (quoFetch p o') s') = inl (new_Error (redact_text line))).
  { intros p o' s'. rewrite (quoFetch_not_ok w p o' s' res); rewrite ?Hw; auto. }
  split; [apply Hrun |].
  split.
  { intro He. subst detail. unfold extractErrorMessage. rewrite He. reflexivity. }
  split.
  { intros msg Hne Hp. subst detail. unfold extractErrorMessage.
    apply String.eqb_neq in Hne. rewrite Hne, Hp. reflexivity. }
  split.
  { intros parsed Hne Hp. subst detail. unfold extractErrorMessage.
    apply String.eqb_neq in Hne. rewrite Hne, Hp.
    destruct (nonblank (Js.get_opt parsed "message")); [reflexivity |].
    destruct (nonblank (Js.get_opt (Js.get_opt parsed "error") "message"));
      [reflexivity |].
    destruct (nonblank (Js.get_opt parsed "error")); reflexivity. }
  split.
  { intros Hkey Hauth. rewrite Hrun, (redact_text_unmatched line Hkey Hauth).
    reflexivity. }
  intros id Hst Hp Hne Hkey Hauth Hkey'.
  assert (Hdetail : detail = "Contact not found").
  { subst detail. unfold extractErrorMessage.
    apply String.eqb_neq in Hne. rewrite Hne, Hp. reflexivity. }
  exists line. split; [| split].
  - rewrite dispatch_get_contact, run_try_catch.
    unfold get_contact, get_by.
    rewrite run_then_data.
    rewrite Hrun, (redact_text_unmatched line Hkey Hauth). reflexivity.
  - subst line. rewrite Hst. reflexivity.
  - subst line. rewrite Hdetail.
    rewrite (redact_text_clean "Contact not found" Hkey' eq_refl).
    do 5 apply includes_app_r. reflexivity.
Qed.

Lemma find_tool_In (name_ : string) (t : tool) :
  find_tool name_ = Some t -> In t tools.
Proof.
  unfold find_tool. intro H. apply find_some in H. exact (proj1 H).
Qed.

Lemma includes_prefix (p s : string) : Str.includes p (p ++ s) = true.
Proof.
  assert (H : Str.startsWith p (p ++ s) = true).
  { induction p as [| c p IH]; cbn [String.append Str.startsWith].
    - reflexivity.
    - rewrite Ascii.eqb_refl. exact IH. }
  destruct p; cbn [String.append Str.includes] in *.
  - destruct s; reflexivity.
  - cbn [String.append] in H. rewrite H. reflexivity.
Qed.

(** The message of a timeout states the configured duration. *)
Lemma timeout_message_states_duration :
  Str.includes (Str.of_Z HTTP_TIMEOUT_MS) timeout_message = true.
Proof.
  unfold timeout_message. apply includes_app_r.
  cbn [Js.String_]. apply includes_prefix.
Qed.

(** *** The timeout message is not the message of an HTTP failure *)

Lemma of_Z_head (n : Z) :
  exists (c : ascii) (s : string),
    Str.of_Z n = String c s /\ Ascii.eqb c "r" = false.
Proof.
  unfold Str.of_Z, NilZero.string_of_int, NilZero.string_of_uint.
  destruct (Z.to_int n) as [d | d].
  - destruct d; eexists; eexists; split; reflexivity.
  - eexists; eexists; split; reflexivity.
Qed.

Lemma take_take_app (n g : nat) (s y : string) :
  (n <= g)%nat -> Str.take n (Str.take g s ++ y) = Str.take n (s ++ y).
Proof.
  revert g s.
  induction n as [| n IH]; intros g s Hle.
  - reflexivity.
  - destruct g as [| g]; [lia |].
    destruct s as [| c s]; cbn [Str.take String.append].
    + reflexivity.
    + f_equal. apply IH. lia.
Qed.

Lemma take_app_short (n : nat) (s y z : string) :
  (n <= String.length s)%nat -> Str.take n (s ++ y) = Str.take n (s ++ z).
Proof.
  revert s.
  induction n as [| n IH]; intros s Hle.
  - reflexivity.
  - destruct s as [| c s]; cbn [String.length] in Hle; [lia |].
    cbn [Str.take String.append]. f_equal. apply IH. lia.
Qed.

Lemma startsWith_ci_length (p s : string) :
  AuthPattern.startsWith_ci p s = true -> (String.length p <= String.length s)%nat.
Proof.
  revert s.
  induction p as [| a p IH]; intros s H; cbn [String.length].
  - lia.
  - destruct s as [| b s]; cbn [AuthPattern.startsWith_ci] in H; [discriminate |].
    apply andb_prop in H. destruct H as [_ H].
    apply IH in H. cbn [String.length]. lia.
Qed.

(** Group 1 of a match holds at least the word and the colon, and lies
    within the text. *)
Lemma match_at_group (s : string) (g n : nat) :
  AuthPattern.match_at s = Some (g, n) -> (14 <= g)%nat.
Proof.
  unfold AuthPattern.match_at.
  destruct (AuthPattern.startsWith_ci "authorization" s); [| discriminate].
  destruct (Str.drop _ (Str.drop _ (Str.drop 13 s))) as [| c s4]; [discriminate |].
  destruct (Str.code c =? 58)%nat; [| discriminate].
  destruct (_ =? 0)%nat; [discriminate |].
  intro H. inversion H. lia.
Qed.

Lemma match_at_word (s : string) (g n : nat) :
  AuthPattern.match_at s = Some (g, n) ->
  AuthPattern.startsWith_ci "authorization" s = true.
Proof.
  unfold AuthPattern.match_at.
  destruct (AuthPattern.startsWith_ci "authorization" s); [reflexivity | discriminate].
Qed.

Lemma append_empty (s : string) : s ++ EmptyString = s.
Proof.
  induction s as [| c s IH]; cbn [String.append]; [reflexivity | rewrite IH; reflexivity].
Qed.

(** The second replacement leaves the first thirteen characters of a text
    as they are: a match keeps its group 1, which is longer. *)
Lemma auth_replace_take (n : nat) (s : string) :
  (n <= 13)%nat ->
  Str.take n (AuthPattern.replace s) = Str.take n s.
Proof.
  unfold AuthPattern.replace. revert n.
  induction s as [| c s IH]; intros n Hn.
  - reflexivity.
  - cbn [AuthPattern.replace_from].
    destruct (AuthPattern.match_at (String c s)) as [[g v] |] eqn:Hm.
    + pose proof (match_at_group _ _ _ Hm) as Hg.
      pose proof (startsWith_ci_length _ _ (match_at_word _ _ _ Hm)) as Hlen.
      cbn [String.length] in Hlen.
      rewrite take_take_app by lia.
      rewrite (take_app_short n (String c s) _ EmptyString)
        by (cbn [String.length]; lia).
      rewrite append_empty. reflexivity.
    + destruct n as [| n]; [reflexivity |].
      cbn [Str.take]. f_equal. apply IH. lia.
Qed.

(** The first replacement on a status line: the ninth character of the
    result is a star or the first character of the status, never the
    letter of the timeout message. *)
Lemma key_replace_status_line (key : string) (d : ascii) (rest : string) :
  Ascii.eqb d "r" = false ->
  Str.take 9 (Str.replace key "***REDACTED_API_KEY***" ("Quo API " ++ String d rest))
  <> "Quo API r".
Proof.
  intro Hd. cbn [String.append].
  do 9 (cbn [Str.replace];
        match goal with
        | |- context [Str.startsWith key ?x] =>
            destruct (Str.startsWith key x);
              [cbn [String.append Str.take]; discriminate |]
        end).
  cbn [Str.take]. intro H. inversion H. subst d. discriminate Hd.
Qed.

(** No status line passes the redactor as the timeout message. *)
Lemma status_line_is_not_a_timeout (n : Z) (tail_ : string) :
  redact_text ("Quo API " ++ Str.of_Z n ++ tail_) <> timeout_message.
Proof.
  destruct (of_Z_head n) as (d & s & Hn & Hd).
  rewrite Hn. intro H.
  apply (f_equal (Str.take 9)) in H.
  unfold redact_text in H. rewrite auth_replace_take in H by lia.
  cbn [String.append] in H.
  apply (key_replace_status_line API_KEY d (s ++ tail_) Hd).
  cbn [String.append]. rewrite H. reflexivity.
Qed.

(** A response that arrives in time and whose body is read to its end
    never fails with the timeout message: only an abort, or a failure of
    the transport that itself carries that name or text, does. *)
Lemma response_is_not_a_timeout (w : remote) (ms : Z) (res : response)
      (path : string) (o : options) (s : runtime) :
  answers w ms res ->
  ms <= setTimeout_delay HTTP_TIMEOUT_MS ->
  (ok res = false -> ms + body_ms res <= setTimeout_delay HTTP_TIMEOUT_MS) ->
  body_failure res = None ->
  snd (run w (quoFetch path o) s) <> inl (new_Error timeout_message).
Proof.
  intros Hw Hms Hbody Hread.
  destruct (ok res) eqn:Hok.
  - rewrite (quoFetch_ok w ms res path o s Hw Hms Hok).
    destruct (status res =? 204); [discriminate |].
    unfold json_outcome. rewrite Hread.
    destruct (JSON_parse (body_text res)); discriminate.
  - rewrite (quoFetch_not_ok w path o s res); rewrite ?Hw; auto.
    intro H. inversion H as [Hmsg].
    exact (status_line_is_not_a_timeout _ _ Hmsg).
Qed.

(** ** Further properties of the code *)

(** *** Start-up *)

Lemma trimStart_spaces (ws s : string) :
  Str.all_space ws = true ->
  Startup.trimStart (ws ++ s) = Startup.trimStart s.
Proof.
  induction ws as [| c ws IH]; cbn [Str.all_space String.append]; intro H.
  - reflexivity.
  - apply andb_prop in H. destruct H as [Hc Hws].
    cbn [Startup.trimStart]. rewrite Hc. apply IH, Hws.
Qed.

Lemma digits_span (d : Decimal.uint) (tail_ : string) :
  AuthPattern.span Startup.is_digit (NilEmpty.string_of_uint d ++ tail_)
  = (String.length (NilEmpty.string_of_uint d)
     + AuthPattern.span Startup.is_digit tail_)%nat.
Proof.
  induction d; cbn [NilEmpty.string_of_uint String.append String.length];
    [reflexivity | ..];
    cbn [AuthPattern.span];
    match goal with
    | |- context [Startup.is_digit ?c] =>
        change (Startup.is_digit c) with true
    end;
    cbn iota; rewrite IHd; reflexivity.
Qed.

Lemma take_whole (x y : string) : Str.take (String.length x) (x ++ y) = x.
Proof.
  induction x as [| c x IH]; cbn [String.length String.append Str.take].
  - destruct y; reflexivity.
  - rewrite IH. reflexivity.
Qed.

Lemma to_double_exact (m : Z) :
  m < 2 ^ 53 -> Startup.to_double m = Some m.
Proof.
  intro H. unfold Startup.to_double.
  apply Z.ltb_lt in H. rewrite H. reflexivity.
Qed.

(** The digits [String] writes for a number that is not zero and below
    2^53 are read back by [parseInt] as that number. *)
Lemma parse_digits (d : Decimal.uint) (tail_ : string) (sg : Z) :
  d <> Decimal.Nil ->
  Z.of_uint d < 2 ^ 53 ->
  AuthPattern.span Startup.is_digit tail_ = 0%nat ->
  let s1 := NilEmpty.string_of_uint d ++ tail_ in
  let digits := Str.take (AuthPattern.span Startup.is_digit s1) s1 in
  match digits with
  | EmptyString => None
  | String _ _ =>
      match NilEmpty.uint_of_string digits with
      | Some d' =>
          match Startup.to_double (Z.of_uint d') with
          | Some x => Some (sg * x)
          | None => None
          end
      | None => None
      end
  end = Some (sg * Z.of_uint d).
Proof.
  intros Hd Hsmall Htail s1 digits. subst digits s1.
  rewrite digits_span, Htail, Nat.add_0_r, take_whole.
  rewrite (NilEmpty.usu d), (to_double_exact _ Hsmall).
  destruct d; try congruence; reflexivity.
Qed.

Lemma digits_head (d : Decimal.uint) :
  d <> Decimal.Nil ->
  exists (c : ascii) (r : string),
    NilEmpty.string_of_uint d = String c r /\ Startup.is_digit c = true.
Proof.
  intro Hd. destruct d; [congruence | ..];
    eexists; eexists; split; reflexivity.
Qed.

Lemma digit_is_plain (c : ascii) :
  Startup.is_digit c = true ->
  Str.is_space c = false
  /\ (Str.code c =? 45)%nat = false
  /\ (Str.code c =? 43)%nat = false.
Proof.
  destruct c as [[] [] [] [] [] [] [] []]; intro H;
    try discriminate H; repeat split.
Qed.

Lemma parseInt_unsigned (d : Decimal.uint) (tail_ : string) :
  d <> Decimal.Nil ->
  Z.of_uint d < 2 ^ 53 ->
  AuthPattern.span Startup.is_digit tail_ = 0%nat ->
  Startup.parseInt (NilEmpty.string_of_uint d ++ tail_) = Some (Z.of_uint d).
Proof.
  intros Hd Hsmall Htail. unfold Startup.parseInt.
  destruct (digits_head d Hd) as (c & r & Hs & Hc).
  destruct (digit_is_plain c Hc) as (Hsp & Hminus & Hplus).
  rewrite Hs. cbn [String.append Startup.trimStart]. rewrite Hsp.
  cbn [Startup.sign]. rewrite Hminus, Hplus.
  change (String c (r ++ tail_)) with (String c r ++ tail_).
  rewrite <- Hs, (parse_digits d tail_ 1 Hd Hsmall Htail).
  f_equal; lia.
Qed.

Lemma parseInt_negated (d : Decimal.uint) (tail_ : string) :
  d <> Decimal.Nil ->
  Z.of_uint d < 2 ^ 53 ->
  AuthPattern.span Startup.is_digit tail_ = 0%nat ->
  Startup.parseInt (String "-" (NilEmpty.string_of_uint d ++ tail_))
  = Some (- Z.of_uint d).
Proof.
  intros Hd Hsmall Htail. unfold Startup.parseInt.
  cbn [Startup.trimStart].
  change (Str.is_space "-") with false. cbn iota.
  cbn [Startup.sign].
  change (Str.code "-" =? 45)%nat with true. cbn iota.
  rewrite (parse_digits d tail_ (-1) Hd Hsmall Htail).
  f_equal; lia.
Qed.

(** [parseInt] reads back what [String] prints for an integer that is a
    double, whatever white space comes before and whatever text that does
    not start with a digit comes after. *)
Lemma parseInt_decimal (ws : string) (n : Z) (tail_ : string) :
  Str.all_space ws = true ->
  AuthPattern.span Startup.is_digit tail_ = 0%nat ->
  - 2 ^ 53 < n < 2 ^ 53 ->
  Startup.parseInt (ws ++ Str.of_Z n ++ tail_) = Some n.
Proof.
  intros Hws Htail Hrange.
  assert (Hcore : Startup.parseInt (Str.of_Z n ++ tail_) = Some n).
  { unfold Str.of_Z, NilZero.string_of_int, NilZero.string_of_uint.
    destruct n as [| p | p]; cbn [Z.to_int].
    - change "0" with (NilEmpty.string_of_uint Decimal.zero).
      rewrite parseInt_unsigned;
        [reflexivity | discriminate | reflexivity | exact Htail].
    - pose proof (Unsigned.to_uint_nonnil p) as Hnn.
      pose proof (Unsigned.of_to p) as Hof.
      assert (Hval : Z.of_uint (Pos.to_uint p) = Z.pos p)
        by (unfold Z.of_uint; rewrite Hof; reflexivity).
      destruct (Pos.to_uint p) eqn:Hd; [congruence | ..];
        rewrite <- Hd in *;
        rewrite parseInt_unsigned by (try assumption; rewrite Hval; lia);
        rewrite Hval; reflexivity.
    - pose proof (Unsigned.to_uint_nonnil p) as Hnn.
      pose proof (Unsigned.of_to p) as Hof.
      assert (Hval : Z.of_uint (Pos.to_uint p) = Z.pos p)
        by (unfold Z.of_uint; rewrite Hof; reflexivity).
      destruct (Pos.to_uint p) eqn:Hd; [congruence | ..];
        rewrite <- Hd in *; cbn [String.append];
        rewrite parseInt_negated by (try assumption; rewrite Hval; lia);
        rewrite Hval; reflexivity. }
  unfold Startup.parseInt in *.
  rewrite (trimStart_spaces ws _ Hws). exact Hcore.
Qed.

(** X1.  A timeout variable that holds, after optional white space, the
    decimal digits of an integer [n] of magnitude below 2^53, where every
    integer is a double, and then any text that does not start with a
    digit is read as [n]: with a non-empty key the start-up goes on with
    that timeout when [n] is at least 1000 and stops with the diagnostic
    otherwise. *)
Theorem startup_reads_decimal (key ws tail_ : string) (n : Z) :
  key <> EmptyString ->
  Str.all_space ws = true ->
  AuthPattern.span Startup.is_digit tail_ = 0%nat ->
  - 2 ^ 53 < n < 2 ^ 53 ->
  Startup.startup (Some key) (Some (ws ++ Str.of_Z n ++ tail_))
  = if n <? 1000
    then Startup.Exit "QUO_HTTP_TIMEOUT_MS must be a number >= 1000"
    else Startup.Configured key n.
Proof.
  intros Hkey Hws Htail Hrange. unfold Startup.startup.
  apply String.eqb_neq in Hkey. rewrite Hkey.
  rewrite (parseInt_decimal ws n tail_ Hws Htail Hrange). reflexivity.
Qed.

(** X2.  The start-up goes on only with a key that is set and not empty
    and with a timeout of at least 1000 that [parseInt] read from the
    variable, or from the default text when the variable is not set. *)
Theorem startup_guards (k t : option string) (key : string) (ms : Z) :
  Startup.startup k t = Startup.Configured key ms ->
  k = Some key
  /\ key <> EmptyString
  /\ 1000 <= ms
  /\ Startup.parseInt (match t with Some s => s | None => "30000" end) = Some ms.
Proof.
  unfold Startup.startup. intro H.
  destruct k as [k0 |]; [| discriminate].
  destruct (String.eqb_spec k0 EmptyString) as [| Hne]; [discriminate |].
  destruct (Startup.parseInt _) as [n |]; [| discriminate].
  destruct (Z.ltb_spec n 1000); [discriminate |].
  inversion H; subst. repeat split; try assumption.
Qed.

(** X3.  The default of 30000 applies only when the timeout variable is
    not set: a variable that is set to a text without a number at its
    start, the empty text included, stops the start-up. *)
Theorem startup_without_number (key s : string) :
  key <> EmptyString ->
  AuthPattern.span Startup.is_digit (snd (Startup.sign (Startup.trimStart s))) = 0%nat ->
  Startup.startup (Some key) (Some s)
  = Startup.Exit "QUO_HTTP_TIMEOUT_MS must be a number >= 1000"
  /\ Startup.startup (Some key) None = Startup.Configured key 30000.
Proof.
  intros Hkey Hspan. unfold Startup.startup.
  apply String.eqb_neq in Hkey. rewrite Hkey.
  split; [| reflexivity].
  unfold Startup.parseInt.
  destruct (Startup.sign (Startup.trimStart s)) as [sg s1].
  cbn [snd] in Hspan. rewrite Hspan. reflexivity.
Qed.


(** *** The gateway, whatever the remote side does *)

(** The three shapes of a registered handler: a result returned at once,
    a result made from what the gateway returns, and a result made from
    the [data] of what the gateway returns. *)
Lemma handler_cases (t : tool) (args : value) :
  In t tools ->
  (tool_name t = "update_contact"
   /\ handler t args = Ret (jsonToolResponse update_contact_no_fields true))
  \/ (exists (p : string) (o : options) (f : value -> option string),
        handler t args = (result <- quoFetch p o ;; Ret (success (f result))))
  \/ (exists (p : string) (o : options),
        handler t args
        = (result <- quoFetch p o ;;
           data <- get result "data" ;;
           Ret (success (JSON.stringify_2 data)))).
Proof.
  intro Hin.
  each_tool Hin; cbn [handler tool_name];
    lazymatch goal with
    | |- context [update_contact args] =>
        unfold update_contact;
        destruct (List.length (update_contact_defaultFields args) =? 0)%nat;
        [ left; split; reflexivity
        | right; right; eexists; eexists; reflexivity ]
    | |- context [delete_contact args] =>
        right; left; unfold delete_contact;
        exists ("/contacts/" ++ Js.String_ (Js.arg args "id")),
               {| method := "DELETE"; body := JUndefined; params := JUndefined |},
               (fun _ => Some ("Contact " ++ Js.String_ (Js.arg args "id") ++ " deleted."));
        reflexivity
    | |- context [list_messages args] =>
        right; left; unfold list_messages; eexists; eexists;
        exists JSON.stringify_2; reflexivity
    | |- context [list_conversations args] =>
        right; left; unfold list_conversations; eexists; eexists;
        exists JSON.stringify_2; reflexivity
    | |- context [list_contacts args] =>
        right; left; unfold list_contacts; eexists; eexists;
        exists JSON.stringify_2; reflexivity
    | |- context [list_calls args] =>
        right; left; unfold list_calls; eexists; eexists;
        exists JSON.stringify_2; reflexivity
    | |- _ =>
        right; right;
        unfold send_text, get_message, create_contact, get_contact, get_call,
          get_call_recordings, get_call_summary, get_call_transcription,
          get_voicemail, list_phone_numbers, get_phone_number, list_users,
          get_user, get_contact_custom_fields, list_webhooks, get_by;
        eexists; eexists; reflexivity
    end.
Qed.

(** X4.  Whatever the remote side does and however the call ends, the
    gateway leaves the abort timer cleared and has sent exactly one
    request, the one built from its arguments: the [finally] clause runs
    on every path, and nothing is retried. *)
Theorem quoFetch_clears_timer_and_sends_once (w : remote) (path : string)
        (o : options) (s : runtime) :
  abort_at (fst (run w (quoFetch path o) s)) = None
  /\ outbound (fst (run w (quoFetch path o) s))
     = (outbound s ++ [request_of path o])%list.
Proof.
  unfold quoFetch. simpl.
  case_fires; simpl; [split; reflexivity |].
  destruct (fetch_outcome (w (request_of path o))) as [err | res]; simpl.
  - unfold quoFetch_catch.
    destruct (String.eqb (name err) "AbortError"); split; reflexivity.
  - destruct (ok res); simpl.
    + destruct (status res =? 204); simpl; [split; reflexivity |].
      destruct (body_failure res); [split; reflexivity |].
      destruct (JSON_parse (body_text res)); split; reflexivity.
    + case_fires; [split; reflexivity |].
      destruct (body_failure res) as [failure |]; simpl; [| split; reflexivity].
      unfold quoFetch_catch.
      destruct (String.eqb (name failure) "AbortError"); split; reflexivity.
Qed.

(** X5.  A failure that leaves the gateway is of one of two kinds.  Either
    it is a plain [Error] whose message is the timeout message or a text
    that has passed the redactor; or the response had a status in 200-299
    other than 204 and the failure is what the promise of [res.json()]
    rejects with, as it is: the failure of a connection that breaks while
    the body is read, with its own name, or the [SyntaxError] of the
    engine for a body that [JSON.parse] rejects.  The message of a failure
    of the second kind has not passed the redactor. *)
Theorem quoFetch_failure_kinds (w : remote) (path : string) (o : options)
        (s : runtime) (e : js_error) :
  snd (run w (quoFetch path o) s) = inl e ->
  (name e = "Error"
   /\ (message e = timeout_message
       \/ exists raw : string, message e = redact_text raw))
  \/ (exists res : response,
        fetch_outcome (w (request_of path o)) = inr res
        /\ ok res = true
        /\ status res <> 204
        /\ (body_failure res = Some e
            \/ exists msg : string,
                 body_failure res = None
                 /\ JSON_parse (body_text res) = SyntaxError msg
                 /\ e = {| name := "SyntaxError"; message := msg |})).
Proof.
  unfold quoFetch. simpl.
  case_fires; simpl.
  { intro H. inversion H. left. split; [reflexivity | left; reflexivity]. }
  destruct (fetch_outcome (w (request_of path o))) as [err | res]; simpl.
  - unfold quoFetch_catch.
    destruct (String.eqb (name err) "AbortError"); simpl;
      intro H; inversion H; left; (split; [reflexivity |]).
    + left; reflexivity.
    + right. exists (message err). reflexivity.
  - destruct (ok res) eqn:Hok; simpl.
    + destruct (Z.eqb_spec (status res) 204) as [Hst | Hst]; simpl;
        [discriminate |].
      destruct (body_failure res) as [failure |] eqn:Hread; simpl.
      { intro H. inversion H. subst. right. exists res. auto. }
      destruct (JSON_parse (body_text res)) as [v | msg] eqn:Hp; simpl;
        [discriminate |].
      intro H. inversion H. right. exists res.
      repeat split; try assumption. right. exists msg. auto.
    + case_fires; simpl.
      { intro H. inversion H. left. split; [reflexivity | left; reflexivity]. }
      destruct (body_failure res) as [failure |]; simpl.
      * unfold quoFetch_catch.
        destruct (String.eqb (name failure) "AbortError"); simpl;
          intro H; inversion H; left; (split; [reflexivity |]).
        -- left; reflexivity.
        -- right. exists (message failure). reflexivity.
      * intro H. inversion H. left. split; [reflexivity |].
        right. eexists. reflexivity.
Qed.

(** X6.  A response with a status outside 200-299 whose body is still
    being read when the timer fires is reported as a timeout: the status
    line that has already arrived is not part of the failure.  The timer
    fires after the delay [setTimeout] makes of the configured timeout,
    which is the timeout itself between 1 and [TIMEOUT_MAX]. *)
Theorem slow_error_body_is_a_timeout (w : remote) (ms : Z) (res : response)
        (path : string) (o : options) (s : runtime) :
  answers w ms res ->
  ok res = false ->
  setTimeout_delay HTTP_TIMEOUT_MS < ms + body_ms res ->
  run w (quoFetch path o) s
  = (after s (clock s + setTimeout_delay HTTP_TIMEOUT_MS) (request_of path o),
     inl (new_Error timeout_message)).
Proof.
  intros Hw Hok Hslow.
  destruct (Z.le_gt_cases ms (setTimeout_delay HTTP_TIMEOUT_MS)) as [Hms | Hms].
  - apply (quoFetch_not_ok_aborted w path o s res); rewrite ?Hw; auto.
  - apply (quoFetch_fetch_aborted w path o s). rewrite Hw. exact Hms.
Qed.

(** *** Every registered handler *)

(** What a handler of each shape leaves behind and returns, in terms of
    the one call of the gateway it makes. *)
Lemma run_handler_cases (t : tool) (args : value) (w : remote) (s : runtime) :
  In t tools ->
  (tool_name t = "update_contact"
   /\ run w (handler t args) s
      = (s, inr (jsonToolResponse update_contact_no_fields true)))
  \/ (exists (p : string) (o : options) (f : value -> option string),
        run w (handler t args) s
        = (fst (run w (quoFetch p o) s),
           match snd (run w (quoFetch p o) s) with
           | inl e => inl e
           | inr result => inr (success (f result))
           end))
  \/ (exists (p : string) (o : options),
        run w (handler t args) s
        = (fst (run w (quoFetch p o) s),
           match snd (run w (quoFetch p o) s) with
           | inl e => inl e
           | inr result =>
               if Js.nullish result then inl (TypeError_read result "data")
               else inr (success (JSON.stringify_2 (Js.get_opt result "data")))
           end)).
Proof.
  intro Hin.
  destruct (handler_cases t args Hin)
    as [[Hn Hh] | [(p & o & f & Hh) | (p & o & Hh)]]; rewrite Hh.
  - left. split; [exact Hn | reflexivity].
  - right; left. exists p, o, f.
    apply (run_then_ret _ _ w (quoFetch p o) (fun x => success (f x)) s).
  - right; right. exists p, o.
    apply (run_then_data _ w (quoFetch p o)
             (fun d => success (JSON.stringify_2 d)) s).
Qed.

(** X7.  Every registered handler sends at most one request per call,
    whatever the remote side does, and each request it sends carries the
    two headers of the gateway: the key as it is under [Authorization],
    and the JSON content type. *)
Theorem handlers_send_at_most_one_request (t : tool) (args : value)
        (w : remote) (s : runtime) :
  In t tools ->
  exists sent : list request,
    outbound (fst (run w (handler t args) s)) = (outbound s ++ sent)%list
    /\ (List.length sent <= 1)%nat
    /\ forall rq : request,
         In rq sent ->
         rq_headers rq = [("Authorization", API_KEY);
                          ("Content-Type", "application/json")].
Proof.
  intro Hin.
  destruct (run_handler_cases t args w s Hin)
    as [[_ Hr] | [(p & o & f & Hr) | (p & o & Hr)]]; rewrite Hr; cbn [fst].
  - exists []. rewrite app_nil_r. split; [reflexivity |].
    split; [cbn; lia | intros rq []].
  - exists [request_of p o]. split; [apply quoFetch_outbound |].
    split; [cbn; lia |].
    intros rq [<- | []]. reflexivity.
  - exists [request_of p o]. split; [apply quoFetch_outbound |].
    split; [cbn; lia |].
    intros rq [<- | []]. reflexivity.
Qed.

(** X8.  Every result a registered handler returns has exactly one text
    block.  The only result with the error flag is the refusal of
    [update_contact], which is returned without any request.  A result
    without the error flag is made from a value the gateway returned in
    this call: no handler turns a failure of the gateway into a result. *)
Theorem handler_results_have_one_text_block (t : tool) (args : value)
        (w : remote) (s : runtime) (r : ToolResult) :
  In t tools ->
  snd (run w (handler t args) s) = inr r ->
  (exists txt : option string, content r = [text_block txt])
  /\ (isError r = true ->
      tool_name t = "update_contact"
      /\ fst (run w (handler t args) s) = s)
  /\ (isError r = false ->
      exists (p : string) (o : options) (v : value),
        fst (run w (handler t args) s) = fst (run w (quoFetch p o) s)
        /\ snd (run w (quoFetch p o) s) = inr v).
Proof.
  intros Hin.
  destruct (run_handler_cases t args w s Hin)
    as [[Hn Hr] | [(p & o & f & Hr) | (p & o & Hr)]]; rewrite Hr; cbn [fst snd].
  - intro H. inversion H. split; [eexists; reflexivity |].
    split; [intros _; split; [exact Hn | reflexivity] | discriminate].
  - destruct (snd (run w (quoFetch p o) s)) as [e | v] eqn:Hq; [discriminate |].
    intro H. inversion H. split; [eexists; reflexivity |].
    split; [discriminate |].
    intros _. exists p, o, v. split; [reflexivity | exact Hq].
  - destruct (snd (run w (quoFetch p o) s)) as [e | v] eqn:Hq; [discriminate |].
    destruct (Js.nullish v); [discriminate |].
    intro H. inversion H. split; [eexists; reflexivity |].
    split; [discriminate |].
    intros _. exists p, o, v. split; [reflexivity | exact Hq].
Qed.

(** X9.  When the remote side does not answer before the timer of the
    gateway fires, every registered handler that sends its request fails
    with the timeout message of the gateway, which states the configured
    duration.  The timer fires after the delay [setTimeout] makes of the
    configured timeout, which is never longer than a timeout of 1 ms or
    more. *)
Theorem handlers_propagate_timeouts (t : tool) (args : value) (w : remote)
        (s : runtime) :
  In t tools ->
  (forall rq : request, setTimeout_delay HTTP_TIMEOUT_MS < fetch_ms (w rq)) ->
  outbound (fst (run w (handler t args) s)) <> outbound s ->
  snd (run w (handler t args) s) = inl (new_Error timeout_message)
  /\ Str.includes (Str.of_Z HTTP_TIMEOUT_MS) timeout_message = true.
Proof.
  intros Hin Hslow Hsent.
  split; [| apply timeout_message_states_duration].
  revert Hsent.
  destruct (run_handler_cases t args w s Hin)
    as [[_ Hr] | [(p & o & f & Hr) | (p & o & Hr)]]; rewrite Hr; cbn [fst snd].
  - intro H. exfalso. apply H. reflexivity.
  - intros _. rewrite (quoFetch_fetch_aborted w p o s (Hslow _)). reflexivity.
  - intros _. rewrite (quoFetch_fetch_aborted w p o s (Hslow _)). reflexivity.
Qed.

(** X10.  When the remote side answers, before the timer of the gateway
    fires, with a status in 200-299 other than 204 and the promise of
    [res.json()] rejects, because the connection breaks while the body is
    read or because [JSON.parse] rejects the body, every registered
    handler that sends its request fails with that failure as it is: its
    message does not pass the redactor. *)
Theorem handlers_propagate_parse_failures (t : tool) (args : value)
        (w : remote) (ms : Z) (res : response) (e : js_error) (s : runtime) :
  In t tools ->
  answers w ms res ->
  ms <= setTimeout_delay HTTP_TIMEOUT_MS ->
  ok res = true ->
  status res <> 204 ->
  (body_failure res = Some e
   \/ exists msg : string,
        body_failure res = None
        /\ JSON_parse (body_text res) = SyntaxError msg
        /\ e = {| name := "SyntaxError"; message := msg |}) ->
  outbound (fst (run w (handler t args) s)) <> outbound s ->
  snd (run w (handler t args) s) = inl e.
Proof.
  intros Hin Hw Hms Hok Hst He.
  assert (Hq : forall p o, snd (run w (quoFetch p o) s) = inl e).
  { intros p o. rewrite (quoFetch_ok w ms res p o s Hw Hms Hok).
    apply Z.eqb_neq in Hst. rewrite Hst. unfold json_outcome.
    destruct He as [Hread | (msg & Hread & Hp & ->)].
    - rewrite Hread. reflexivity.
    - rewrite Hread, Hp. reflexivity. }
  destruct (run_handler_cases t args w s Hin)
    as [[_ Hr] | [(p & o & f & Hr) | (p & o & Hr)]]; rewrite Hr; cbn [fst snd].
  - intro H. exfalso. apply H. reflexivity.
  - intros _. rewrite Hq. reflexivity.
  - intros _. rewrite Hq. reflexivity.
Qed.

(** X11.  When [fetch] rejects, before the timer of the gateway fires,
    with a failure other than an abort, every registered handler that
    sends its request fails with a plain [Error] whose message is the
    redacted message of that failure: its name is not kept. *)
Theorem handlers_propagate_transport_failures (t : tool) (args : value)
        (w : remote) (ms : Z) (err : js_error) (s : runtime) :
  In t tools ->
  (forall rq : request, w rq = {| fetch_ms := ms; fetch_outcome := inl err |}) ->
  ms <= setTimeout_delay HTTP_TIMEOUT_MS ->
  name err <> "AbortError" ->
  outbound (fst (run w (handler t args) s)) <> outbound s ->
  snd (run w (handler t args) s)
  = inl (new_Error (redact_text (message err))).
Proof.
  intros Hin Hw Hms Hname.
  assert (Hq : forall p o, snd (run w (quoFetch p o) s)
                           = inl (new_Error (redact_text (message err)))).
  { intros p o. rewrite (quoFetch_rejected w p o s err); rewrite ?Hw; auto.
    apply String.eqb_neq in Hname. rewrite Hname. reflexivity. }
  destruct (run_handler_cases t args w s Hin)
    as [[_ Hr] | [(p & o & f & Hr) | (p & o & Hr)]]; rewrite Hr; cbn [fst snd].
  - intro H. exfalso. apply H. reflexivity.
  - intros _. rewrite Hq. reflexivity.
  - intros _. rewrite Hq. reflexivity.
Qed.

(** X12.  For every tool whose handler returns [result.data]: when the
    handler has sent its request and the remote side answers, before the
    timer of the gateway fires, with a status in 200-299 other than 204
    and a body that is read to its end and parses to a value other than
    [null], the handler returns a result without the error flag whose one
    text block is the pretty-printed [data] property of that value; the
    rest of the body is dropped. *)
Theorem unwrapping_returns_data (t : tool) (args : value) (w : remote)
        (ms : Z) (res : response) (v : value) (s : runtime) :
  In t tools ->
  In (tool_name t) unwrapping_tools ->
  answers w ms res ->
  ms <= setTimeout_delay HTTP_TIMEOUT_MS ->
  ok res = true ->
  status res <> 204 ->
  body_failure res = None ->
  JSON_parse (body_text res) = Parsed v ->
  Js.nullish v = false ->
  outbound (fst (run w (handler t args) s)) <> outbound s ->
  snd (run w (handler t args) s)
  = inr (success (JSON.stringify_2 (Js.get_opt v "data"))).
Proof.
  intros Hin Hname Hw Hms Hok Hst Hread Hp Hnn Hsent.
  assert (Hunwrap : forall p o,
             snd (run w (result <- quoFetch p o ;;
                         data <- get result "data" ;;
                         Ret (success (JSON.stringify_2 data))) s)
             = inr (success (JSON.stringify_2 (Js.get_opt v "data")))).
  { intros p o. rewrite run_then_data. cbn [snd].
    rewrite (quoFetch_parsed w ms res v p o s Hw Hms Hok Hst Hread Hp), Hnn.
    reflexivity. }
  each_tool Hin; cbn [tool_name] in Hname; cbn [handler] in *;
    try (exfalso; cbn [unwrapping_tools In] in Hname;
         intuition discriminate);
    clear Hname;
    lazymatch goal with
    | |- snd (run _ (update_contact _) _) = _ =>
        unfold update_contact in *;
        destruct (List.length (update_contact_defaultFields args) =? 0)%nat;
        [ exfalso; apply Hsent; reflexivity | exact (Hunwrap _ _) ]
    | |- _ =>
        unfold send_text, get_message, create_contact, get_contact, get_call,
          get_call_recordings, get_call_summary, get_call_transcription,
          get_voicemail, list_phone_numbers, get_phone_number, list_users,
          get_user, get_contact_custom_fields, list_webhooks, get_by;
        exact (Hunwrap _ _)
    end.
Qed.

(** *** The registry *)

(** X13.  The registry holds 21 tools, no two of them under the same
    name, and each is the one the look-up finds under its name. *)
Theorem registered_tools_are_found (t : tool) :
  In t tools ->
  List.length tools = 21%nat
  /\ NoDup (map tool_name tools)
  /\ find_tool (tool_name t) = Some t.
Proof.
  intro Hin.
  split; [reflexivity |].
  split.
  - assert (Hnd : nodup string_dec (map tool_name tools) = map tool_name tools)
      by (vm_compute; reflexivity).
    rewrite <- Hnd. apply NoDup_nodup.
  - each_tool Hin; reflexivity.
Qed.

(** X14.  A handler reads the parameters its schema declares and nothing
    else: two argument objects that agree on the declared names give the
    same program. *)
Theorem handlers_read_declared_parameters (t : tool) (args args' : value) :
  In t tools ->
  (forall k : string, declares t k = true -> Js.arg args k = Js.arg args' k) ->
  handler t args = handler t args'.
Proof.
  intros Hin Hagree.
  each_tool Hin; cbn [handler];
    unfold send_text, list_messages, get_message, list_conversations,
      create_contact, list_contacts, get_contact, update_contact,
      update_contact_defaultFields, delete_contact, list_calls, get_call,
      get_call_recordings, get_call_summary, get_call_transcription,
      get_voicemail, list_phone_numbers, get_phone_number, list_users,
      get_user, get_contact_custom_fields, list_webhooks, get_by;
    repeat match goal with
           | |- context [Js.arg args ?k] => rewrite (Hagree k eq_refl)
           end;
    reflexivity.
Qed.

(** *** Single handlers *)

Lemma assign_defined_filter (o : object) (k : string) (v : value) :
  assign_defined o k v
  = (o ++ filter (fun kv => match snd kv with JUndefined => false | _ => true end)
              [(k, v)])%list.
Proof.
  destruct v; cbn [assign_defined filter snd]; rewrite ?app_nil_r; reflexivity.
Qed.

(** X15.  The body [update_contact] sends holds, under [defaultFields],
    exactly the fields among the six whose argument is not [undefined], in
    the order of the source and with the values as passed, an empty string
    or [null] included; when there is one at least, the handler sends one
    PATCH request with that body to the address of the contact. *)
Theorem update_contact_sends_defined_fields (args : value) (w : remote)
        (s : runtime) :
  let fields :=
    filter (fun kv => match snd kv with JUndefined => false | _ => true end)
      [("firstName", Js.arg args "firstName");
       ("lastName", Js.arg args "lastName");
       ("company", Js.arg args "company");
       ("role", Js.arg args "role");
       ("phoneNumbers", Js.arg args "phoneNumbers");
       ("emails", Js.arg args "emails")] in
  let o := {| method := "PATCH";
              body := JObj [("defaultFields", JObj fields)];
              params := JUndefined |} in
  update_contact_defaultFields args = fields
  /\ (fields <> [] ->
      outbound (fst (run w (update_contact args) s))
      = (outbound s
           ++ [request_of ("/contacts/" ++ Js.String_ (Js.arg args "id")) o])%list
      /\ rq_method (request_of ("/contacts/" ++ Js.String_ (Js.arg args "id")) o)
         = "PATCH"
      /\ rq_body (request_of ("/contacts/" ++ Js.String_ (Js.arg args "id")) o)
         = JSON.stringify (JObj [("defaultFields", JObj fields)])).
Proof.
  intros fields o.
  assert (Hf : update_contact_defaultFields args = fields).
  { unfold update_contact_defaultFields. rewrite !assign_defined_filter.
    cbn [app]. rewrite <- !filter_app. reflexivity. }
  split; [exact Hf |].
  intro Hne. unfold update_contact. rewrite Hf.
  destruct fields as [| kv rest] eqn:E; [contradiction |].
  cbn [List.length Nat.eqb]. rewrite run_then_data. cbn [fst].
  split; [apply quoFetch_outbound |]. split; reflexivity.
Qed.

Lemma filter_head (A : Type) (p : A -> bool) (x : A) (l : list A) :
  filter p (x :: l) = (filter p [x] ++ filter p l)%list.
Proof.
  cbn [filter]. destruct (p x); reflexivity.
Qed.

Lemma spread_if_filter (k : string) (v : value) :
  Js.spread_if v k v = filter (fun kv => Js.truthy (snd kv)) [(k, v)].
Proof.
  unfold Js.spread_if. cbn [filter snd]. destruct (Js.truthy v); reflexivity.
Qed.

(** X16.  The body [create_contact] sends holds, under [defaultFields],
    the first name as passed and then those of the five optional fields
    whose argument is truthy, in the order of the source: an optional field
    passed as the empty string is left out, where [update_contact] sends
    it. *)
Theorem create_contact_sends_truthy_fields (args : value) (w : remote)
        (s : runtime) :
  let fields :=
    ("firstName", Js.arg args "firstName")
    :: filter (fun kv => Js.truthy (snd kv))
         [("lastName", Js.arg args "lastName");
          ("company", Js.arg args "company");
          ("role", Js.arg args "role");
          ("phoneNumbers", Js.arg args "phoneNumbers");
          ("emails", Js.arg args "emails")] in
  let o := {| method := "POST";
              body := JObj [("defaultFields", JObj fields)];
              params := JUndefined |} in
  outbound (fst (run w (create_contact args) s))
  = (outbound s ++ [request_of "/contacts" o])%list
  /\ rq_url (request_of "/contacts" o) = BASE_URL ++ "/contacts"
  /\ rq_method (request_of "/contacts" o) = "POST"
  /\ rq_body (request_of "/contacts" o)
     = JSON.stringify (JObj [("defaultFields", JObj fields)]).
Proof.
  intros fields o.
  assert (Hprog : create_contact args
                  = (result <- quoFetch "/contacts" o ;;
                     data <- get result "data" ;;
                     Ret (success (JSON.stringify_2 data)))).
  { unfold create_contact, o, fields, Js.spread.
    rewrite !spread_if_filter. cbn [List.concat app].
    rewrite app_nil_r, !(filter_head _ _ _ (_ :: _)). reflexivity. }
  rewrite Hprog, run_then_data. cbn [fst].
  split; [apply quoFetch_outbound |]. repeat split.
Qed.

(** X17.  [list_phone_numbers] passes the user identifier as the one
    query entry [userId] when it is a non-empty string, and sends no query
    at all when it is [undefined] or the empty string. *)
Theorem list_phone_numbers_query (args : value) (userId : option string)
        (w : remote) (s : runtime) :
  Js.arg args "userId"
  = match userId with Some u => JStr u | None => JUndefined end ->
  exists rq : request,
    outbound (fst (run w (list_phone_numbers args) s))
    = (outbound s ++ [rq])%list
    /\ rq_method rq = "GET"
    /\ rq_body rq = None
    /\ query_of rq
       = match userId with
         | Some u => if String.eqb u EmptyString then [] else [("userId", u)]
         | None => []
         end.
Proof.
  intro Harg. unfold list_phone_numbers. rewrite Harg.
  eexists. rewrite run_then_data. cbn [fst].
  split; [apply quoFetch_outbound |].
  split; [reflexivity |]. split; [reflexivity |].
  destruct userId as [u |]; cbn [Js.truthy].
  - destruct (String.eqb u EmptyString) eqn:Hu; cbn [negb].
    + apply (request_query "/phone-numbers" _ []); try reflexivity.
      constructor.
    + destruct (request_query "/phone-numbers"
                  {| method := "GET"; body := JUndefined;
                     params := JObj [("userId", JStr u)] |}
                  [("userId", JStr u)]) as [_ Hq]; try reflexivity.
      { repeat constructor. intros []. }
      exact Hq.
  - apply (request_query "/phone-numbers" _ []); try reflexivity.
    constructor.
Qed.

(** X18.  After a response with a status in 200-299 other than 204 that
    [fetch] delivers before the timer of the gateway fires,
    [delete_contact] reports the deletion only when the body is read to
    its end and parses as JSON, whatever value it holds; a body that
    cannot be read or does not parse, an empty one included when the
    engine rejects it, makes the handler fail with that failure although
    the remote side has accepted the request. *)
Theorem delete_contact_needs_a_json_body (args : value) (w : remote) (ms : Z)
        (res : response) (s : runtime) :
  answers w ms res ->
  ms <= setTimeout_delay HTTP_TIMEOUT_MS ->
  ok res = true ->
  status res <> 204 ->
  snd (run w (delete_contact args) s)
  = match body_failure res with
    | Some failure => inl failure
    | None =>
        match JSON_parse (body_text res) with
        | Parsed _ =>
            inr (success
                   (Some ("Contact " ++ Js.String_ (Js.arg args "id") ++ " deleted.")))
        | SyntaxError msg => inl {| name := "SyntaxError"; message := msg |}
        end
    end.
Proof.
  intros Hw Hms Hok Hst.
  unfold delete_contact. rewrite run_then_ret.
  cbn [snd]. rewrite (quoFetch_ok w ms res _ _ s Hw Hms Hok).
  apply Z.eqb_neq in Hst. rewrite Hst. unfold json_outcome.
  destruct (body_failure res); [reflexivity |].
  destruct (JSON_parse (body_text res)); reflexivity.
Qed.

(** *** The redactor *)

Lemma length_app (x y : string) :
  String.length (x ++ y) = (String.length x + String.length y)%nat.
Proof.
  induction x as [| c x IH]; cbn [String.append String.length];
    [reflexivity | rewrite IH; reflexivity].
Qed.

Lemma append_assoc (x y z : string) : (x ++ y) ++ z = x ++ y ++ z.
Proof.
  induction x as [| c x IH]; cbn [String.append];
    [reflexivity | rewrite IH; reflexivity].
Qed.

Lemma startsWith_ci_app (p x y : string) :
  AuthPattern.startsWith_ci p x = true ->
  AuthPattern.startsWith_ci p (x ++ y) = true.
Proof.
  revert x.
  induction p as [| a p IH]; intros x H; [reflexivity |].
  destruct x as [| b x]; cbn [AuthPattern.startsWith_ci] in H; [discriminate |].
  apply andb_prop in H. destruct H as [Hab Hp].
  cbn [String.append AuthPattern.startsWith_ci].
  rewrite Hab, (IH x Hp). reflexivity.
Qed.

Lemma drop_whole (x y : string) : Str.drop (String.length x) (x ++ y) = y.
Proof.
  induction x as [| c x IH]; cbn [String.length String.append Str.drop];
    [reflexivity | exact IH].
Qed.

Lemma span_app (f : ascii -> bool) (x y : string) :
  AuthPattern.span f x = String.length x ->
  AuthPattern.span f y = 0%nat ->
  AuthPattern.span f (x ++ y) = String.length x.
Proof.
  intros Hx Hy.
  induction x as [| c x IH]; cbn [String.append]; [exact Hy |].
  cbn [AuthPattern.span String.length] in Hx |- *.
  destruct (f c); [| discriminate].
  rewrite IH; [reflexivity | lia].
Qed.

Lemma all_space_span (ws : string) :
  Str.all_space ws = true ->
  AuthPattern.span Str.is_space ws = String.length ws.
Proof.
  induction ws as [| c ws IH]; cbn [Str.all_space AuthPattern.span String.length];
    [reflexivity |].
  intro H. apply andb_prop in H. destruct H as [Hc Hws].
  rewrite Hc, (IH Hws). reflexivity.
Qed.

Lemma space_is_no_quote (c : ascii) :
  Str.is_space c = true -> AuthPattern.is_quote c = false.
Proof.
  unfold Str.is_space, AuthPattern.is_quote.
  generalize (Str.code c). intros n H.
  destruct (Nat.eqb_spec n 34) as [-> | _]; [discriminate H |].
  destruct (Nat.eqb_spec n 39) as [-> | _]; [discriminate H |].
  reflexivity.
Qed.

Lemma value_char_is_plain (c : ascii) :
  AuthPattern.is_value_char c = true ->
  AuthPattern.is_quote c = false /\ Str.is_space c = false.
Proof.
  unfold AuthPattern.is_value_char. intro H.
  destruct (AuthPattern.is_quote c); [discriminate |].
  destruct (Str.code c =? 44)%nat; [discriminate |].
  destruct (Str.is_space c); [discriminate |].
  split; reflexivity.
Qed.

(** An optional quote of the text is the one the pattern takes. *)
Lemma opt_quote_app (q rest : string) :
  q = EmptyString \/ q = Str.dq \/ q = "'" ->
  AuthPattern.opt_quote rest = 0%nat ->
  AuthPattern.opt_quote (q ++ rest) = String.length q.
Proof.
  intros [-> | [-> | ->]] Hrest; [exact Hrest | reflexivity | reflexivity].
Qed.

Lemma quote_is_no_space (q rest : string) :
  q = EmptyString \/ q = Str.dq \/ q = "'" ->
  AuthPattern.span Str.is_space rest = 0%nat ->
  AuthPattern.span Str.is_space (q ++ rest) = 0%nat.
Proof.
  intros [-> | [-> | ->]] Hrest; [exact Hrest | reflexivity | reflexivity].
Qed.

Lemma replace_from_skip (x y : string) :
  AuthPattern.replace_from (String.length x) (x ++ y) = AuthPattern.replace y.
Proof.
  induction x as [| c x IH]; cbn [String.length String.append];
    [reflexivity | exact IH].
Qed.

(** The match of the pattern at the start of a header line. *)
Lemma match_at_header (word q1 ws1 ws2 q2 v tail_ : string) :
  String.length word = 13%nat ->
  AuthPattern.startsWith_ci "authorization" word = true ->
  q1 = EmptyString \/ q1 = Str.dq \/ q1 = "'" ->
  Str.all_space ws1 = true ->
  Str.all_space ws2 = true ->
  q2 = EmptyString \/ q2 = Str.dq \/ q2 = "'" ->
  v <> EmptyString ->
  AuthPattern.span AuthPattern.is_value_char v = String.length v ->
  AuthPattern.span AuthPattern.is_value_char tail_ = 0%nat ->
  AuthPattern.match_at (word ++ q1 ++ ws1 ++ ":" ++ ws2 ++ q2 ++ v ++ tail_)
  = Some (String.length (word ++ q1 ++ ws1 ++ ":" ++ ws2 ++ q2), String.length v).
Proof.
  intros Hlen Hword Hq1 Hws1 Hws2 Hq2 Hv Hval Htail.
  destruct v as [| c v']; [contradiction |].
  assert (Hc : AuthPattern.is_value_char c = true).
  { cbn [AuthPattern.span] in Hval.
    destruct (AuthPattern.is_value_char c); [reflexivity | discriminate]. }
  destruct (value_char_is_plain c Hc) as [Hcq Hcs].
  assert (Hv_q : AuthPattern.opt_quote (String c v' ++ tail_) = 0%nat).
  { cbn [String.append AuthPattern.opt_quote]. rewrite Hcq. reflexivity. }
  assert (Hv_s : AuthPattern.span Str.is_space (String c v' ++ tail_) = 0%nat).
  { cbn [String.append AuthPattern.span]. rewrite Hcs. reflexivity. }
  assert (Hws1_q : AuthPattern.opt_quote
                     (ws1 ++ ":" ++ ws2 ++ q2 ++ String c v' ++ tail_) = 0%nat).
  { destruct ws1 as [| b ws1']; [reflexivity |].
    cbn [Str.all_space] in Hws1. apply andb_prop in Hws1.
    cbn [String.append AuthPattern.opt_quote].
    rewrite (space_is_no_quote b (proj1 Hws1)). reflexivity. }
  unfold AuthPattern.match_at.
  rewrite (startsWith_ci_app _ _ _ Hword). cbv zeta.
  assert (Hd : forall rest, Str.drop 13 (word ++ rest) = rest).
  { intro rest. rewrite <- Hlen. apply drop_whole. }
  rewrite !Hd.
  rewrite (opt_quote_app q1 _ Hq1 Hws1_q), drop_whole.
  rewrite (span_app Str.is_space ws1 (":" ++ ws2 ++ q2 ++ String c v' ++ tail_)
             (all_space_span ws1 Hws1) eq_refl), drop_whole.
  change (":" ++ ?x) with (String ":" x).
  change (Str.code ":" =? 58)%nat with true. cbv iota.
  rewrite (span_app Str.is_space ws2 _ (all_space_span ws2 Hws2)
             (quote_is_no_space q2 _ Hq2 Hv_s)), drop_whole.
  rewrite (opt_quote_app q2 _ Hq2 Hv_q), drop_whole.
  rewrite (span_app AuthPattern.is_value_char _ _ Hval Htail).
  change (Str.code ":" =? 58)%nat with true.
  cbn [String.length Nat.eqb]. f_equal. f_equal.
  rewrite ?length_app. cbn [String.length]. rewrite ?length_app. lia.
Qed.

Lemma replace_from_match (c : ascii) (s : string) (g n : nat) :
  AuthPattern.match_at (String c s) = Some (g, n) ->
  AuthPattern.replace (String c s)
  = Str.take g (String c s) ++ "***REDACTED***"
      ++ AuthPattern.replace_from (g + n - 1) s.
Proof.
  intro H. unfold AuthPattern.replace. cbn [AuthPattern.replace_from].
  rewrite H. reflexivity.
Qed.

(** The replacement on a text that starts with a header line. *)
Lemma auth_replace_header (word q1 ws1 ws2 q2 v tail_ : string) :
  String.length word = 13%nat ->
  AuthPattern.startsWith_ci "authorization" word = true ->
  q1 = EmptyString \/ q1 = Str.dq \/ q1 = "'" ->
  Str.all_space ws1 = true ->
  Str.all_space ws2 = true ->
  q2 = EmptyString \/ q2 = Str.dq \/ q2 = "'" ->
  v <> EmptyString ->
  AuthPattern.span AuthPattern.is_value_char v = String.length v ->
  AuthPattern.span AuthPattern.is_value_char tail_ = 0%nat ->
  AuthPattern.replace (word ++ q1 ++ ws1 ++ ":" ++ ws2 ++ q2 ++ v ++ tail_)
  = (word ++ q1 ++ ws1 ++ ":" ++ ws2 ++ q2) ++ "***REDACTED***"
      ++ AuthPattern.replace tail_.
Proof.
  intros Hlen Hword Hq1 Hws1 Hws2 Hq2 Hv Hval Htail.
  pose proof (match_at_header word q1 ws1 ws2 q2 v tail_
                Hlen Hword Hq1 Hws1 Hws2 Hq2 Hv Hval Htail) as Hm.
  assert (Htext : word ++ q1 ++ ws1 ++ ":" ++ ws2 ++ q2 ++ v ++ tail_
                  = (word ++ q1 ++ ws1 ++ ":" ++ ws2 ++ q2) ++ v ++ tail_).
  { rewrite !append_assoc. reflexivity. }
  rewrite Htext in Hm |- *.
  generalize dependent (word ++ q1 ++ ws1 ++ ":" ++ ws2 ++ q2).
  intros prefix Hm.
  destruct prefix as [| c p'].
  { exfalso. unfold AuthPattern.match_at in Hm.
    destruct (AuthPattern.startsWith_ci "authorization" (EmptyString ++ v ++ tail_));
      [| discriminate Hm].
    destruct (Str.drop _ (Str.drop _ (Str.drop 13 _))) as [| d s4];
      [discriminate Hm |].
    destruct (Str.code d =? 58)%nat; [| discriminate Hm].
    destruct (_ =? 0)%nat; [discriminate Hm |].
    inversion Hm. }
  change (String c p' ++ v ++ tail_) with (String c (p' ++ v ++ tail_)) in Hm |- *.
  rewrite (replace_from_match _ _ _ _ Hm).
  change (String c (p' ++ v ++ tail_)) with (String c p' ++ v ++ tail_).
  rewrite take_whole. cbn [String.length].
  replace (S (String.length p') + String.length v - 1)%nat
    with (String.length (p' ++ v)) by (rewrite length_app; lia).
  rewrite <- (append_assoc p' v tail_), replace_from_skip.
  reflexivity.
Qed.

(** X19.  A string that holds neither the key nor the word Authorization
    passes the redactor unchanged. *)
Theorem redactSecrets_keeps_clean_text (s : string) :
  Str.includes API_KEY s = false ->
  AuthPattern.mentions s = false ->
  redactSecrets (JStr s) = JStr s.
Proof.
  intros Hkey Hauth. cbn [redactSecrets].
  rewrite (redact_text_clean s Hkey Hauth). reflexivity.
Qed.

(** X20.  In a string without the key that starts with a header line,
    the word Authorization in any case, an optional quote, white space, a
    colon, white space, an optional quote and then a value, the redactor
    keeps everything up to the value, puts the placeholder in the place of
    the value, and goes on with the rest of the text.  The value ends at
    the first quote, comma, white space or closing brace. *)
Theorem authorization_value_is_redacted (word q1 ws1 ws2 q2 v tail_ : string) :
  String.length word = 13%nat ->
  AuthPattern.startsWith_ci "authorization" word = true ->
  q1 = EmptyString \/ q1 = Str.dq \/ q1 = "'" ->
  Str.all_space ws1 = true ->
  Str.all_space ws2 = true ->
  q2 = EmptyString \/ q2 = Str.dq \/ q2 = "'" ->
  v <> EmptyString ->
  AuthPattern.span AuthPattern.is_value_char v = String.length v ->
  AuthPattern.span AuthPattern.is_value_char tail_ = 0%nat ->
  Str.includes API_KEY (word ++ q1 ++ ws1 ++ ":" ++ ws2 ++ q2 ++ v ++ tail_) = false ->
  redactSecrets (JStr (word ++ q1 ++ ws1 ++ ":" ++ ws2 ++ q2 ++ v ++ tail_))
  = JStr ((word ++ q1 ++ ws1 ++ ":" ++ ws2 ++ q2) ++ "***REDACTED***"
            ++ AuthPattern.replace tail_).
Proof.
  intros Hlen Hword Hq1 Hws1 Hws2 Hq2 Hv Hval Htail Hkey.
  cbn [redactSecrets]. f_equal. unfold redact_text.
  rewrite (replace_absent _ _ _ Hkey).
  apply auth_replace_header; assumption.
Qed.

(** X21.  A header line that holds a scheme and, after a space, a
    credential loses the scheme only: the value of the pattern ends at
    the space, so a credential that is not the key itself stays in the
    text. *)
Theorem credential_after_scheme_is_kept (scheme credential : string) :
  scheme <> EmptyString ->
  AuthPattern.span AuthPattern.is_value_char scheme = String.length scheme ->
  AuthPattern.mentions (" " ++ credential) = false ->
  Str.includes API_KEY ("Authorization: " ++ scheme ++ " " ++ credential) = false ->
  redactSecrets (JStr ("Authorization: " ++ scheme ++ " " ++ credential))
  = JStr ("Authorization: ***REDACTED*** " ++ credential).
Proof.
  intros Hs Hval Hm Hkey. cbn [redactSecrets]. f_equal. unfold redact_text.
  rewrite (replace_absent _ _ _ Hkey).
  change ("Authorization: " ++ scheme ++ " " ++ credential)
    with ("Authorization" ++ EmptyString ++ EmptyString ++ ":" ++ " "
            ++ EmptyString ++ scheme ++ " " ++ credential).
  rewrite (auth_replace_header "Authorization" EmptyString EmptyString " "
             EmptyString scheme (" " ++ credential) eq_refl eq_refl
             (or_introl eq_refl) eq_refl eq_refl (or_introl eq_refl)
             Hs Hval eq_refl).
  rewrite (auth_replace_absent _ Hm). reflexivity.
Qed.

(** X22.  The detail of an HTTP failure is never the empty string: it is
    the fixed text for an empty body, or the body as it is, or a property
    of the parsed body that holds a character other than white space. *)
Theorem extractErrorMessage_is_never_empty (rawBody : string) :
  extractErrorMessage rawBody <> EmptyString
  /\ (extractErrorMessage rawBody = "No response body"
      \/ extractErrorMessage rawBody = rawBody
      \/ Str.trim_nonempty (extractErrorMessage rawBody) = true).
Proof.
  assert (Hnb : forall v m, nonblank v = Some m ->
                            m <> EmptyString /\ Str.trim_nonempty m = true).
  { intros v m H. destruct v; try discriminate. cbn [nonblank] in H.
    destruct (Str.trim_nonempty s) eqn:E; [| discriminate].
    inversion H; subst. split; [| exact E].
    intro Hm. subst. discriminate E. }
  unfold extractErrorMessage.
  destruct (String.eqb_spec rawBody EmptyString) as [-> | Hne].
  { split; [discriminate | left; reflexivity]. }
  destruct (JSON_parse rawBody) as [parsed | msg]; [| split; auto].
  destruct (nonblank (Js.get_opt parsed "message")) as [m |] eqn:E1.
  { destruct (Hnb _ _ E1). split; auto. }
  destruct (nonblank (Js.get_opt (Js.get_opt parsed "error") "message"))
    as [m |] eqn:E2.
  { destruct (Hnb _ _ E2). split; auto. }
  destruct (nonblank (Js.get_opt parsed "error")) as [m |] eqn:E3.
  { destruct (Hnb _ _ E3). split; auto. }
  split; auto.
Qed.


(** *** What reaches the remote side, and what comes back *)

(** X23.  Each of the four paginated list tools forwards every parameter
    its schema declares under the name of the schema, in the order of the
    schema, in the query of one GET request without a body: an array
    gives one entry per element, and a parameter that is [undefined] or
    [null] gives none. *)
Theorem list_tools_forward_declared_parameters (t : tool) (args : value)
        (w : remote) (s : runtime) :
  In t tools ->
  In (tool_name t)
     ["list_messages"; "list_conversations"; "list_contacts"; "list_calls"] ->
  exists rq : request,
    outbound (fst (run w (handler t args) s)) = (outbound s ++ [rq])%list
    /\ rq_method rq = "GET"
    /\ rq_body rq = None
    /\ query_of rq
       = flat_map entry_pairs
           (map (fun p => (fst p, Js.arg args (fst p))) (inputSchema t)).
Proof.
  intros Hin Hname.
  each_tool Hin; cbn [tool_name] in Hname;
    try (exfalso; cbn [In] in Hname; intuition discriminate);
    clear Hname; cbn [handler inputSchema map fst];
    unfold list_messages, list_conversations, list_contacts, list_calls;
    eexists; rewrite run_then_ret; cbn [fst];
    (split; [apply quoFetch_outbound |]);
    (split; [reflexivity |]); (split; [reflexivity |]);
    match goal with
    | |- query_of (request_of ?p ?o) = flat_map entry_pairs ?fields =>
        apply (proj2 (request_query p o fields eq_refl eq_refl eq_refl
                        ltac:(distinct_names)))
    end.
Qed.

(** X24.  The gateway returns a value only for a response with a status
    in 200-299 that [fetch] delivered before the timer fired, so within
    the timeout when that is 1 ms or more: the value is the marker object
    when the status is 204, and otherwise the value of a body that was
    read to its end and parsed.  A response with any other status is
    never returned as a value. *)
Theorem quoFetch_success_kinds (w : remote) (path : string) (o : options)
        (s : runtime) (v : value) :
  snd (run w (quoFetch path o) s) = inr v ->
  exists res : response,
    fetch_outcome (w (request_of path o)) = inr res
    /\ fetch_ms (w (request_of path o)) <= setTimeout_delay HTTP_TIMEOUT_MS
    /\ (1 <= HTTP_TIMEOUT_MS ->
        fetch_ms (w (request_of path o)) <= HTTP_TIMEOUT_MS)
    /\ ok res = true
    /\ ((status res = 204 /\ v = JObj [("success", JBool true)])
        \/ (status res <> 204
            /\ body_failure res = None
            /\ JSON_parse (body_text res) = Parsed v)).
Proof.
  unfold quoFetch. simpl.
  unfold fires at 1. cbn [abort_at clock]. rewrite ltb_shift.
  destruct (Z.ltb_spec (setTimeout_delay HTTP_TIMEOUT_MS)
                       (fetch_ms (w (request_of path o))))
    as [Hslow | Hfast]; simpl; [discriminate |].
  assert (Hle : 1 <= HTTP_TIMEOUT_MS ->
                fetch_ms (w (request_of path o)) <= HTTP_TIMEOUT_MS).
  { intro H1. pose proof (setTimeout_delay_le _ H1). lia. }
  destruct (fetch_outcome (w (request_of path o))) as [err | res]; simpl.
  - unfold quoFetch_catch.
    destruct (String.eqb (name err) "AbortError"); discriminate.
  - destruct (ok res) eqn:Hok; simpl.
    + destruct (Z.eqb_spec (status res) 204) as [Hst | Hst]; simpl.
      * intro H. inversion H. exists res. auto 8.
      * destruct (body_failure res) as [failure |] eqn:Hread; simpl;
          [discriminate |].
        destruct (JSON_parse (body_text res)) as [v' | msg] eqn:Hp; simpl;
          [| discriminate].
        intro H. inversion H. subst. exists res. auto 8.
    + case_fires; [discriminate |].
      destruct (body_failure res) as [failure |]; simpl; [| discriminate].
      unfold quoFetch_catch.
      destruct (String.eqb (name failure) "AbortError"); discriminate.
Qed.

End Server.

(** ** The properties on the example configuration *)

Abbreviation KEY := example_key (only parsing).
Abbreviation MS := example_timeout (only parsing).
Abbreviation PARSE := RefJSON.parse (only parsing).

Lemma example_tool_In (name_ : string) (t : tool) :
  find_tool KEY MS PARSE name_ = Some t ->
  In (tool_named KEY MS PARSE name_)
     (tools KEY MS PARSE).
Proof.
  intro H. unfold tool_named. rewrite H.
  exact (find_tool_In KEY MS PARSE name_ t H).
Defined.

(** C1.  The redactor replaces the first occurrence of the key only: on a
    text, on a structured value and on the message of a transport failure
    that hold the key twice, the second occurrence is still in the output. *)
Theorem redactSecrets_leaves_later_occurrences :
  redactSecrets KEY (JStr "sk_live_123 sk_live_123")
  = JStr "***REDACTED_API_KEY*** sk_live_123"
  /\ Str.includes KEY "***REDACTED_API_KEY*** sk_live_123" = true
  /\ (exists t : string,
        redactSecrets KEY (JObj [("sent", JStr KEY); ("echo", JArr [JStr KEY])])
        = JStr t
        /\ Str.includes KEY t = true)
  /\ (exists t : string,
        snd (run PARSE (rejecting 10 {| name := "TypeError";
                                    message := "bad header sk_live_123 (sk_live_123)" |})
                 (quoFetch KEY MS PARSE "/users" GET) boot)
        = inl (new_Error t)
        /\ Str.includes KEY t = true).
Proof.
  split; [reflexivity |].
  split; [reflexivity |].
  split; eexists; split; vm_compute; reflexivity.
Qed.

(** C6.  A response with status 200 arrives after 10 ms and its body needs
    60000 ms more, against a timeout of 30000 ms: [quoFetch] returns the
    promise of [res.json()] and clears the timer at once, so the request
    lasts 60010 ms, is never aborted and yields the parsed body, not the
    timeout error.  The same delay before the status line, or while the
    body of a 500 is read, does abort the request with the timeout
    message. *)
Theorem slow_body_is_not_aborted :
  let slow_body := {| status := 200; statusText := "OK";
                      body_ms := 60000; body_text := "{}";
                      body_failure := None |} in
  let slow_error := {| status := 500; statusText := "Internal Server Error";
                       body_ms := 60000; body_text := "{}";
                       body_failure := None |} in
  MS < 10 + body_ms slow_body
  /\ run PARSE (responding 10 slow_body) (quoFetch KEY MS PARSE "/users" GET) boot
     = ({| clock := 60010; abort_at := None;
           outbound := [request_of KEY "/users" GET] |},
        inr (JObj []))
  /\ run PARSE (responding 60010 slow_body) (quoFetch KEY MS PARSE "/users" GET) boot
     = ({| clock := 30000; abort_at := None;
           outbound := [request_of KEY "/users" GET] |},
        inl (new_Error "Quo API request timed out after 30000ms"))
  /\ run PARSE (responding 10 slow_error) (quoFetch KEY MS PARSE "/users" GET) boot
     = ({| clock := 30000; abort_at := None;
           outbound := [request_of KEY "/users" GET] |},
        inl (new_Error "Quo API request timed out after 30000ms")).
Proof.
  cbv zeta. split; [reflexivity |].
  split; [vm_compute; reflexivity |].
  split; vm_compute; reflexivity.
Qed.

(** C2, the claim as stated fails: [list_users] is a list tool, yet its
    schema declares neither [maxResults] nor [pageToken], and of an
    envelope with a next-page token it returns the [data] only. *)
Lemma list_users_is_not_paginated :
  let t := tool_named KEY MS PARSE "list_users" in
  let envelope := braces [Str.dq ++ "data" ++ Str.dq ++ ":[]";
                          member "nextPageToken" "abc"] in
  let res := {| status := 200; statusText := "OK"; body_ms := 0;
                body_text := envelope;
                body_failure := None |} in
  In t (tools KEY MS PARSE)
  /\ In (tool_name t) list_tools
  /\ declares t "maxResults" = false
  /\ declares t "pageToken" = false
  /\ PARSE envelope
     = Parsed (JObj [("data", JArr []); ("nextPageToken", JStr "abc")])
  /\ snd (run PARSE (responding 10 res) (handler t (JObj [])) boot)
     = inr {| content := [text_block (Some "[]")]; isError := false |}
  /\ snd (run PARSE (responding 10 res) (handler t (JObj [])) boot)
     <> inr {| content :=
                 [text_block
                    (JSON.stringify_2
                       (JObj [("data", JArr []); ("nextPageToken", JStr "abc")]))];
               isError := false |}.
Proof.
  cbv zeta.
  split; [apply (example_tool_In "list_users" _ eq_refl) |].
  split; [vm_compute; tauto |].
  split; [reflexivity |].
  split; [reflexivity |].
  split; [vm_compute; reflexivity |].
  split; [vm_compute; reflexivity |].
  vm_compute. discriminate.
Qed.

(** C5, the claim as stated fails.  A [message] of white space only is
    passed over in favour of the [error] string; and the whole message
    passes the redactor once more, which takes a status text ending in
    Authorization together with the detail for a credential. *)
Lemma http_message_is_not_the_claimed_one :
  let blank := {| status := 500; statusText := "Internal Server Error";
                  body_ms := 0;
                  body_text := braces [member "message" " "; member "error" "boom"];
                  body_failure := None |} in
  let header := {| status := 401; statusText := "Missing Authorization";
                   body_ms := 0; body_text := "denied";
                   body_failure := None |} in
  (snd (run PARSE (responding 10 blank) (quoFetch KEY MS PARSE "/users" GET) boot)
   = inl (new_Error "Quo API 500 Internal Server Error: boom")
   /\ claimed_http_message KEY PARSE blank = "Quo API 500 Internal Server Error:  "
   /\ snd (run PARSE (responding 10 blank) (quoFetch KEY MS PARSE "/users" GET) boot)
      <> inl (new_Error (claimed_http_message KEY PARSE blank)))
  /\
  (snd (run PARSE (responding 10 header) (quoFetch KEY MS PARSE "/users" GET) boot)
   = inl (new_Error "Quo API 401 Missing Authorization: ***REDACTED***")
   /\ claimed_http_message KEY PARSE header = "Quo API 401 Missing Authorization: denied"
   /\ snd (run PARSE (responding 10 header) (quoFetch KEY MS PARSE "/users" GET) boot)
      <> inl (new_Error (claimed_http_message KEY PARSE header))).
Proof.
  cbv zeta.
  split; (split; [vm_compute; reflexivity |]);
    (split; [vm_compute; reflexivity |]); vm_compute; discriminate.
Qed.

(** C10, the claim as stated fails: a 200 whose JSON body is [null] has no
    [data] property, and reading [result.data] throws; [get_call] fails
    with a TypeError instead of returning a result. *)
Lemma null_body_throws :
  let res := {| status := 200; statusText := "OK"; body_ms := 0;
                body_text := "null";
                body_failure := None |} in
  let args := JObj [("callId", JStr "AC1")] in
  PARSE "null" = Parsed JNull
  /\ Js.get_opt JNull "data" = JUndefined
  /\ snd (run PARSE (responding 10 res) (get_call KEY MS PARSE args) boot)
     = inl {| name := "TypeError";
              message := "Cannot read properties of null (reading 'data')" |}
  /\ snd (run PARSE (responding 10 res) (get_call KEY MS PARSE args) boot)
     <> inr {| content := [{| type := "text"; text := None |}];
               isError := false |}
  /\ snd (run PARSE (responding 10 res) (dispatch KEY MS PARSE "get_call" args) boot)
     = inr {| content :=
                [text_block
                   (Some "Cannot read properties of null (reading 'data')")];
              isError := true |}.
Proof.
  cbv zeta.
  split; [vm_compute; reflexivity |].
  split; [reflexivity |].
  split; [vm_compute; reflexivity |].
  split; [vm_compute; discriminate |].
  vm_compute; reflexivity.
Qed.


(** *** Instances of the theorems *)

Lemma example_params_NoDup :
  NoDup (map fst [("phoneNumberId", JStr "PN1");
                  ("participants", JArr [JStr "+15550001"; JStr "+15550002"]);
                  ("maxResults", JNum 20);
                  ("createdAfter", JUndefined);
                  ("pageToken", JNull)]).
Proof.
  repeat constructor; simpl; intuition discriminate.
Defined.

Lemma query_string_of_params_witness :
  let o := {| method := "GET"; body := JUndefined;
              params := JObj [("phoneNumberId", JStr "PN1");
                              ("participants", JArr [JStr "+15550001"; JStr "+15550002"]);
                              ("maxResults", JNum 20);
                              ("createdAfter", JUndefined);
                              ("pageToken", JNull)] |} in
  query_of (request_of KEY "/messages" o)
  = [("phoneNumberId", "PN1"); ("participants", "+15550001");
     ("participants", "+15550002"); ("maxResults", "20")].
Proof.
  intro o.
  exact (proj1 (query_string_of_params KEY "/messages" o _ eq_refl eq_refl eq_refl
                  example_params_NoDup)).
Defined.

Lemma update_contact_without_fields_witness :
  exists r : ToolResult,
    run PARSE (responding 10 {| status := 200; statusText := "OK"; body_ms := 0;
                            body_text := "{}";
                            body_failure := None |})
        (update_contact KEY MS PARSE (JObj [("id", JStr "c1")])) boot
    = (boot, inr r)
    /\ isError r = true.
Proof.
  destruct (update_contact_without_fields KEY MS PARSE (JObj [("id", JStr "c1")])
              (responding 10 {| status := 200; statusText := "OK"; body_ms := 0;
                                body_text := "{}";
                                body_failure := None |})
              boot eq_refl eq_refl eq_refl eq_refl eq_refl eq_refl)
    as (r & _ & Hrun & Herr & _).
  exists r. split; [exact Hrun | exact Herr].
Defined.

Lemma no_content_is_success_witness :
  run PARSE (responding 10 {| status := 204; statusText := "No Content";
                              body_ms := 0; body_text := EmptyString;
                              body_failure := None |})
      (delete_contact KEY MS PARSE (JObj [("id", JStr "c1")])) boot
  = ({| clock := 10; abort_at := None;
        outbound :=
          [{| rq_url := "https://api.openphone.com/v1/contacts/c1";
              rq_method := "DELETE";
              rq_headers := [("Authorization", KEY);
                             ("Content-Type", "application/json")];
              rq_body := None |}] |},
     inr {| content := [text_block (Some "Contact c1 deleted.")];
            isError := false |}).
Proof.
  destruct (no_content_is_success KEY MS PARSE
              (responding 10 {| status := 204; statusText := "No Content";
                                body_ms := 0; body_text := EmptyString;
                                body_failure := None |})
              10
              {| status := 204; statusText := "No Content";
                 body_ms := 0; body_text := EmptyString;
                 body_failure := None |}
              "/contacts/c1" GET (JObj [("id", JStr "c1")]) boot)
    as (_ & Hdelete & _).
  - intro rq. reflexivity.
  - vm_compute. discriminate.
  - reflexivity.
  - exact Hdelete.
Defined.


Lemma page_size_default_and_bounds_witness :
  validate (z.object (inputSchema (tool_named KEY MS PARSE "list_contacts")))
           (JObj [("maxResults", JNum 51)]) = None.
Proof.
  destruct (page_size_default_and_bounds KEY MS PARSE (tool_named KEY MS PARSE "list_contacts")
              [("maxResults", JNum 51)]
              (responding 10 {| status := 200; statusText := "OK"; body_ms := 0;
                                body_text := "{}";
                                body_failure := None |})
              (example_tool_In "list_contacts" _ eq_refl) eq_refl)
    as (_ & Hbounds & _).
  apply (proj1 (Hbounds 51 eq_refl)).
  right. vm_compute. reflexivity.
Defined.

Lemma unwrapping_without_data_witness :
  snd (run PARSE (responding 10 {| status := 200; statusText := "OK"; body_ms := 0;
                               body_text := braces [member "id" "AC1"];
                               body_failure := None |})
           (handler (tool_named KEY MS PARSE "get_call") (JObj [("callId", JStr "AC1")]))
           boot)
  = inr {| content := [{| type := "text"; text := None |}]; isError := false |}.
Proof.
  destruct (unwrapping_without_data KEY MS PARSE (tool_named KEY MS PARSE "get_call")
              (JObj [("callId", JStr "AC1")])
              (responding 10 {| status := 200; statusText := "OK"; body_ms := 0;
                                body_text := braces [member "id" "AC1"];
                                body_failure := None |})
              10
              {| status := 200; statusText := "OK"; body_ms := 0;
                 body_text := braces [member "id" "AC1"];
                 body_failure := None |})
    as [Hundefined _].
  - apply (example_tool_In "get_call" _ eq_refl).
  - vm_compute. tauto.
  - intro rq. reflexivity.
  - vm_compute. discriminate.
  - reflexivity.
  - vm_compute. discriminate.
  - apply Hundefined.
    right. exists (JObj [("id", JStr "AC1")]).
    split; [reflexivity |].
    split; [vm_compute; reflexivity | split; reflexivity].
Defined.

Lemma list_tools_pagination_witness :
  let envelope := braces [Str.dq ++ "data" ++ Str.dq ++ ":[]";
                          member "nextPageToken" "abc"] in
  let res := {| status := 200; statusText := "OK"; body_ms := 0;
                body_text := envelope; body_failure := None |} in
  declares (tool_named KEY MS PARSE "list_webhooks") "pageToken" = false
  /\ snd (run PARSE (responding 10 res)
              (handler (tool_named KEY MS PARSE "list_webhooks") (JObj [])) boot)
     = inr {| content := [text_block (Some "[]")]; isError := false |}
  /\ declares (tool_named KEY MS PARSE "list_calls") "pageToken" = true
  /\ snd (run PARSE (responding 10 res)
              (handler (tool_named KEY MS PARSE "list_calls")
                       (JObj [("phoneNumberId", JStr "PN1");
                              ("participants", JArr [JStr "+15550100"])]))
              boot)
     = inr {| content :=
                [text_block
                   (JSON.stringify_2
                      (JObj [("data", JArr []); ("nextPageToken", JStr "abc")]))];
              isError := false |}.
Proof.
  intros envelope res.
  assert (Hparse : PARSE (body_text res)
                   = Parsed (JObj [("data", JArr []); ("nextPageToken", JStr "abc")]))
    by (vm_compute; reflexivity).
  assert (Hms : 10 <= setTimeout_delay MS) by (vm_compute; discriminate).
  assert (Hst : status res <> 204) by (cbn; discriminate).
  destruct (list_tools_pagination KEY MS PARSE (tool_named KEY MS PARSE "list_webhooks")
              (example_tool_In "list_webhooks" _ eq_refl)
              ltac:(vm_compute; tauto))
    as [(Hname & _) | (_ & _ & Hdecl & Hdata)];
    [exfalso; vm_compute in Hname; intuition discriminate |].
  destruct (list_tools_pagination KEY MS PARSE (tool_named KEY MS PARSE "list_calls")
              (example_tool_In "list_calls" _ eq_refl)
              ltac:(vm_compute; tauto))
    as [(_ & _ & Hdecl' & Hwhole) | (Hname & _)];
    [| exfalso; vm_compute in Hname; intuition discriminate].
  split; [exact Hdecl |].
  split.
  { apply (Hdata (JObj []) (responding 10 res) 10 res _
             (fun rq => eq_refl) Hms eq_refl Hst eq_refl Hparse eq_refl). }
  split; [exact Hdecl' |].
  apply (Hwhole _ (responding 10 res) 10 res _
           (fun rq => eq_refl) Hms eq_refl Hst eq_refl Hparse).
Defined.

Lemma http_failure_message_witness :
  (exists t : string,
     snd (run PARSE (responding 10 {| status := 404; statusText := "Not Found";
                                      body_ms := 5;
                                      body_text := braces [member "message" "Contact not found"];
                                      body_failure := None |})
              (dispatch KEY MS PARSE "get_contact" (JObj [("id", JStr "missing-id")]))
              boot)
     = inr {| content := [text_block (Some t)]; isError := true |}
     /\ Str.includes "404" t = true
     /\ Str.includes "Contact not found" t = true)
  /\ snd (run PARSE (responding 10 {| status := 401;
                                      statusText := "Authorization Required";
                                      body_ms := 5; body_text := "denied";
                                      body_failure := None |})
              (quoFetch KEY MS PARSE "/users" GET) boot)
     = inl (new_Error "Quo API 401 Authorization Required: denied").
Proof.
  pose (res := {| status := 404; statusText := "Not Found"; body_ms := 5;
                  body_text := braces [member "message" "Contact not found"];
                  body_failure := None |}).
  pose (res' := {| status := 401; statusText := "Authorization Required";
                   body_ms := 5; body_text := "denied"; body_failure := None |}).
  split.
  - destruct (http_failure_message KEY MS PARSE (responding 10 res) 10 res
                "/contacts/missing-id" GET boot)
      as (_ & _ & _ & _ & _ & Hexample).
    + intro rq. reflexivity.
    + vm_compute. discriminate.
    + vm_compute. discriminate.
    + reflexivity.
    + reflexivity.
    + apply (Hexample "missing-id").
      * reflexivity.
      * vm_compute. reflexivity.
      * vm_compute. discriminate.
      * vm_compute. reflexivity.
      * vm_compute. reflexivity.
      * vm_compute. reflexivity.
  - destruct (http_failure_message KEY MS PARSE (responding 10 res') 10 res'
                "/users" GET boot)
      as (_ & _ & _ & _ & Hexact & _).
    + intro rq. reflexivity.
    + vm_compute. discriminate.
    + vm_compute. discriminate.
    + reflexivity.
    + reflexivity.
    + apply Hexact; vm_compute; reflexivity.
Defined.

(** ** Instances of the further properties *)

Lemma startup_reads_decimal_witness :
  Startup.startup (Some "sk_live_123"%string) (Some "  45000ms"%string)
  = Startup.Configured "sk_live_123" 45000.
Proof.
  apply (startup_reads_decimal "sk_live_123" "  " "ms" 45000);
    [discriminate | reflexivity | reflexivity | lia].
Defined.

Lemma startup_guards_witness :
  Some "sk_live_123"%string = Some "sk_live_123"%string
  /\ "sk_live_123"%string <> EmptyString
  /\ 1000 <= 30000
  /\ Startup.parseInt "30000" = Some 30000.
Proof.
  apply (startup_guards (Some "sk_live_123"%string) None "sk_live_123" 30000).
  reflexivity.
Defined.

Lemma startup_without_number_witness :
  Startup.startup (Some "sk_live_123"%string) (Some EmptyString)
  = Startup.Exit "QUO_HTTP_TIMEOUT_MS must be a number >= 1000"
  /\ Startup.startup (Some "sk_live_123"%string) None
     = Startup.Configured "sk_live_123" 30000.
Proof.
  apply (startup_without_number "sk_live_123" EmptyString); [discriminate | reflexivity].
Defined.

(** A timeout above [TIMEOUT_MAX] passes the guards of the start-up, and
    the timer it arms fires after 1 ms: an answer that takes 50 ms is
    reported as a timeout after the configured duration. *)
Lemma timeout_above_timer_range :
  Startup.startup (Some KEY) (Some "2147483648"%string)
  = Startup.Configured KEY 2147483648
  /\ setTimeout_delay 2147483648 = 1
  /\ run PARSE (responding 50 {| status := 204; statusText := "No Content";
                                 body_ms := 0; body_text := EmptyString;
                                 body_failure := None |})
         (quoFetch KEY 2147483648 PARSE "/users" GET) boot
     = ({| clock := 1; abort_at := None;
           outbound := [request_of KEY "/users" GET] |},
        inl (new_Error "Quo API request timed out after 2147483648ms")).
Proof.
  split; [vm_compute; reflexivity |].
  split; vm_compute; reflexivity.
Qed.

Lemma quoFetch_failure_kinds_witness :
  let broken := {| status := 200; statusText := "OK"; body_ms := 5;
                   body_text := EmptyString;
                   body_failure := Some {| name := "TypeError";
                                           message := "terminated" |} |} in
  let e := {| name := "TypeError"; message := "terminated" |} in
  (name e = "Error"
   /\ (message e = timeout_message MS
       \/ exists raw : string, message e = redact_text KEY raw))
  \/ (exists res : response,
        fetch_outcome (responding 10 broken (request_of KEY "/users" GET)) = inr res
        /\ ok res = true
        /\ status res <> 204
        /\ (body_failure res = Some e
            \/ exists msg : string,
                 body_failure res = None
                 /\ PARSE (body_text res) = SyntaxError msg
                 /\ e = {| name := "SyntaxError"; message := msg |})).
Proof.
  intros broken e.
  apply (quoFetch_failure_kinds KEY MS PARSE (responding 10 broken)
           "/users" GET boot).
  vm_compute. reflexivity.
Defined.

Lemma slow_error_body_is_a_timeout_witness :
  run PARSE (responding 10 {| status := 500; statusText := "Internal Server Error";
                              body_ms := 40000; body_text := "late";
                              body_failure := None |})
      (quoFetch KEY MS PARSE "/users" GET) boot
  = (after boot (clock boot + setTimeout_delay MS) (request_of KEY "/users" GET),
     inl (new_Error (timeout_message MS))).
Proof.
  apply (slow_error_body_is_a_timeout KEY MS PARSE _ 10
           {| status := 500; statusText := "Internal Server Error";
              body_ms := 40000; body_text := "late"; body_failure := None |}).
  - intro rq. reflexivity.
  - reflexivity.
  - vm_compute. reflexivity.
Defined.

Lemma handlers_send_at_most_one_request_witness :
  exists sent : list request,
    outbound (fst (run PARSE (rejecting 10 AbortError)
                       (handler (tool_named KEY MS PARSE "send_text")
                                (JObj [("from", JStr "PN1"); ("to", JStr "+15550100");
                                       ("content", JStr "hello")]))
                       boot))
    = (outbound boot ++ sent)%list
    /\ (List.length sent <= 1)%nat
    /\ forall rq : request,
         In rq sent ->
         rq_headers rq = [("Authorization", KEY);
                          ("Content-Type", "application/json")].
Proof.
  apply (handlers_send_at_most_one_request KEY MS PARSE
           (tool_named KEY MS PARSE "send_text")).
  apply (example_tool_In "send_text" _ eq_refl).
Defined.

Lemma handler_results_have_one_text_block_witness :
  let w := responding 10 {| status := 204; statusText := "No Content";
                            body_ms := 0; body_text := EmptyString;
                            body_failure := None |} in
  let t := tool_named KEY MS PARSE "delete_contact" in
  let args := JObj [("id", JStr "C1")] in
  let r := success (Some "Contact C1 deleted.") in
  (exists txt : option string, content r = [text_block txt])
  /\ (isError r = true ->
      tool_name t = "update_contact"
      /\ fst (run PARSE w (handler t args) boot) = boot)
  /\ (isError r = false ->
      exists (p : string) (o : options) (v : value),
        fst (run PARSE w (handler t args) boot)
        = fst (run PARSE w (quoFetch KEY MS PARSE p o) boot)
        /\ snd (run PARSE w (quoFetch KEY MS PARSE p o) boot) = inr v).
Proof.
  intros w t args r.
  apply (handler_results_have_one_text_block KEY MS PARSE t args w boot r).
  - apply (example_tool_In "delete_contact" _ eq_refl).
  - vm_compute. reflexivity.
Defined.

Lemma handlers_propagate_timeouts_witness :
  snd (run PARSE (responding 40000 {| status := 200; statusText := "OK";
                                      body_ms := 0; body_text := "{}";
                                      body_failure := None |})
           (handler (tool_named KEY MS PARSE "list_calls")
                    (JObj [("phoneNumberId", JStr "PN1");
                           ("participants", JArr [JStr "+15550100"])]))
           boot)
  = inl (new_Error (timeout_message MS))
  /\ Str.includes (Str.of_Z MS) (timeout_message MS) = true.
Proof.
  apply (handlers_propagate_timeouts KEY MS PARSE
           (tool_named KEY MS PARSE "list_calls")).
  - apply (example_tool_In "list_calls" _ eq_refl).
  - intro rq. vm_compute. reflexivity.
  - vm_compute. discriminate.
Defined.

Lemma handlers_propagate_parse_failures_witness :
  (exists msg : string,
     snd (run PARSE (responding 10 {| status := 200; statusText := "OK";
                                      body_ms := 0; body_text := "<html>";
                                      body_failure := None |})
              (handler (tool_named KEY MS PARSE "get_user")
                       (JObj [("userId", JStr "US1")]))
              boot)
     = inl {| name := "SyntaxError"; message := msg |})
  /\ snd (run PARSE (responding 10 {| status := 200; statusText := "OK";
                                      body_ms := 0; body_text := "{}";
                                      body_failure :=
                                        Some {| name := "TypeError";
                                                message := "terminated" |} |})
              (handler (tool_named KEY MS PARSE "get_user")
                       (JObj [("userId", JStr "US1")]))
              boot)
     = inl {| name := "TypeError"; message := "terminated" |}.
Proof.
  split.
  - destruct (PARSE "<html>") as [v | msg] eqn:Hp;
      [vm_compute in Hp; discriminate Hp |].
    exists msg.
    apply (handlers_propagate_parse_failures KEY MS PARSE
             (tool_named KEY MS PARSE "get_user") _ _ 10
             {| status := 200; statusText := "OK"; body_ms := 0;
                body_text := "<html>"; body_failure := None |}).
    + apply (example_tool_In "get_user" _ eq_refl).
    + intro rq. reflexivity.
    + vm_compute. discriminate.
    + reflexivity.
    + cbn. discriminate.
    + right. exists msg. split; [reflexivity | split; [exact Hp | reflexivity]].
    + vm_compute. discriminate.
  - apply (handlers_propagate_parse_failures KEY MS PARSE
             (tool_named KEY MS PARSE "get_user") _ _ 10
             {| status := 200; statusText := "OK"; body_ms := 0;
                body_text := "{}";
                body_failure := Some {| name := "TypeError";
                                        message := "terminated" |} |}).
    + apply (example_tool_In "get_user" _ eq_refl).
    + intro rq. reflexivity.
    + vm_compute. discriminate.
    + reflexivity.
    + cbn. discriminate.
    + left. reflexivity.
    + vm_compute. discriminate.
Defined.

Lemma handlers_propagate_transport_failures_witness :
  snd (run PARSE (rejecting 10 {| name := "TypeError"; message := "fetch failed" |})
           (handler (tool_named KEY MS PARSE "list_webhooks") (JObj []))
           boot)
  = inl (new_Error (redact_text KEY "fetch failed")).
Proof.
  apply (handlers_propagate_transport_failures KEY MS PARSE
           (tool_named KEY MS PARSE "list_webhooks") (JObj []) _ 10
           {| name := "TypeError"; message := "fetch failed" |}).
  - apply (example_tool_In "list_webhooks" _ eq_refl).
  - intro rq. reflexivity.
  - vm_compute; first [discriminate | reflexivity].
  - cbn. discriminate.
  - vm_compute. discriminate.
Defined.

Lemma unwrapping_returns_data_witness :
  snd (run PARSE (responding 10
                    {| status := 200; statusText := "OK"; body_ms := 0;
                       body_text := "{" ++ Str.dq ++ "data" ++ Str.dq ++ ":[],"
                                      ++ member "totalItems" "0" ++ "}";
                       body_failure := None |})
           (handler (tool_named KEY MS PARSE "list_users") (JObj []))
           boot)
  = inr (success (JSON.stringify_2
                    (Js.get_opt (JObj [("data", JArr []); ("totalItems", JStr "0")])
                                "data"))).
Proof.
  apply (unwrapping_returns_data KEY MS PARSE
           (tool_named KEY MS PARSE "list_users") (JObj []) _ 10
           {| status := 200; statusText := "OK"; body_ms := 0;
              body_text := "{" ++ Str.dq ++ "data" ++ Str.dq ++ ":[],"
                             ++ member "totalItems" "0" ++ "}";
              body_failure := None |}).
  - apply (example_tool_In "list_users" _ eq_refl).
  - vm_compute. tauto.
  - intro rq. reflexivity.
  - vm_compute. discriminate.
  - reflexivity.
  - cbn. discriminate.
  - reflexivity.
  - vm_compute. reflexivity.
  - reflexivity.
  - vm_compute. discriminate.
Defined.

Lemma registered_tools_are_found_witness :
  List.length (tools KEY MS PARSE) = 21%nat
  /\ NoDup (map tool_name (tools KEY MS PARSE))
  /\ find_tool KEY MS PARSE (tool_name (tool_named KEY MS PARSE "get_call"))
     = Some (tool_named KEY MS PARSE "get_call").
Proof.
  apply (registered_tools_are_found KEY MS PARSE).
  apply (example_tool_In "get_call" _ eq_refl).
Defined.

Lemma handlers_read_declared_parameters_witness :
  handler (tool_named KEY MS PARSE "get_contact")
          (JObj [("id", JStr "C1"); ("debug", JBool true)])
  = handler (tool_named KEY MS PARSE "get_contact") (JObj [("id", JStr "C1")]).
Proof.
  apply (handlers_read_declared_parameters KEY MS PARSE
           (tool_named KEY MS PARSE "get_contact")).
  - apply (example_tool_In "get_contact" _ eq_refl).
  - intros k Hk.
    change (String.eqb "id" k || false = true) in Hk.
    rewrite orb_false_r in Hk. apply String.eqb_eq in Hk. subst k. reflexivity.
Defined.

Lemma update_contact_sends_defined_fields_witness :
  update_contact_defaultFields
    (JObj [("id", JStr "C1"); ("company", JStr EmptyString); ("role", JNull)])
  = [("company", JStr EmptyString); ("role", JNull)]
  /\ outbound (fst (run PARSE (rejecting 10 AbortError)
                        (update_contact KEY MS PARSE
                           (JObj [("id", JStr "C1"); ("company", JStr EmptyString);
                                  ("role", JNull)]))
                        boot))
     = [request_of KEY "/contacts/C1"
          {| method := "PATCH";
             body := JObj [("defaultFields",
                            JObj [("company", JStr EmptyString); ("role", JNull)])];
             params := JUndefined |}].
Proof.
  destruct (update_contact_sends_defined_fields KEY MS PARSE
              (JObj [("id", JStr "C1"); ("company", JStr EmptyString);
                     ("role", JNull)])
              (rejecting 10 AbortError) boot) as [Hfields Hsend].
  split; [exact Hfields |].
  destruct Hsend as (Hout & _ & _); [discriminate |].
  exact Hout.
Defined.

Lemma list_phone_numbers_query_witness :
  exists rq : request,
    outbound (fst (run PARSE (rejecting 10 AbortError)
                       (list_phone_numbers KEY MS PARSE
                          (JObj [("userId", JStr "US1")]))
                       boot))
    = (outbound boot ++ [rq])%list
    /\ rq_method rq = "GET"
    /\ rq_body rq = None
    /\ query_of rq = [("userId", "US1")].
Proof.
  apply (list_phone_numbers_query KEY MS PARSE (JObj [("userId", JStr "US1")])
           (Some "US1"%string)).
  reflexivity.
Defined.

Lemma delete_contact_needs_a_json_body_witness :
  exists msg : string,
    snd (run PARSE (responding 10 {| status := 200; statusText := "OK";
                                     body_ms := 0; body_text := "deleted";
                                     body_failure := None |})
             (delete_contact KEY MS PARSE (JObj [("id", JStr "C1")]))
             boot)
    = inl {| name := "SyntaxError"; message := msg |}.
Proof.
  pose proof (delete_contact_needs_a_json_body KEY MS PARSE
                (JObj [("id", JStr "C1")])
                (responding 10 {| status := 200; statusText := "OK";
                                  body_ms := 0; body_text := "deleted";
                                  body_failure := None |})
                10
                {| status := 200; statusText := "OK"; body_ms := 0;
                   body_text := "deleted"; body_failure := None |}
                boot) as H.
  cbn [body_text body_failure] in H.
  destruct (PARSE "deleted") as [v | msg] eqn:Hp; [vm_compute in Hp; discriminate Hp |].
  exists msg. apply H.
  - intro rq. reflexivity.
  - vm_compute. discriminate.
  - reflexivity.
  - cbn. discriminate.
Defined.

Lemma redactSecrets_keeps_clean_text_witness :
  redactSecrets KEY (JStr "Contact not found") = JStr "Contact not found".
Proof.
  apply (redactSecrets_keeps_clean_text KEY "Contact not found"); reflexivity.
Defined.

Lemma authorization_value_is_redacted_witness :
  redactSecrets KEY
    (JStr ("{" ++ Str.dq ++ "authorization" ++ Str.dq ++ ": " ++ Str.dq
             ++ "tok_9f2c" ++ Str.dq ++ "}"))
  = JStr ("{" ++ Str.dq ++ "authorization" ++ Str.dq ++ ": " ++ Str.dq
            ++ "***REDACTED***" ++ Str.dq ++ "}").
Proof.
  assert (H : redactSecrets KEY
                (JStr ("authorization" ++ Str.dq ++ EmptyString ++ ":" ++ " "
                         ++ Str.dq ++ "tok_9f2c" ++ Str.dq ++ "}"))
              = JStr (("authorization" ++ Str.dq ++ EmptyString ++ ":" ++ " "
                         ++ Str.dq) ++ "***REDACTED***"
                        ++ AuthPattern.replace (Str.dq ++ "}"))).
  { apply (authorization_value_is_redacted KEY "authorization" Str.dq EmptyString
             " " Str.dq "tok_9f2c" (Str.dq ++ "}"));
      try reflexivity; try (right; left; reflexivity); discriminate. }
  vm_compute in H |- *. inversion H. reflexivity.
Defined.

Lemma credential_after_scheme_is_kept_witness :
  redactSecrets KEY (JStr "Authorization: Bearer tok_9f2c")
  = JStr "Authorization: ***REDACTED*** tok_9f2c".
Proof.
  apply (credential_after_scheme_is_kept KEY "Bearer" "tok_9f2c");
    [discriminate | reflexivity | reflexivity | reflexivity].
Defined.

Lemma list_tools_forward_declared_parameters_witness :
  exists rq : request,
    outbound (fst (run PARSE (rejecting 10 AbortError)
                       (handler (tool_named KEY MS PARSE "list_conversations")
                                (JObj [("phoneNumbers", JArr [JStr "PN1"; JStr "PN2"]);
                                       ("excludeInactive", JBool true);
                                       ("maxResults", JNum 20)]))
                       boot))
    = (outbound boot ++ [rq])%list
    /\ rq_method rq = "GET"
    /\ rq_body rq = None
    /\ query_of rq
       = [("phoneNumbers", "PN1"); ("phoneNumbers", "PN2");
          ("excludeInactive", "true"); ("maxResults", "20")].
Proof.
  apply (list_tools_forward_declared_parameters KEY MS PARSE
           (tool_named KEY MS PARSE "list_conversations")
           (JObj [("phoneNumbers", JArr [JStr "PN1"; JStr "PN2"]);
                  ("excludeInactive", JBool true);
                  ("maxResults", JNum 20)])).
  - apply (example_tool_In "list_conversations" _ eq_refl).
  - vm_compute. tauto.
Defined.

Lemma quoFetch_success_kinds_witness :
  let w := responding 10 {| status := 204; statusText := "No Content";
                            body_ms := 0; body_text := EmptyString;
                            body_failure := None |} in
  let rq := request_of KEY "/contacts/C1"
              {| method := "DELETE"; body := JUndefined; params := JUndefined |} in
  let v := JObj [("success", JBool true)] in
  exists res : response,
    fetch_outcome (w rq) = inr res
    /\ fetch_ms (w rq) <= setTimeout_delay MS
    /\ (1 <= MS -> fetch_ms (w rq) <= MS)
    /\ ok res = true
    /\ ((status res = 204 /\ v = JObj [("success", JBool true)])
        \/ (status res <> 204
            /\ body_failure res = None
            /\ PARSE (body_text res) = Parsed v)).
Proof.
  intros w rq v.
  apply (quoFetch_success_kinds KEY MS PARSE w "/contacts/C1"
           {| method := "DELETE"; body := JUndefined; params := JUndefined |}
           boot).
  vm_compute. reflexivity.
Defined.
